(** * Patient record deduplication and matching engine

    A shallow embedding of [backend/src/utils/duplicateChecker.ts] (class
    [DuplicateChecker]) and of the handlers and form templates of
    [backend/src/routes/extraction.ts], together with the properties the
    specification states about them.

    Modelling conventions.
    - A JavaScript string is a list of code units.  The code units are
      Rocq's [ascii] (0..255), so the model covers exactly the strings
      of Latin-1 characters; [toLowerCase], [trim] and the class [\s]
      are written out for that range.
    - A JavaScript number is an exact rational ([Q]); lengths, indices
      and matrix cells are natural numbers.  The scores that
      [findMatches] tests against 0.5 and sorts are the IEEE 754
      binary64 numbers the engine computes (module [Binary64], on
      Rocq's primitive [float]): there the last bit decides.
    - An optional property is an [option]; JavaScript truthiness is
      written out per type ([truthy_str], [truthy_num]).
    - The record store (Mongoose model [Patient]) is a list of documents
      that is only read, and every [Patient.find] call is recorded in a
      trace of issued queries. *)

From Stdlib Require Import Floats.
From Stdlib Require Import QArith Qabs Qminmax Lqa Ascii String Permutation Sorted.
From stdpp Require Import list strings pretty.

Set Warnings "-inexact-float".
Local Open Scope nat_scope.
Local Open Scope list_scope.

(** ** Strings *)

Abbreviation jsstring := (list ascii).

Definition code (c : ascii) : nat := nat_of_ascii c.

(** [String.prototype.toLowerCase] on one Latin-1 code unit: A-Z and the
    accented capitals U+00C0..U+00DE (but not the multiplication sign
    U+00D7) move up by 32; everything else is unchanged. *)
Definition lower_ascii (c : ascii) : ascii :=
  let n := code c in
  if ((65 <=? n) && (n <=? 90)) || ((192 <=? n) && (n <=? 222) && negb (n =? 215))
  then ascii_of_nat (n + 32)
  else c.

Definition toLowerCase (s : jsstring) : jsstring := map lower_ascii s.

(** The class [\s] (and the characters [trim] strips) below U+0100:
    TAB, LF, VT, FF, CR, SPACE and NBSP. *)
Definition is_ws (c : ascii) : bool :=
  let n := code c in
  ((9 <=? n) && (n <=? 13)) || (n =? 32) || (n =? 160).

Fixpoint trimStart (s : jsstring) : jsstring :=
  match s with
  | c :: s' => if is_ws c then trimStart s' else s
  | [] => []
  end.

Definition trimEnd (s : jsstring) : jsstring := rev (trimStart (rev s)).

Definition trim (s : jsstring) : jsstring := trimEnd (trimStart s).

(** [s.replace(/\s+/g, ' ')]: every maximal run of white space becomes
    one space.  [in_run] tells that the previous code unit belonged to
    the run being replaced. *)
Fixpoint replace_ws (in_run : bool) (s : jsstring) : jsstring :=
  match s with
  | [] => []
  | c :: s' =>
      if is_ws c
      then (if in_run then replace_ws true s' else " "%char :: replace_ws true s')
      else c :: replace_ws false s'
  end.

(** [const normalize = (str) => str.toLowerCase().trim().replace(/\s+/g, ' ')] *)
Definition normalize (str : string) : jsstring :=
  replace_ws false (trim (toLowerCase (list_ascii_of_string str))).

(** ** The Levenshtein matrix of [calculateNameSimilarity] *)

(** A matrix is an array of rows.  A cell holding [null] is modelled by
    [0], the number [null] coerces to in arithmetic. *)
Abbreviation matrix := (list (list nat)).

(** [m[j][i]] *)
Definition mget (m : matrix) (j i : nat) : nat := (m !!! j) !!! i.

(** [m[j][i] = v].  The loops below never write outside the allocated
    [(n2.length + 1) x (n1.length + 1)] cells, where JavaScript would
    grow a row; out of range this update leaves the matrix as it is. *)
Definition mset (m : matrix) (j i v : nat) : matrix := alter (<[i := v]>) j m.

Definition min3 (a b c : nat) : nat := Nat.min (Nat.min a b) c.

(** [n1[i - 1] === n2[j - 1] ? 0 : 1]; indexing past the end gives
    [undefined], here [None]. *)
Definition indicator (n1 n2 : jsstring) (i j : nat) : nat :=
  if decide (n1 !! (i - 1) = n2 !! (j - 1)) then 0 else 1.

Definition levenshteinMatrix (n1 n2 : jsstring) : matrix :=
  (* Array(n2.length + 1).fill(null).map(() => Array(n1.length + 1).fill(null)) *)
  let m := replicate (length n2 + 1) (replicate (length n1 + 1) 0) in
  (* for (let i = 0; i <= n1.length; i++) matrix[0][i] = i; *)
  let m := fold_left (fun m i => mset m 0 i i) (seq 0 (length n1 + 1)) m in
  (* for (let j = 0; j <= n2.length; j++) matrix[j][0] = j; *)
  let m := fold_left (fun m j => mset m j 0 j) (seq 0 (length n2 + 1)) m in
  (* for (let j = 1; j <= n2.length; j++) for (let i = 1; i <= n1.length; i++) *)
  fold_left
    (fun m j =>
       fold_left
         (fun m i =>
            mset m j i
              (min3 (mget m j (i - 1) + 1)
                    (mget m (j - 1) i + 1)
                    (mget m (j - 1) (i - 1) + indicator n1 n2 i j)))
         (seq 1 (length n1)) m)
    (seq 1 (length n2)) m.

Definition Q_of_nat (n : nat) : Q := inject_Z (Z.of_nat n).

Definition calculateNameSimilarity (name1 name2 : string) : Q :=
  let n1 := normalize name1 in
  let n2 := normalize name2 in
  if decide (n1 = n2) then 1%Q
  else
    let m := levenshteinMatrix n1 n2 in
    let maxLength := Nat.max (length n1) (length n2) in
    if maxLength =? 0 then 1%Q
    else ((Q_of_nat maxLength - Q_of_nat (mget m (length n2) (length n1))) / Q_of_nat maxLength)%Q.

(** ** Data model ([backend/src/types/index.ts]) *)

Inductive Country := UK | US | India | Japan.

#[global] Instance Country_eq_dec : EqDecision Country.
Proof. solve_decision. Defined.

(** [IPatient.countryData]: fourteen optional string properties. *)
Record CountryData := mkCountryData {
  (* UK fields *)
  nhsNumber : option string;
  address : option string;
  gpName : option string;
  nhsInsuranceNumber : option string;
  (* US fields *)
  mrn : option string;
  ssn : option string;
  healthInsurancePolicyNumber : option string;
  primaryInsuranceProvider : option string;
  (* India fields *)
  hospitalUidAadhaar : option string;
  insuranceMemberID : option string;
  insuranceCompanyName : option string;
  (* Japan fields *)
  hospitalPatientID : option string;
  nationalHealthInsuranceCardNumber : option string;
  prefectureCode : option string
}.

(** The object literal [{}]. *)
Definition emptyCountryData : CountryData :=
  mkCountryData None None None None None None None None None None None None None None.

(** [(countryData as any)[field]]: property access by name; a name that
    is not a property gives [undefined]. *)
Definition getField (cd : CountryData) (field : string) : option string :=
  if String.eqb field "nhsNumber" then nhsNumber cd
  else if String.eqb field "address" then address cd
  else if String.eqb field "gpName" then gpName cd
  else if String.eqb field "nhsInsuranceNumber" then nhsInsuranceNumber cd
  else if String.eqb field "mrn" then mrn cd
  else if String.eqb field "ssn" then ssn cd
  else if String.eqb field "healthInsurancePolicyNumber" then healthInsurancePolicyNumber cd
  else if String.eqb field "primaryInsuranceProvider" then primaryInsuranceProvider cd
  else if String.eqb field "hospitalUidAadhaar" then hospitalUidAadhaar cd
  else if String.eqb field "insuranceMemberID" then insuranceMemberID cd
  else if String.eqb field "insuranceCompanyName" then insuranceCompanyName cd
  else if String.eqb field "hospitalPatientID" then hospitalPatientID cd
  else if String.eqb field "nationalHealthInsuranceCardNumber" then nationalHealthInsuranceCardNumber cd
  else if String.eqb field "prefectureCode" then prefectureCode cd
  else None.

(** [Partial<IPatient>], the record a caller submits.  The properties
    the engine never reads ([sourceFormId], [extractedAt],
    [googleFormUrl], [status]) are left out. *)
Record PartialPatient := mkPartial {
  p_name : option string;
  p_age : option Q;
  p_country : option Country;
  p_countryData : option CountryData
}.

(** [PatientDocument], a stored record as [Patient.find(...).lean()]
    returns it.  [_id] is optional in the type; [countryData] is tested
    for presence by the scorer and is therefore optional here too. *)
Record PatientDocument := mkDocument {
  _id : option nat;
  name : string;
  age : Q;
  country : Country;
  countryData : option CountryData
}.

(** *** Truthiness *)

(** A string property is truthy when it is present and not empty. *)
Definition truthy_str (v : option string) : bool :=
  match v with
  | Some s => negb (String.eqb s "")
  | None => false
  end.

(** A number property is truthy when it is present and not zero. *)
Definition truthy_num (v : option Q) : bool :=
  match v with
  | Some a => negb (Qeq_bool a 0)
  | None => false
  end.

(** An enumeration string or an object is truthy when it is present. *)
Definition truthy {A} (v : option A) : bool :=
  match v with
  | Some _ => true
  | None => false
  end.

(** [a > b] on numbers. *)
Definition Qgtb (a b : Q) : bool := negb (Qle_bool a b).

(** ** Similarity scorer *)

(** The [fields] array of [calculateOverallMatchScore]. *)
Definition fields : list string :=
  ["nhsNumber"; "mrn"; "hospitalUidAadhaar"; "ssn"; "healthInsurancePolicyNumber"]%string.

(** One turn of [for (const field of fields)], on the accumulators
    [(countryFieldScore, countryFieldCount)]. *)
Definition countryFieldStep (search patient : CountryData)
    (acc : nat * nat) (field : string) : nat * nat :=
  let '(countryFieldScore, countryFieldCount) := acc in
  let searchValue := getField search field in
  let patientValue := getField patient field in
  if truthy_str searchValue && truthy_str patientValue
  then (countryFieldScore + (if decide (searchValue = patientValue) then 1 else 0),
        countryFieldCount + 1)
  else acc.

Definition ageScore (a b : Q) : Q :=
  if Qeq_bool a b then 1%Q else Qmax 0 (1 - Qabs (a - b) / 10)%Q.

(** The accumulators [(score, totalWeight)] after each of the four
    blocks of [calculateOverallMatchScore]. *)
Definition addName (searchData : PartialPatient) (patient : PatientDocument)
    (acc : Q * Q) : Q * Q :=
  let '(score, totalWeight) := acc in
  match p_name searchData with
  | Some n =>
      if truthy_str (Some n)
      then let nameScore := calculateNameSimilarity n (name patient) in
           (score + nameScore * (4 # 10), totalWeight + (4 # 10))%Q
      else acc
  | None => acc
  end.

Definition addAge (searchData : PartialPatient) (patient : PatientDocument)
    (acc : Q * Q) : Q * Q :=
  let '(score, totalWeight) := acc in
  match p_age searchData with
  | Some a => (score + ageScore a (age patient) * (2 # 10), totalWeight + (2 # 10))%Q
  | None => acc
  end.

Definition addCountry (searchData : PartialPatient) (patient : PatientDocument)
    (acc : Q * Q) : Q * Q :=
  let '(score, totalWeight) := acc in
  match p_country searchData with
  | Some c =>
      let countryScore := if decide (c = country patient) then 1%Q else 0%Q in
      (score + countryScore * (1 # 10), totalWeight + (1 # 10))%Q
  | None => acc
  end.

Definition addCountryFields (searchData : PartialPatient) (patient : PatientDocument)
    (acc : Q * Q) : Q * Q :=
  let '(score, totalWeight) := acc in
  match p_countryData searchData, countryData patient with
  | Some search, Some stored =>
      let '(countryFieldScore, countryFieldCount) :=
        fold_left (countryFieldStep search stored) fields (0, 0) in
      if 0 <? countryFieldCount
      then (score + (Q_of_nat countryFieldScore / Q_of_nat countryFieldCount) * (3 # 10),
            totalWeight + (3 # 10))%Q
      else acc
  | _, _ => acc
  end.

Definition calculateOverallMatchScore (searchData : PartialPatient)
    (patient : PatientDocument) : Q :=
  let acc := (0%Q, 0%Q) in
  let acc := addName searchData patient acc in
  let acc := addAge searchData patient acc in
  let acc := addCountry searchData patient acc in
  let '(score, totalWeight) := addCountryFields searchData patient acc in
  if Qgtb totalWeight 0 then (score / totalWeight)%Q else 0%Q.

(** ** The scorer in binary64

    The same two functions, computed as the engine computes them: every
    number is an IEEE 754 binary64 and every operation rounds to
    nearest, ties to even.  The literals 0.4, 0.2, 0.1, 0.3 and 10 are
    the binary64 numbers nearest to them. *)
Module Binary64.

Local Open Scope float_scope.

(** A length or a count as a number (exact below 2^53). *)
Definition ofNat (n : nat) : float := PrimFloat.of_uint63 (Uint63.of_Z (Z.of_nat n)).

Definition ofZ (z : Z) : float :=
  match z with
  | Z0 => 0
  | Zpos _ => PrimFloat.of_uint63 (Uint63.of_Z z)
  | Zneg p => - PrimFloat.of_uint63 (Uint63.of_Z (Zpos p))
  end.

(** The number a JSON body or a stored document holds for the decimal
    [q]: the binary64 nearest to it (for a numerator and a denominator
    below 2^53; ages are small integers). *)
Definition ofQ (q : Q) : float := ofZ (Qnum q) / ofZ (Zpos (Qden q)).

(** [Math.max(0, x)] *)
Definition max0 (x : float) : float :=
  if PrimFloat.is_nan x then x else if 0 <? x then x else 0.

Definition calculateNameSimilarity (name1 name2 : string) : float :=
  let n1 := normalize name1 in
  let n2 := normalize name2 in
  if decide (n1 = n2) then 1
  else
    let m := levenshteinMatrix n1 n2 in
    let maxLength := Nat.max (length n1) (length n2) in
    if (maxLength =? 0)%nat then 1
    else ofNat (maxLength - mget m (length n2) (length n1)) / ofNat maxLength.

(** [a === b ? 1 : Math.max(0, 1 - Math.abs(a - b) / 10)] *)
Definition ageScore (a b : float) : float :=
  if a =? b then 1 else max0 (1 - PrimFloat.abs (a - b) / 10).

Definition addName (searchData : PartialPatient) (patient : PatientDocument)
    (acc : float * float) : float * float :=
  let '(score, totalWeight) := acc in
  match p_name searchData with
  | Some n =>
      if truthy_str (Some n)
      then let nameScore := calculateNameSimilarity n (name patient) in
           (score + nameScore * 0.4, totalWeight + 0.4)
      else acc
  | None => acc
  end.

Definition addAge (searchData : PartialPatient) (patient : PatientDocument)
    (acc : float * float) : float * float :=
  let '(score, totalWeight) := acc in
  match p_age searchData with
  | Some a => (score + ageScore (ofQ a) (ofQ (age patient)) * 0.2, totalWeight + 0.2)
  | None => acc
  end.

Definition addCountry (searchData : PartialPatient) (patient : PatientDocument)
    (acc : float * float) : float * float :=
  let '(score, totalWeight) := acc in
  match p_country searchData with
  | Some c =>
      let countryScore := if decide (c = country patient) then 1 else 0 in
      (score + countryScore * 0.1, totalWeight + 0.1)
  | None => acc
  end.

Definition addCountryFields (searchData : PartialPatient) (patient : PatientDocument)
    (acc : float * float) : float * float :=
  let '(score, totalWeight) := acc in
  match p_countryData searchData, countryData patient with
  | Some search, Some stored =>
      let '(countryFieldScore, countryFieldCount) :=
        fold_left (countryFieldStep search stored) fields (0%nat, 0%nat) in
      if (0 <? countryFieldCount)%nat
      then (score + (ofNat countryFieldScore / ofNat countryFieldCount) * 0.3,
            totalWeight + 0.3)
      else acc
  | _, _ => acc
  end.

Definition calculateOverallMatchScore (searchData : PartialPatient)
    (patient : PatientDocument) : float :=
  let acc := (0, 0) in
  let acc := addName searchData patient acc in
  let acc := addAge searchData patient acc in
  let acc := addCountry searchData patient acc in
  let '(score, totalWeight) := addCountryFields searchData patient acc in
  if 0 <? totalWeight then score / totalWeight else 0.

End Binary64.

(** ** Country field validator *)

Definition is_digit (c : ascii) : bool := (48 <=? code c) && (code c <=? 57).

(** [/^[0-9]{10}$/.test(s)] *)
Definition test_nhsNumber (s : string) : bool :=
  let l := list_ascii_of_string s in
  (length l =? 10) && forallb is_digit l.

(** [/^[0-9]{3}-[0-9]{2}-[0-9]{4}$/.test(s)] *)
Definition test_ssn (s : string) : bool :=
  match list_ascii_of_string s with
  | [a1; a2; a3; h1; b1; b2; h2; c1; c2; c3; c4] =>
      forallb is_digit [a1; a2; a3; b1; b2; c1; c2; c3; c4]
      && Ascii.eqb h1 "-" && Ascii.eqb h2 "-"
  | _ => false
  end.

(** [if (cond) errors.push(msg)] *)
Definition pushIf (cond : bool) (msg : string) (errors : list string) : list string :=
  if cond then errors ++ [msg] else errors.

(** [validateCountrySpecificFields(data, errors)]; the array [errors]
    is updated in place, here the updated array is returned. *)
Definition validateCountrySpecificFields (data : PartialPatient)
    (errors : list string) : list string :=
  match p_country data, p_countryData data with
  | Some country, Some countryData =>
      match country with
      | UK =>
          let errors := pushIf (negb (truthy_str (p_name data))) "Name is required" errors in
          let errors := pushIf (negb (truthy_num (p_age data))) "Age is required" errors in
          match nhsNumber countryData with
          | Some v =>
              if truthy_str (Some v)
              then pushIf (negb (test_nhsNumber v)) "NHS Number must be 10 digits" errors
              else errors ++ ["NHS Number is required"%string]
          | None => errors ++ ["NHS Number is required"%string]
          end
      | US =>
          let errors := pushIf (negb (truthy_str (p_name data))) "Name is required" errors in
          let errors := pushIf (negb (truthy_num (p_age data))) "Age is required" errors in
          let errors :=
            pushIf (negb (truthy_str (mrn countryData))) "Medical Record Number is required" errors in
          match ssn countryData with
          | Some v =>
              pushIf (truthy_str (Some v) && negb (test_ssn v))
                     "SSN must be in format XXX-XX-XXXX" errors
          | None => errors
          end
      | India =>
          let errors := pushIf (negb (truthy_str (p_name data))) "Name is required" errors in
          let errors := pushIf (negb (truthy_num (p_age data))) "Age is required" errors in
          pushIf (negb (truthy_str (hospitalUidAadhaar countryData)))
                 "Hospital UID/Aadhaar is required" errors
      | Japan =>
          let errors := pushIf (negb (truthy_str (p_name data))) "Name is required" errors in
          let errors := pushIf (negb (truthy_num (p_age data))) "Age is required" errors in
          pushIf (negb (truthy_str (hospitalPatientID countryData)))
                 "Hospital Patient ID is required" errors
      end
  | _, _ => errors
  end.

(** ** Record store and queries *)

(** One property of a filter object handed to [Patient.find]. *)
Inductive Cond :=
  | NameRegExp (source : string)            (* name: new RegExp(source, 'i') *)
  | AgeIs (a : Q)                           (* age: a *)
  | CountryIs (c : Country)                 (* country: c *)
  | CountryDataIs (field value : string).   (* 'countryData.<field>': value *)

Inductive Query :=
  | Filter (conds : list Cond)              (* find({ k1: v1, ... }) *)
  | Or (queries : list (list Cond))         (* find({ $or: [q1, ...] }) *)
  | Text (search : string) (scope : option Country) (nin : list nat).
      (* find({ $text: { $search }, country, _id: { $nin } }) *)

Inductive Outcome (A : Type) :=
  | Returned (a : A)
  | Thrown (error : string).
Arguments Returned {A} a.
Arguments Thrown {A} error.

(** A computation that may call the store: it extends the trace of
    issued queries and returns or throws. *)
Definition M (A : Type) : Type := list Query -> Outcome A * list Query.

Definition ret {A} (a : A) : M A := fun tr => (Returned a, tr).

Definition throw {A} (error : string) : M A := fun tr => (Thrown error, tr).

Definition bind {A B} (m : M A) (k : A -> M B) : M B :=
  fun tr =>
    match m tr with
    | (Returned a, tr') => k a tr'
    | (Thrown e, tr') => (Thrown e, tr')
    end.

Notation "x <- m ;; k" := (bind m (fun x => k))
  (at level 100, m at next level, right associativity).

Record Suggestion := mkSuggestion {
  field : string;
  suggestedValue : string;
  confidence : Q
}.

Record DuplicateAnalysis := mkAnalysis {
  isDuplicate : bool;
  duplicatePatients : list PatientDocument;
  suggestions : list Suggestion;
  validationErrors : list string
}.

Record PartialMatch := mkPartialMatch {
  patient : PatientDocument;
  matchScore : float
}.

Record MatchResult := mkMatchResult {
  exactMatches : list PatientDocument;
  partialMatches : list PartialMatch
}.

(** [Array.prototype.sort(cmp)] is a stable sort: [x] is moved behind
    [y] only when [cmp(x, y) > 0].  Every stable sort returns the same
    array; it is written here as an insertion sort.  The comparator
    returns a binary64 number. *)
Fixpoint insertBy {A} (cmp : A -> A -> float) (x : A) (l : list A) : list A :=
  match l with
  | [] => [x]
  | y :: l' => if PrimFloat.ltb 0 (cmp x y) then y :: insertBy cmp x l' else x :: l
  end.

Definition sortBy {A} (cmp : A -> A -> float) (l : list A) : list A :=
  fold_right (insertBy cmp) [] l.

(** [name || ''] *)
Definition orEmpty (v : option string) : string :=
  match v with
  | Some s => s
  | None => ""
  end.

(** [if (v) queries.push({ 'countryData.<field>': v })] *)
Definition pushClause (v : option string) (field : string)
    (queries : list (list Cond)) : list (list Cond) :=
  match v with
  | Some s => if truthy_str v then queries ++ [[CountryDataIs field s]] else queries
  | None => queries
  end.

(** [if (v) exactQuery['countryData.<field>'] = v] *)
Definition setField (v : option string) (field : string)
    (exactQuery : list Cond) : list Cond :=
  match v with
  | Some s => if truthy_str v then exactQuery ++ [CountryDataIs field s] else exactQuery
  | None => exactQuery
  end.

(** First block of [findDuplicates]: "Check by unique identifiers first". *)
Definition pushUniqueIdentifiers (extractedData : PartialPatient)
    (queries : list (list Cond)) : list (list Cond) :=
  match p_countryData extractedData with
  | Some countryData =>
      let queries := pushClause (nhsNumber countryData) "nhsNumber" queries in
      let queries := pushClause (mrn countryData) "mrn" queries in
      let queries := pushClause (hospitalUidAadhaar countryData) "hospitalUidAadhaar" queries in
      pushClause (ssn countryData) "ssn" queries
  | None => queries
  end.

(** [if (searchData.age) ...; if (searchData.country) ...] of [findMatches]. *)
Definition setAgeCountry (searchData : PartialPatient) (exactQuery : list Cond) : list Cond :=
  let exactQuery :=
    match p_age searchData with
    | Some a => if truthy_num (Some a) then exactQuery ++ [AgeIs a] else exactQuery
    | None => exactQuery
    end in
  match p_country searchData with
  | Some c => exactQuery ++ [CountryIs c]
  | None => exactQuery
  end.

(** Block "Add country-specific exact matches" of [findMatches]. *)
Definition setCountrySpecific (searchData : PartialPatient) (exactQuery : list Cond) : list Cond :=
  match p_countryData searchData with
  | Some countryData =>
      let exactQuery := setField (nhsNumber countryData) "nhsNumber" exactQuery in
      let exactQuery := setField (mrn countryData) "mrn" exactQuery in
      setField (hospitalUidAadhaar countryData) "hospitalUidAadhaar" exactQuery
  | None => exactQuery
  end.

(** The loop [for (const result of textSearchResults)] of [findMatches]. *)
Definition scoreResults (searchData : PartialPatient)
    (textSearchResults : list PatientDocument) : list PartialMatch :=
  fold_left
    (fun partialMatches result =>
       let matchScore := Binary64.calculateOverallMatchScore searchData result in
       if PrimFloat.ltb 0.5 matchScore
       then partialMatches ++ [mkPartialMatch result matchScore]
       else partialMatches)
    textSearchResults [].

(** The loop [for (const duplicate of duplicatePatients)] of [analyzeDuplicates]. *)
Definition suggestNames (searchName : string)
    (duplicatePatients : list PatientDocument) : list Suggestion :=
  fold_left
    (fun suggestions duplicate =>
       if Qgtb (calculateNameSimilarity searchName (name duplicate)) (8 # 10)
       then suggestions ++
            [mkSuggestion "name" (name duplicate)
               (calculateNameSimilarity searchName (name duplicate))]
       else suggestions)
    duplicatePatients [].

(** The response of [POST /api/extract/match]. *)
Inductive Response :=
  | Json200 (data : MatchResult)
  | Json400 (error : string)
  | Json500 (error : string).

Section Store.

(** The documents of the collection, in the order the store returns them. *)
Variable db : list PatientDocument.

(** [new RegExp(source, 'i')]: [None] when the constructor throws a
    [SyntaxError], otherwise the [test] method of the expression. *)
Variable RegExp_i : string -> option (string -> bool).

(** The store's answer to a text query (text index on [name] and
    [countryData.address]). *)
Variable textFind :
  list PatientDocument -> string -> option Country -> list nat -> list PatientDocument.

Definition newRegExp (source : string) : M string :=
  match RegExp_i source with
  | Some _ => ret source
  | None => throw "SyntaxError"
  end.

Definition matchesCond (d : PatientDocument) (c : Cond) : bool :=
  match c with
  | NameRegExp source =>
      match RegExp_i source with
      | Some test => test (name d)
      | None => false
      end
  | AgeIs a => Qeq_bool (age d) a
  | CountryIs c => bool_decide (country d = c)
  | CountryDataIs f v =>
      match countryData d with
      | Some cd => bool_decide (getField cd f = Some v)
      | None => false
      end
  end.

(** A filter object selects the documents that meet all its
    properties (the empty object selects every document); [$or]
    selects those that meet one of its filter objects. *)
Definition answer (q : Query) : list PatientDocument :=
  match q with
  | Filter conds => List.filter (fun d => forallb (matchesCond d) conds) db
  | Or queries =>
      List.filter (fun d => existsb (fun conds => forallb (matchesCond d) conds) queries) db
  | Text search scope nin => textFind db search scope nin
  end.

(** [await Patient.find(q).lean()], for a store that answers every
    query it is sent.  (A query that the store rejects would make the
    caller throw after the query was sent; the properties below that
    speak of a thrown error are stated so that they hold in that case
    too.) *)
Definition Patient_find (q : Query) : M (list PatientDocument) :=
  fun tr => (Returned (answer q), tr ++ [q]).

(** Second block of [findDuplicates]: "Check by name and age combination". *)
Definition pushNameAgeCountry (extractedData : PartialPatient)
    (queries : list (list Cond)) : M (list (list Cond)) :=
  match p_name extractedData, p_age extractedData, p_country extractedData with
  | Some n, Some a, Some c =>
      if truthy_str (Some n) && truthy_num (Some a)
      then re <- newRegExp n ;;
           ret (queries ++ [[NameRegExp re; AgeIs a; CountryIs c]])
      else ret queries
  | _, _, _ => ret queries
  end.

Definition findDuplicates (extractedData : PartialPatient) : M (list PatientDocument) :=
  let queries : list (list Cond) := [] in
  let queries := pushUniqueIdentifiers extractedData queries in
  queries <- pushNameAgeCountry extractedData queries ;;
  if length queries =? 0 then ret []
  else
    duplicates <- Patient_find (Or queries) ;;
    ret duplicates.

Definition analyzeDuplicates (extractedData : PartialPatient) : M DuplicateAnalysis :=
  let searchName := orEmpty (p_name extractedData) in
  duplicatePatients <- findDuplicates extractedData ;;
  let suggestions :=
    if 0 <? length duplicatePatients
    then suggestNames searchName duplicatePatients
    else [] in
  let validationErrors := validateCountrySpecificFields extractedData [] in
  ret (mkAnalysis (0 <? length duplicatePatients) duplicatePatients
                  suggestions validationErrors).

(** [if (searchData.name) exactQuery.name = new RegExp(searchData.name, 'i')] *)
Definition setName (searchData : PartialPatient) (exactQuery : list Cond) : M (list Cond) :=
  match p_name searchData with
  | Some n =>
      if truthy_str (Some n)
      then re <- newRegExp n ;; ret (exactQuery ++ [NameRegExp re])
      else ret exactQuery
  | None => ret exactQuery
  end.

(** Block "Find partial matches using text search" of [findMatches]. *)
Definition textMatches (searchData : PartialPatient)
    (exactMatches : list PatientDocument) : M (list PartialMatch) :=
  match p_name searchData with
  | Some n =>
      if truthy_str (Some n)
      then textSearchResults <-
             Patient_find (Text n (p_country searchData) (omap _id exactMatches)) ;;
           ret (scoreResults searchData textSearchResults)
      else ret []
  | None => ret []
  end.

Definition findMatches (searchData : PartialPatient) : M MatchResult :=
  let exactQuery : list Cond := [] in
  exactQuery <- setName searchData exactQuery ;;
  let exactQuery := setAgeCountry searchData exactQuery in
  let exactQuery := setCountrySpecific searchData exactQuery in
  exactResults <- Patient_find (Filter exactQuery) ;;
  let exactMatches := exactResults in
  partialMatches <- textMatches searchData exactMatches ;;
  let partialMatches :=
    sortBy (fun a b => PrimFloat.sub (matchScore b) (matchScore a)) partialMatches in
  ret (mkMatchResult exactMatches partialMatches).

Definition matchHandler (searchData : PartialPatient) : list Query -> Response * list Query :=
  fun tr =>
    if negb (truthy_str (p_name searchData)) && negb (truthy (p_countryData searchData))
    then (Json400 "At least name or country-specific data is required for matching", tr)
    else
      match findMatches searchData tr with
      | (Returned matchResult, tr') => (Json200 matchResult, tr')
      | (Thrown _, tr') => (Json500 "Failed to find matches", tr')
      end.

End Store.

(** ** Specification-side definitions *)

(** *** Normal form of a name *)

(** The first code unit, if any, is not white space. *)
Definition startsClean (s : jsstring) : Prop :=
  match s with
  | c :: _ => is_ws c = false
  | [] => True
  end.

(** No white space other than the space character, and never two
    white-space code units in a row. *)
Fixpoint singleSpaces (s : jsstring) : Prop :=
  match s with
  | [] => True
  | c :: s' =>
      (is_ws c = true -> c = " "%char /\ startsClean s') /\ singleSpaces s'
  end.

(** A normalized name: lower case, no white space at either end, and
    words separated by exactly one space. *)
Definition normalForm (s : jsstring) : Prop :=
  Forall (fun c => lower_ascii c = c) s /\
  startsClean s /\ startsClean (rev s) /\ singleSpaces s.

(** *** Normalization, as the specification words it

    "Lowercase, trim, collapse internal whitespace": every capital
    letter becomes its small letter, and the words of the name (its
    maximal runs without white space) are joined by single spaces.
    White space and capitals are listed here code unit by code unit,
    independently of [is_ws] and [lower_ascii]. *)

(** TAB, LF, VT, FF, CR, SPACE and NBSP. *)
Definition whiteSpaceCodes : list nat := [9; 10; 11; 12; 13; 32; 160].

Definition isWhiteSpace (c : ascii) : bool := existsb (Nat.eqb (code c)) whiteSpaceCodes.

(** A-Z, and the Latin-1 capitals U+00C0..U+00D6 and U+00D8..U+00DE;
    the small letter of each lies 32 code units further. *)
Definition capitalCodes : list nat := seq 65 26 ++ seq 192 23 ++ seq 216 7.

Definition lowerCase (c : ascii) : ascii :=
  if existsb (Nat.eqb (code c)) capitalCodes then ascii_of_nat (code c + 32) else c.

(** The string cut at every white-space code unit; between two
    neighbouring ones, and at a white end, the piece is empty. *)
Fixpoint pieces (s : jsstring) : list jsstring :=
  match s with
  | [] => [[]]
  | c :: s' =>
      if isWhiteSpace c then [] :: pieces s'
      else match pieces s' with
           | w :: ws => (c :: w) :: ws
           | [] => [[c]]
           end
  end.

Definition isEmpty (w : jsstring) : bool :=
  match w with
  | [] => true
  | _ :: _ => false
  end.

(** The words: the pieces that are not empty. *)
Definition nameWords (s : jsstring) : list jsstring :=
  List.filter (fun w => negb (isEmpty w)) (pieces s).

Fixpoint joinWords (ws : list jsstring) : jsstring :=
  match ws with
  | [] => []
  | [w] => w
  | w :: ws' => w ++ " "%char :: joinWords ws'
  end.

Definition specNormalize (str : string) : jsstring :=
  joinWords (nameWords (map lowerCase (list_ascii_of_string str))).

(** [" "] before a string that starts with white space (used to state
    what [replace_ws] does to a string that is not trimmed). *)
Definition leadingSpace (s : jsstring) : jsstring :=
  match s with
  | c :: _ => if isWhiteSpace c then [" "%char] else []
  | [] => []
  end.

(** *** Edit distance *)

(** One single-character edit: an insertion, a deletion or a
    substitution at any position. *)
Inductive edit1 : jsstring -> jsstring -> Prop :=
  | edit1_insert pre c post : edit1 (pre ++ post) (pre ++ c :: post)
  | edit1_delete pre c post : edit1 (pre ++ c :: post) (pre ++ post)
  | edit1_substitute pre c d post : edit1 (pre ++ c :: post) (pre ++ d :: post).

(** [edits n s t]: [n] successive single-character edits turn [s] into [t]. *)
Inductive edits : nat -> jsstring -> jsstring -> Prop :=
  | edits_done s : edits 0 s s
  | edits_step n s t u : edit1 s t -> edits n t u -> edits (S n) s u.

(** [d] is the Levenshtein distance of [s] and [t]: the least number of
    unit-cost edits that turn [s] into [t]. *)
Definition isEditDistance (s t : jsstring) (d : nat) : Prop :=
  edits d s t /\ forall n, edits n s t -> d <= n.

(** The textbook recursion on the two strings, used to connect the
    matrix with [isEditDistance]. *)
Fixpoint lev (s : jsstring) : jsstring -> nat :=
  match s with
  | [] => fun t => length t
  | c :: s' =>
      fix lev_s (t : jsstring) : nat :=
        match t with
        | [] => length s
        | d :: t' =>
            min3 (lev s' t + 1) (lev_s t' + 1)
                 (lev s' t' + (if decide (c = d) then 0 else 1))
        end
  end.

(** The distance of the first [i] characters of [n1] and the first
    [j] characters of [n2], the intended content of cell [m[j][i]]. *)
Definition prefixDistance (n1 n2 : jsstring) (i j : nat) : nat :=
  lev (rev (take i n1)) (rev (take j n2)).

(** [m] has [rows] rows of [cols] cells. *)
Definition dims (m : matrix) (rows cols : nat) : Prop :=
  length m = rows /\ forall j row, m !! j = Some row -> length row = cols.

(** Loop invariant of the double loop: the first column, every row
    before row [J] and the cells of row [J] before column [I] hold
    their prefix distances. *)
Definition filledUpTo (n1 n2 : jsstring) (m : matrix) (J I : nat) : Prop :=
  forall j i, j <= length n2 -> i <= length n1 ->
    j < J \/ (j = J /\ i < I) \/ i = 0 ->
    mget m j i = prefixDistance n1 n2 i j.

(** *** Weighted score *)

(** Every property name of [IPatient.countryData]. *)
Definition countryDataKeys : list string :=
  [ "nhsNumber"; "address"; "gpName"; "nhsInsuranceNumber";
    "mrn"; "ssn"; "healthInsurancePolicyNumber"; "primaryInsuranceProvider";
    "hospitalUidAadhaar"; "insuranceMemberID"; "insuranceCompanyName";
    "hospitalPatientID"; "nationalHealthInsuranceCardNumber"; "prefectureCode" ]%string.

(** The keys among [keys] that carry a (non-empty) value on both sides. *)
Definition commonKeys (keys : list string) (s p : CountryData) : list string :=
  List.filter (fun k => truthy_str (getField s k) && truthy_str (getField p k)) keys.

(** How many of [keys] hold the same string on both sides. *)
Definition equalCount (keys : list string) (s p : CountryData) : nat :=
  length (List.filter (fun k => bool_decide (getField s k = getField p k)) keys).

Definition nameComponent (q : PartialPatient) (c : PatientDocument) : option Q :=
  if truthy_str (p_name q)
  then Some (calculateNameSimilarity (orEmpty (p_name q)) (name c))
  else None.

Definition ageComponent (q : PartialPatient) (c : PatientDocument) : option Q :=
  match p_age q with
  | Some a => Some (ageScore a (age c))
  | None => None
  end.

Definition countryComponent (q : PartialPatient) (c : PatientDocument) : option Q :=
  match p_country q with
  | Some k => Some (if decide (k = country c) then 1%Q else 0%Q)
  | None => None
  end.

(** The average of exact equality over the keys of [keys] present on
    both sides; no component when there is no such key. *)
Definition identifierComponent (keys : list string)
    (q : PartialPatient) (c : PatientDocument) : option Q :=
  match p_countryData q, countryData c with
  | Some s, Some p =>
      match commonKeys keys s p with
      | [] => None
      | common => Some (Q_of_nat (equalCount common s p) / Q_of_nat (length common))%Q
      end
  | _, _ => None
  end.

Definition weightedSum (components : list (Q * option Q)) : Q :=
  fold_right (fun wc acc =>
                match snd wc with
                | Some v => (fst wc * v + acc)%Q
                | None => acc
                end) 0%Q components.

Definition includedWeight (components : list (Q * option Q)) : Q :=
  fold_right (fun wc acc =>
                match snd wc with
                | Some _ => (fst wc + acc)%Q
                | None => acc
                end) 0%Q components.

(** [sum(weight_i * score_i) / sum(weight_i included)], and 0 when no
    component is included. *)
Definition renormalized (components : list (Q * option Q)) : Q :=
  if Qgtb (includedWeight components) 0
  then (weightedSum components / includedWeight components)%Q
  else 0%Q.

Definition specOverallScore (keys : list string)
    (q : PartialPatient) (c : PatientDocument) : Q :=
  renormalized
    [ (4 # 10, nameComponent q c);
      (2 # 10, ageComponent q c);
      (1 # 10, countryComponent q c);
      (3 # 10, identifierComponent keys q c) ].



(** *** Validation rule table *)

(** A rule on one identifier key: the message when the key is required
    and missing, and the format test with its message. *)
Record FieldRule := mkFieldRule {
  ruleKey : string;
  requiredMessage : option string;
  formatRule : option ((string -> bool) * string)
}.

Definition ruleTable (c : Country) : list FieldRule :=
  match c with
  | UK => [ mkFieldRule "nhsNumber" (Some "NHS Number is required"%string)
              (Some (test_nhsNumber, "NHS Number must be 10 digits"%string)) ]
  | US => [ mkFieldRule "mrn" (Some "Medical Record Number is required"%string) None;
            mkFieldRule "ssn" None
              (Some (test_ssn, "SSN must be in format XXX-XX-XXXX"%string)) ]
  | India => [ mkFieldRule "hospitalUidAadhaar"
                 (Some "Hospital UID/Aadhaar is required"%string) None ]
  | Japan => [ mkFieldRule "hospitalPatientID"
                 (Some "Hospital Patient ID is required"%string) None ]
  end.

(** The messages one rule gives on a value: the requirement when the
    value is missing, otherwise the format. *)
Definition ruleErrors (cd : CountryData) (r : FieldRule) : list string :=
  match getField cd (ruleKey r) with
  | Some v =>
      if truthy_str (Some v)
      then match formatRule r with
           | Some (test, msg) => if test v then [] else [msg]
           | None => []
           end
      else option_list (requiredMessage r)
  | None => option_list (requiredMessage r)
  end.

Definition topLevelErrors (data : PartialPatient) : list string :=
  (if truthy_str (p_name data) then [] else ["Name is required"%string])
  ++ (if truthy_num (p_age data) then [] else ["Age is required"%string]).

(** Validation as the rule table reads: name and age are always
    required, then the rules of the record's country in table order. *)
Definition specValidate (data : PartialPatient) : list string :=
  topLevelErrors data
  ++ match p_country data with
     | Some c =>
         let cd := match p_countryData data with
                   | Some cd => cd
                   | None => emptyCountryData
                   end in
         flat_map (ruleErrors cd) (ruleTable c)
     | None => []
     end.

Definition ruleMet (cd : CountryData) (r : FieldRule) : Prop :=
  match getField cd (ruleKey r) with
  | Some v =>
      if truthy_str (Some v)
      then match formatRule r with
           | Some (test, _) => test v = true
           | None => True
           end
      else requiredMessage r = None
  | None => requiredMessage r = None
  end.

(** A record is compliant when name and age are given and every rule
    of its country is met. *)
Definition compliant (data : PartialPatient) : Prop :=
  truthy_str (p_name data) = true /\
  truthy_num (p_age data) = true /\
  match p_country data with
  | Some c =>
      let cd := match p_countryData data with
                | Some cd => cd
                | None => emptyCountryData
                end in
      Forall (ruleMet cd) (ruleTable c)
  | None => True
  end.

(** *** Exact lookup *)

(** The identifier keys [findDuplicates] treats as unique. *)
Definition uniqueFields : list string :=
  ["nhsNumber"; "mrn"; "hospitalUidAadhaar"; "ssn"]%string.

(** The identifier keys [findMatches] puts in its exact query. *)
Definition exactFields : list string :=
  ["nhsNumber"; "mrn"; "hospitalUidAadhaar"]%string.

(** The record carries the non-empty value [v] under [k]. *)
Definition carries (r : PartialPatient) (k v : string) : Prop :=
  exists cd, p_countryData r = Some cd /\ getField cd k = Some v /\ v <> ""%string.

(** The stored record holds the value [v] under [k]. *)
Definition holds (d : PatientDocument) (k v : string) : Prop :=
  exists cd, countryData d = Some cd /\ getField cd k = Some v.

(** Name, age and country are all given. *)
Definition hasNameAgeCountry (r : PartialPatient) : Prop :=
  truthy_str (p_name r) = true /\ truthy_num (p_age r) = true /\ truthy (p_country r) = true.

(** No unique identifier value, and not all of name, age and country. *)
Definition zeroQualifying (r : PartialPatient) : Prop :=
  (forall k v, In k uniqueFields -> ~ carries r k v) /\ ~ hasNameAgeCountry r.

(** The stored record shares a unique identifier value with the record. *)
Definition sharesIdentifier (keys : list string) (r : PartialPatient)
    (d : PatientDocument) : Prop :=
  exists k v, In k keys /\ carries r k v /\ holds d k v.

(** The name given as a regular expression is well formed. *)
Definition validName (RegExp_i : string -> option (string -> bool))
    (r : PartialPatient) : Prop :=
  forall n, p_name r = Some n -> n <> ""%string -> exists test, RegExp_i n = Some test.

(** The stored name matches the record's name case-insensitively. *)
Definition nameMatches (RegExp_i : string -> option (string -> bool))
    (n : string) (d : PatientDocument) : Prop :=
  exists test, RegExp_i n = Some test /\ test (name d) = true.

(** Case-insensitive name match and equal age and equal country. *)
Definition nameAgeCountryMatch (RegExp_i : string -> option (string -> bool))
    (r : PartialPatient) (d : PatientDocument) : Prop :=
  exists n a c,
    p_name r = Some n /\ n <> ""%string /\
    p_age r = Some a /\ ~ (a == 0)%Q /\
    p_country r = Some c /\
    nameMatches RegExp_i n d /\ (age d == a)%Q /\ country d = c.

(** The stored record meets every condition the record carries: the
    conjunctive filter of [findMatches]. *)
Definition meetsEveryCondition (RegExp_i : string -> option (string -> bool))
    (r : PartialPatient) (d : PatientDocument) : Prop :=
  (forall n, p_name r = Some n -> n <> ""%string -> nameMatches RegExp_i n d) /\
  (forall a, p_age r = Some a -> ~ (a == 0)%Q -> (age d == a)%Q) /\
  (forall c, p_country r = Some c -> country d = c) /\
  (forall k v, In k exactFields -> carries r k v -> holds d k v).

(** The record carries one of the fields [findMatches] filters on. *)
Definition carriesExactField (r : PartialPatient) : Prop :=
  truthy_str (p_name r) = true \/ truthy_num (p_age r) = true \/
  truthy (p_country r) = true \/ exists k v, In k exactFields /\ carries r k v.

(** The clause on name, age and country, when all three are given. *)
Definition nameAgeCountryClause (r : PartialPatient) : list (list Cond) :=
  match p_name r, p_age r, p_country r with
  | Some n, Some a, Some c =>
      if truthy_str (Some n) && truthy_num (Some a)
      then [[NameRegExp n; AgeIs a; CountryIs c]]
      else []
  | _, _, _ => []
  end.

(** The disjuncts of the exact lookup of [findDuplicates]. *)
Definition duplicateClauses (r : PartialPatient) : list (list Cond) :=
  pushUniqueIdentifiers r [] ++ nameAgeCountryClause r.

Definition nameCond (r : PartialPatient) : list Cond :=
  match p_name r with
  | Some n => if truthy_str (Some n) then [NameRegExp n] else []
  | None => []
  end.

(** The conditions of the exact query of [findMatches]. *)
Definition exactConds (r : PartialPatient) : list Cond :=
  setCountrySpecific r (setAgeCountry r (nameCond r)).

(** The text query of [findMatches], issued when a name is given. *)
Definition textQueries (r : PartialPatient) (exactMatches : list PatientDocument) : list Query :=
  match p_name r with
  | Some n =>
      if truthy_str (Some n)
      then [Text n (p_country r) (omap _id exactMatches)]
      else []
  | None => []
  end.

(** *** Ranking *)

(** Each score is greater than or equal to the next. *)
Definition descending (l : list PartialMatch) : Prop :=
  Sorted (fun a b => PrimFloat.leb (matchScore b) (matchScore a) = true) l.

Definition strictlyDescending (l : list PartialMatch) : Prop :=
  Sorted (fun a b => PrimFloat.ltb (matchScore b) (matchScore a) = true) l.

(** The candidates scoring above 0.5, each with its overall score, in
    the order the store returned them. *)
Definition keptCandidates (r : PartialPatient)
    (results : list PatientDocument) : list PartialMatch :=
  map (fun d => mkPartialMatch d (Binary64.calculateOverallMatchScore r d))
      (List.filter
         (fun d => PrimFloat.ltb 0.5 (Binary64.calculateOverallMatchScore r d))
         results).

(** The entries of a ranking whose score equals [s], in the order of
    the ranking. *)
Definition scoring (s : float) (l : list PartialMatch) : list PartialMatch :=
  List.filter (fun pm => PrimFloat.eqb (matchScore pm) s) l.

(** *** A concrete store for examples *)

Fixpoint prefixb (p s : jsstring) : bool :=
  match p, s with
  | [], _ => true
  | a :: p', b :: s' => Ascii.eqb a b && prefixb p' s'
  | _ :: _, [] => false
  end.

Fixpoint infixb (p s : jsstring) : bool :=
  prefixb p s ||
  match s with
  | [] => false
  | _ :: s' => infixb p s'
  end.

(** [new RegExp(source, 'i')] for a source of letters, digits and
    spaces only: it never throws and tests for a case-insensitive
    occurrence of the source. *)
Definition literalRegExp_i (source : string) : option (string -> bool) :=
  Some (fun subject =>
          infixb (toLowerCase (list_ascii_of_string source))
                 (toLowerCase (list_ascii_of_string subject))).

(** The words of a string, split at white space. *)
Fixpoint wordsFrom (cur : jsstring) (s : jsstring) : list jsstring :=
  match s with
  | [] => match cur with [] => [] | _ => [rev cur] end
  | c :: s' =>
      if is_ws c
      then match cur with [] => wordsFrom [] s' | _ => rev cur :: wordsFrom [] s' end
      else wordsFrom (c :: cur) s'
  end.

Definition words (s : string) : list jsstring :=
  wordsFrom [] (toLowerCase (list_ascii_of_string s)).

(** A text query in its simplest form: a document is returned when its
    name or address shares a word with the search string, its country
    is the one asked for and its identity is not excluded. *)
Definition wordTextFind (db : list PatientDocument) (search : string)
    (scope : option Country) (nin : list nat) : list PatientDocument :=
  List.filter
    (fun d =>
       let text := words (name d) ++
                   words (orEmpty (from_option address None (countryData d))) in
       existsb (fun w => existsb (fun w' => bool_decide (w = w')) text) (words search)
       && bool_decide (scope = Some (country d))
       && match _id d with
          | Some i => negb (existsb (Nat.eqb i) nin)
          | None => true
          end)
    db.

(** *** Sample records *)

Definition ukData (nhs : string) : CountryData :=
  mkCountryData (Some nhs) None None None None None None None None None None None None None.

Definition japanData (hospitalId : string) : CountryData :=
  mkCountryData None None None None None None None None None None None
                (Some hospitalId) None None.

Definition johnSmyth30 : PatientDocument :=
  mkDocument (Some 1) "John Smyth" 30 UK (Some (ukData "1234567890")).

Definition johnSmyth41 : PatientDocument :=
  mkDocument (Some 2) "John Smyth" 41 UK (Some (ukData "2345678901")).

Definition bobStone : PatientDocument :=
  mkDocument (Some 3) "Bob Stone" 40 UK (Some (ukData "3456789012")).

Definition mori : PatientDocument :=
  mkDocument (Some 4) "Mori" 40 Japan (Some (japanData "JP-001")).

Definition sampleDb : list PatientDocument :=
  [johnSmyth30; johnSmyth41; bobStone; mori].

(** [{ name: "Sato", countryData: { hospitalPatientID: "JP-001" } }] *)
Definition satoQuery : PartialPatient :=
  mkPartial (Some "Sato"%string) None None (Some (japanData "JP-001")).

(** [{ country: "UK" }] *)
Definition ukOnly : PartialPatient := mkPartial None None (Some UK) None.

(** [{ name: "Ann Lee", age: 30, country: "UK" }] *)
Definition annNoData : PartialPatient :=
  mkPartial (Some "Ann Lee"%string) (Some 30%Q) (Some UK) None.

(** [{ name: "Ann Lee", age: 30, country: "UK", countryData: {} }] *)
Definition annMissingNhs : PartialPatient :=
  mkPartial (Some "Ann Lee"%string) (Some 30%Q) (Some UK) (Some emptyCountryData).

(** [{ countryData: {} }] *)
Definition emptyDataOnly : PartialPatient :=
  mkPartial None None None (Some emptyCountryData).

(** [{}] *)
Definition emptyRecord : PartialPatient := mkPartial None None None None.

(** [{ name: "Ann" }] *)
Definition annOnly : PartialPatient := mkPartial (Some "Ann"%string) None None None.

(** [{ age: 30, countryData: { nhsNumber: "3456789012" } }] *)
Definition age30WithBobsNumber : PartialPatient :=
  mkPartial None (Some 30%Q) None (Some (ukData "3456789012")).

(** [{ name: "John Smith", country: "UK" }] *)
Definition johnSmithUK : PartialPatient :=
  mkPartial (Some "John Smith"%string) None (Some UK) None.



(** ** Further definitions for the properties of the code *)

(** The cell [matrix[n2.length][n1.length]] that
    [calculateNameSimilarity] reads as the distance. *)
Definition editDistance (n1 n2 : jsstring) : nat :=
  mget (levenshteinMatrix n1 n2) (length n2) (length n1).

(** [new RegExp(searchData.name, 'i')] throws: the record carries a
    non-empty name that is not a well-formed regular expression. *)
Definition nameThrows (RegExp_i : string -> option (string -> bool))
    (r : PartialPatient) : bool :=
  match p_name r with
  | Some n =>
      truthy_str (Some n) &&
      match RegExp_i n with
      | Some _ => false
      | None => true
      end
  | None => false
  end.

(** The store honours [_id: { $nin: nin }]: no returned document has
    an identity listed in [nin]. *)
Definition honoursNin
    (textFind : list PatientDocument -> string -> option Country -> list nat ->
                list PatientDocument) : Prop :=
  forall db search scope nin d i,
    In d (textFind db search scope nin) -> _id d = Some i -> ~ In i nin.

(** [{ country: "UK", countryData: { nhsNumber: "3456789012" } }] *)
Definition bobsNumberOnly : PartialPatient :=
  mkPartial None None (Some UK) (Some (ukData "3456789012")).

(** [{ name: "Bob Stone", age: 40, country: "UK" }] *)
Definition bobNameAgeCountry : PartialPatient :=
  mkPartial (Some "Bob Stone"%string) (Some 40%Q) (Some UK) None.

(** ** The handlers [POST /analyze] and [POST /validate]
       ([backend/src/routes/extraction.ts]) *)

(** [IExtractionLog.extractionStatus] *)
Inductive ExtractionStatus := success | partial | failed | duplicate_found.

(** The document handed to [ExtractionLog.create] by [POST /analyze]. *)
Record ExtractionLogEntry := mkLogEntry {
  log_googleFormUrl : string;
  log_extractedData : PartialPatient;
  log_extractionStatus : ExtractionStatus;
  log_duplicatePatients : list nat
}.

Inductive AnalyzeResponse :=
  | AnalyzeJson200 (data : DuplicateAnalysis)
  | AnalyzeJson400 (error : string)
  | AnalyzeJson500 (error : string).

(** [{ ...extractedData, country }] *)
Definition withCountry (extractedData : PartialPatient) (country : Country) : PartialPatient :=
  mkPartial (p_name extractedData) (p_age extractedData) (Some country)
            (p_countryData extractedData).

(** [analysis.isDuplicate ? 'duplicate_found'
      : analysis.validationErrors.length > 0 ? 'partial' : 'success'] *)
Definition statusOf (analysis : DuplicateAnalysis) : ExtractionStatus :=
  if isDuplicate analysis then duplicate_found
  else if 0 <? length (validationErrors analysis) then partial
  else success.

(** [googleFormUrl || 'unknown'] *)
Definition orUnknown (googleFormUrl : option string) : string :=
  if truthy_str googleFormUrl then orEmpty googleFormUrl else "unknown".

Section AnalyzeHandler.

Variable db : list PatientDocument.
Variable RegExp_i : string -> option (string -> bool).
Variable textFind :
  list PatientDocument -> string -> option Country -> list nat -> list PatientDocument.

(** [POST /api/extract/analyze].  The state is the trace of queries
    sent to the patient collection and the extraction log; the log
    collection is assumed to accept the document it is given. *)
Definition analyzeHandler (googleFormUrl : option string)
    (extractedData : option PartialPatient) (country : option Country)
    (st : list Query * list ExtractionLogEntry)
    : AnalyzeResponse * (list Query * list ExtractionLogEntry) :=
  let '(tr, logs) := st in
  match extractedData, country with
  | Some extractedData, Some country =>
      let patientData := withCountry extractedData country in
      match analyzeDuplicates db RegExp_i textFind patientData tr with
      | (Returned analysis, tr') =>
          let entry :=
            mkLogEntry (orUnknown googleFormUrl) extractedData (statusOf analysis)
                       (omap _id (duplicatePatients analysis)) in
          (AnalyzeJson200 analysis, (tr', logs ++ [entry]))
      | (Thrown _, tr') =>
          (AnalyzeJson500 "Failed to analyze extraction data", (tr', logs))
      end
  | _, _ => (AnalyzeJson400 "extractedData and country are required", (tr, logs))
  end.

End AnalyzeHandler.

(** A value of [extractedData] in [POST /validate]: a string or a
    number (an integer here). *)
Inductive JsValue :=
  | VString (s : string)
  | VNumber (n : Z).

(** [!!value], for a property that may be absent. *)
Definition truthy_value (value : option JsValue) : bool :=
  match value with
  | Some (VString s) => negb (String.eqb s "")
  | Some (VNumber n) => negb (Z.eqb n 0)
  | None => false
  end.

(** [value.toString()].  For a number these are the decimal digits,
    which is what JavaScript prints for a safe integer (see
    [safeIntegers]); larger numbers are printed otherwise. *)
Definition toString (value : JsValue) : string :=
  match value with
  | VString s => s
  | VNumber n => pretty n
  end.

(** [!value || value.toString().trim() === ''] *)
Definition blankValue (value : option JsValue) : bool :=
  match value with
  | Some v =>
      negb (truthy_value value) ||
      bool_decide (trim (list_ascii_of_string (toString v)) = [])
  | None => true
  end.

(** [IFieldMapping] *)
Record IFieldMapping := mkFieldMapping {
  fieldName : string;
  googleFormSelector : string;
  dataAttribute : option string;
  inputType : string;
  isRequired : bool;
  validationPattern : option string;
  placeholder : option string
}.

(** [IFormFormat], without the properties [POST /validate] does not read. *)
Record IFormFormat := mkFormFormat {
  ff_country : Country;
  formName : string;
  fieldMappings : list IFieldMapping
}.

(** The [data] of the answer of [POST /validate]. *)
Record ValidationData := mkValidationData {
  isValid : bool;
  vd_validationErrors : list string;
  missingFields : list string;
  vd_country : Country;
  vd_formName : string
}.

Inductive ValidateResponse :=
  | ValidateJson200 (data : ValidationData)
  | ValidateJson400 (error : string)
  | ValidateJson404 (error : string)
  | ValidateJson500 (error : string).

Section ValidateHandler.

(** [new RegExp(pattern)]: [None] when the constructor throws. *)
Variable RegExp : string -> option (string -> bool).

(** [await FormFormat.findById(id)]: the document or [null] the
    lookup resolves to, or [Thrown] when it is rejected (an id that
    cannot be cast to an ObjectId, a store that fails). *)
Variable findById : string -> Outcome (option IFormFormat).

(** One turn of [for (const mapping of formFormat.fieldMappings)] on
    the arrays [(validationErrors, missingFields)]; [None] when
    [new RegExp] throws. *)
Definition checkMapping (extractedData : string -> option JsValue)
    (acc : list string * list string) (mapping : IFieldMapping)
    : option (list string * list string) :=
  let '(validationErrors, missingFields) := acc in
  let value := extractedData (fieldName mapping) in
  let '(validationErrors, missingFields) :=
    if isRequired mapping && blankValue value
    then (validationErrors ++ [fieldName mapping +:+ " is required"],
          missingFields ++ [fieldName mapping])
    else (validationErrors, missingFields) in
  match value, validationPattern mapping with
  | Some v, Some pattern =>
      if truthy_value value && truthy_str (Some pattern)
      then match RegExp pattern with
           | Some test =>
               if test (toString v)
               then Some (validationErrors, missingFields)
               else Some (validationErrors ++ [fieldName mapping +:+ " format is invalid"],
                          missingFields)
           | None => None
           end
      else Some (validationErrors, missingFields)
  | _, _ => Some (validationErrors, missingFields)
  end.

Fixpoint checkMappings (extractedData : string -> option JsValue)
    (mappings : list IFieldMapping) (acc : list string * list string)
    : option (list string * list string) :=
  match mappings with
  | [] => Some acc
  | mapping :: rest =>
      match checkMapping extractedData acc mapping with
      | Some acc' => checkMappings extractedData rest acc'
      | None => None
      end
  end.

(** [POST /api/extract/validate] *)
Definition validateHandler (extractedData : option (string -> option JsValue))
    (formFormatId : option string) : ValidateResponse :=
  match extractedData, formFormatId with
  | Some extractedData, Some id =>
      if truthy_str (Some id)
      then
        match findById id with
        | Thrown _ => ValidateJson500 "Failed to validate data"
        | Returned None => ValidateJson404 "Form format not found"
        | Returned (Some formFormat) =>
            match checkMappings extractedData (fieldMappings formFormat) ([], []) with
            | Some (validationErrors, missingFields) =>
                ValidateJson200
                  (mkValidationData (length validationErrors =? 0) validationErrors
                     missingFields (ff_country formFormat) (formName formFormat))
            | None => ValidateJson500 "Failed to validate data"
            end
        end
      else ValidateJson400 "extractedData and formFormatId are required"
  | _, _ => ValidateJson400 "extractedData and formFormatId are required"
  end.

(** A required field has no value, or only white space. *)
Definition isMissing (extractedData : string -> option JsValue) (m : IFieldMapping) : bool :=
  isRequired m && blankValue (extractedData (fieldName m)).

(** The pattern that applies to the field: the field has a truthy
    value and the mapping a non-empty pattern. *)
Definition patternFor (extractedData : string -> option JsValue) (m : IFieldMapping)
    : option (JsValue * string) :=
  match extractedData (fieldName m), validationPattern m with
  | Some v, Some pattern =>
      if truthy_value (Some v) && truthy_str (Some pattern) then Some (v, pattern) else None
  | _, _ => None
  end.

(** The value of the field fails the pattern that applies to it. *)
Definition badFormat (extractedData : string -> option JsValue) (m : IFieldMapping) : bool :=
  match patternFor extractedData m with
  | Some (v, pattern) =>
      match RegExp pattern with
      | Some test => negb (test (toString v))
      | None => false
      end
  | None => false
  end.

(** A pattern that applies is not a well-formed regular expression. *)
Definition patternThrows (extractedData : string -> option JsValue) (m : IFieldMapping) : bool :=
  match patternFor extractedData m with
  | Some (_, pattern) =>
      match RegExp pattern with
      | Some _ => false
      | None => true
      end
  | None => false
  end.

(** The messages one mapping adds. *)
Definition mappingErrors (extractedData : string -> option JsValue) (m : IFieldMapping)
    : list string :=
  (if isMissing extractedData m then [fieldName m +:+ " is required"] else [])
  ++ (if badFormat extractedData m then [fieldName m +:+ " format is invalid"] else []).

End ValidateHandler.

(** Every number of [extractedData] is a safe integer
    ([Number.MAX_SAFE_INTEGER] is 2^53 - 1): JavaScript prints it as
    its decimal digits. *)
Definition safeIntegers (extractedData : string -> option JsValue) : Prop :=
  forall key n, extractedData key = Some (VNumber n) ->
                (Z.abs n <= 9007199254740991)%Z.

(** [new RegExp(pattern)] for the two patterns the repository uses. *)
Definition sampleRegExp (pattern : string) : option (string -> bool) :=
  if String.eqb pattern "^[0-9]{10}$" then Some test_nhsNumber
  else if String.eqb pattern "^[0-9]{3}-[0-9]{2}-[0-9]{4}$" then Some test_ssn
  else None.

(** A form format with a required name and a required, patterned NHS number. *)
Definition sampleFormat : IFormFormat :=
  mkFormFormat UK "UK registration"
    [ mkFieldMapping "name" "[data-patient-name]" (Some "data-patient-name"%string)
        "text" true None None;
      mkFieldMapping "nhsNumber" "[data-nhs-number]" (Some "data-nhs-number"%string)
        "text" true (Some "^[0-9]{10}$"%string) None ].

(** The string is 24 hexadecimal digits. *)
Definition isHexDigit (c : ascii) : bool :=
  let n := nat_of_ascii c in
  ((48 <=? n) && (n <=? 57)) || ((65 <=? n) && (n <=? 70)) || ((97 <=? n) && (n <=? 102)).

Definition isObjectId (id : string) : bool :=
  (length (list_ascii_of_string id) =? 24) && forallb isHexDigit (list_ascii_of_string id).

Definition sampleFormatId : string := "64b7f0c2a1d3e4f5a6b7c8d9".

(** A store that holds one form format and rejects an id that is not
    24 hexadecimal digits. *)
Definition sampleFindById (id : string) : Outcome (option IFormFormat) :=
  if String.eqb id sampleFormatId then Returned (Some sampleFormat)
  else if isObjectId id then Returned None
  else Thrown "CastError".

(** [{ name: "   ", nhsNumber: 12345 }] *)
Definition sampleExtracted (key : string) : option JsValue :=
  if String.eqb key "name" then Some (VString "   ")
  else if String.eqb key "nhsNumber" then Some (VNumber 12345)
  else None.

(** ** Form templates (the templates router, second part of
       [backend/src/routes/extraction.ts]) *)

(** The double quote and the line feed, as one-character strings. *)
Definition dq : string := String "034"%char EmptyString.
Definition nl : string := String "010"%char EmptyString.

(** A field of a country template (and a custom field of a request,
    taken to have the same shape). *)
Record TemplateField := mkField {
  f_name : string;
  f_label : string;
  f_type : string;
  f_required : bool;
  f_placeholder : option string;
  f_pattern : option string;
  f_dataAttribute : string
}.

Record CountryTemplate := mkCountryTemplate {
  t_country : string;
  countryName : string;
  t_fields : list TemplateField
}.

(** The four entries of [COUNTRY_TEMPLATES]. *)
Definition templateUK : CountryTemplate :=
  mkCountryTemplate "UK"%string "United Kingdom"%string
    [ mkField "name"%string "Full Name"%string "text"%string true
        (Some "Enter patient's full name"%string) None
        "data-patient-name"%string;
      mkField "age"%string "Age"%string "number"%string true
        (Some "Age in years"%string) None
        "data-patient-age"%string;
      mkField "nhsNumber"%string "NHS Number"%string "text"%string true
        (Some "1234567890"%string) (Some "^[0-9]{10}$"%string)
        "data-nhs-number"%string;
      mkField "address"%string "Address"%string "textarea"%string true
        (Some "Full residential address"%string) None
        "data-patient-address"%string;
      mkField "gpName"%string "GP Name"%string "text"%string true
        (Some "Dr. Smith"%string) None
        "data-gp-name"%string;
      mkField "nhsInsuranceNumber"%string "NHS Insurance Number"%string "text"%string false
        (Some "Insurance number"%string) None
        "data-nhs-insurance"%string ].

Definition templateUS : CountryTemplate :=
  mkCountryTemplate "US"%string "United States"%string
    [ mkField "name"%string "Full Name"%string "text"%string true
        (Some "Enter patient's full name"%string) None
        "data-patient-name"%string;
      mkField "age"%string "Age"%string "number"%string true
        (Some "Age in years"%string) None
        "data-patient-age"%string;
      mkField "mrn"%string "Medical Record Number (MRN)"%string "text"%string true
        (Some "MRN-123456"%string) None
        "data-mrn"%string;
      mkField "ssn"%string "Social Security Number"%string "text"%string false
        (Some "123-45-6789"%string) (Some "^[0-9]{3}-[0-9]{2}-[0-9]{4}$"%string)
        "data-ssn"%string;
      mkField "healthInsurancePolicyNumber"%string "Health Insurance Policy Number"%string "text"%string true
        (Some "Policy number"%string) None
        "data-insurance-policy"%string;
      mkField "primaryInsuranceProvider"%string "Primary Insurance Provider"%string "text"%string true
        (Some "Blue Cross Blue Shield"%string) None
        "data-insurance-provider"%string ].

Definition templateIndia : CountryTemplate :=
  mkCountryTemplate "India"%string "India"%string
    [ mkField "name"%string "Full Name"%string "text"%string true
        (Some "Enter patient's full name"%string) None
        "data-patient-name"%string;
      mkField "age"%string "Age"%string "number"%string true
        (Some "Age in years"%string) None
        "data-patient-age"%string;
      mkField "hospitalUidAadhaar"%string "Hospital UID / Aadhaar Number"%string "text"%string true
        (Some "1234 5678 9012"%string) None
        "data-hospital-uid"%string;
      mkField "address"%string "Address"%string "textarea"%string true
        (Some "Full residential address"%string) None
        "data-patient-address"%string;
      mkField "insuranceMemberID"%string "Insurance Member ID"%string "text"%string true
        (Some "Member ID"%string) None
        "data-insurance-member-id"%string;
      mkField "insuranceCompanyName"%string "Insurance Company Name"%string "text"%string true
        (Some "New India Assurance"%string) None
        "data-insurance-company"%string ].

Definition templateJapan : CountryTemplate :=
  mkCountryTemplate "Japan"%string "Japan"%string
    [ mkField "name"%string "Full Name"%string "text"%string true
        (Some "Enter patient's full name"%string) None
        "data-patient-name"%string;
      mkField "age"%string "Age"%string "number"%string true
        (Some "Age in years"%string) None
        "data-patient-age"%string;
      mkField "hospitalPatientID"%string "Hospital Patient ID"%string "text"%string true
        (Some "Patient ID"%string) None
        "data-hospital-patient-id"%string;
      mkField "nationalHealthInsuranceCardNumber"%string "National Health Insurance Card Number"%string "text"%string true
        (Some "Insurance card number"%string) None
        "data-health-insurance-card"%string;
      mkField "address"%string "Address"%string "textarea"%string true
        (Some "Registered address"%string) None
        "data-patient-address"%string;
      mkField "prefectureCode"%string "Prefecture Code"%string "text"%string true
        (Some "Prefecture code"%string) None
        "data-prefecture-code"%string ].

(** The property names every object inherits from [Object.prototype]. *)
Definition objectPrototypeKeys : list string :=
  [ "constructor"; "__defineGetter__"; "__defineSetter__"; "hasOwnProperty";
    "__lookupGetter__"; "__lookupSetter__"; "isPrototypeOf"; "propertyIsEnumerable";
    "toString"; "valueOf"; "__proto__"; "toLocaleString" ]%string.

(** The result of [(COUNTRY_TEMPLATES as any)[country]]: a template,
    an inherited property (truthy, but without [fields]), or
    [undefined]. *)
Inductive TemplateLookup :=
  | OwnTemplate (template : CountryTemplate)
  | InheritedProperty
  | NoProperty.

Definition lookupTemplate (country : string) : TemplateLookup :=
  if String.eqb country "UK" then OwnTemplate templateUK
  else if String.eqb country "US" then OwnTemplate templateUS
  else if String.eqb country "India" then OwnTemplate templateIndia
  else if String.eqb country "Japan" then OwnTemplate templateJapan
  else if existsb (String.eqb country) objectPrototypeKeys then InheritedProperty
  else NoProperty.

(** [parts.join(sep)] *)
Fixpoint join (sep : string) (parts : list string) : string :=
  match parts with
  | [] => ""
  | [part] => part
  | part :: rest => part +:+ sep +:+ join sep rest
  end.

(** The arrow function mapped over [fields] in [generateHTMLTemplate]. *)
Definition renderField (field : TemplateField) : string :=
  let inputType := if String.eqb (f_type field) "textarea" then "textarea" else "input" in
  let typeAttr :=
    if negb (String.eqb (f_type field) "textarea")
    then "type=" +:+ dq +:+ f_type field +:+ dq else "" in
  let requiredAttr := if f_required field then "required" else "" in
  let patternAttr :=
    match f_pattern field with
    | Some pattern =>
        if truthy_str (Some pattern) then "pattern=" +:+ dq +:+ pattern +:+ dq else ""
    | None => ""
    end in
  let placeholderAttr :=
    match f_placeholder field with
    | Some placeholder =>
        if truthy_str (Some placeholder)
        then "placeholder=" +:+ dq +:+ placeholder +:+ dq else ""
    | None => ""
    end in
  let validationAttr :=
    if f_required field then "data-validation=" +:+ dq +:+ "required" +:+ dq else "" in
  nl +:+ "    <div data-field-container=" +:+ dq +:+ f_name field +:+ dq +:+ ">" +:+ nl
  +:+ "      <label for=" +:+ dq +:+ f_name field +:+ dq +:+ ">" +:+ f_label field
  +:+ (if f_required field then " *" else "") +:+ "</label>" +:+ nl +:+ "      <"
  +:+ inputType +:+ nl +:+ "        id=" +:+ dq +:+ f_name field +:+ dq +:+ nl
  +:+ "        name=" +:+ dq +:+ f_name field +:+ dq +:+ nl +:+ "        "
  +:+ f_dataAttribute field +:+ nl +:+ "        data-field-type=" +:+ dq
  +:+ f_type field +:+ dq +:+ nl +:+ "        " +:+ validationAttr +:+ nl
  +:+ "        " +:+ typeAttr +:+ nl +:+ "        " +:+ requiredAttr +:+ nl
  +:+ "        " +:+ patternAttr +:+ nl +:+ "        " +:+ placeholderAttr +:+ nl
  +:+ "        aria-label=" +:+ dq +:+ f_label field +:+ dq +:+ nl +:+ "      "
  +:+ (if String.eqb inputType "textarea" then "/>" else "/>") +:+ nl +:+ "    </div>".

Definition generateHTMLTemplate (country formName : string)
    (fields : list TemplateField) : string :=
  let fieldHTML := join nl (map renderField fields) in
  nl +:+ "<div data-form-country=" +:+ dq +:+ country +:+ dq +:+ " data-form-type="
  +:+ dq +:+ "patient-registration" +:+ dq +:+ ">" +:+ nl +:+ "  <h1>" +:+ formName
  +:+ "</h1>" +:+ nl +:+ "  <p>Please fill in all required fields marked with *</p>"
  +:+ nl +:+ "  " +:+ nl +:+ "  " +:+ fieldHTML +:+ nl +:+ "  " +:+ nl
  +:+ "  <button type=" +:+ dq +:+ "submit" +:+ dq +:+ " data-submit-button=" +:+ dq
  +:+ "true" +:+ dq +:+ ">Submit</button>" +:+ nl +:+ "</div>".

(** [s.includes(sub)] *)
Definition includes (s sub : string) : bool :=
  infixb (list_ascii_of_string sub) (list_ascii_of_string s).

(** The mapping [POST /generate] derives from a field. *)
Definition toFieldMapping (field : TemplateField) : IFieldMapping :=
  mkFieldMapping (f_name field)
    ("[" +:+ f_dataAttribute field +:+ "]")
    (Some (f_dataAttribute field))
    (f_type field)
    (f_required field)
    (if truthy_str (f_pattern field) then f_pattern field else None)
    (f_placeholder field).

Record GenerateData := mkGenerateData {
  formTemplate : string;
  g_fieldMappings : list IFieldMapping;
  g_country : string;
  g_formName : string;
  g_fields : list TemplateField
}.

Inductive GenerateResponse :=
  | GenerateJson200 (data : GenerateData)
  | GenerateJson400 (error : string)
  | GenerateJson404 (error : string)
  | GenerateJson500 (error : string).

(** [POST /api/templates/generate]; [customFields] defaults to [[]].
    For an inherited property [template.fields] is [undefined] and
    spreading it throws.  The properties of the request body are taken
    to have the types the handler expects: [country] and [formName]
    strings, [customFields] an array of fields shaped like those of
    [COUNTRY_TEMPLATES]. *)
Definition generateHandler (country formName : option string)
    (customFields : option (list TemplateField)) : GenerateResponse :=
  match country, formName with
  | Some country, Some formName =>
      if truthy_str (Some country) && truthy_str (Some formName)
      then
        match lookupTemplate country with
        | NoProperty => GenerateJson404 "Country template not found"
        | InheritedProperty => GenerateJson500 "Failed to generate form template"
        | OwnTemplate template =>
            let customFields := match customFields with Some l => l | None => [] end in
            let allFields := t_fields template ++ customFields in
            let formTemplate := generateHTMLTemplate country formName allFields in
            let fieldMappings := map toFieldMapping allFields in
            GenerateJson200
              (mkGenerateData formTemplate fieldMappings country formName allFields)
        end
      else GenerateJson400 "Country and formName are required"
  | _, _ => GenerateJson400 "Country and formName are required"
  end.

Record ValidationResults := mkValidationResults {
  hasCountryAttribute : bool;
  hasRequiredFields : bool;
  hasSubmitButton : bool;
  missingRequiredFields : list string
}.

Record TemplateValidation := mkTemplateValidation {
  tv_isValid : bool;
  validationResults : ValidationResults;
  tv_suggestions : list string
}.

Inductive ValidateTemplateResponse :=
  | TemplateJson200 (data : TemplateValidation)
  | TemplateJson400 (error : string)
  | TemplateJson404 (error : string)
  | TemplateJson500 (error : string).

(** [[!a && m1, !b && m2, !c && m3].filter(Boolean)] *)
Definition failedChecks (results : ValidationResults) : list string :=
  (if hasCountryAttribute results then [] else ["Add data-form-country attribute"%string])
  ++ (if hasRequiredFields results then [] else ["Add missing required fields"%string])
  ++ (if hasSubmitButton results then []
      else ["Add submit button with data-submit-button attribute"%string]).

(** [POST /api/templates/validate] *)
Definition validateTemplateHandler (formTemplate country : option string)
    : ValidateTemplateResponse :=
  match formTemplate, country with
  | Some formTemplate, Some country =>
      if truthy_str (Some formTemplate) && truthy_str (Some country)
      then
        match lookupTemplate country with
        | NoProperty => TemplateJson404 "Country template not found"
        | InheritedProperty => TemplateJson500 "Failed to validate template"
        | OwnTemplate template =>
            let validationResults :=
              mkValidationResults
                (includes formTemplate ("data-form-country=" +:+ dq +:+ country +:+ dq))
                (forallb (fun field => includes formTemplate (f_dataAttribute field))
                   (List.filter f_required (t_fields template)))
                (includes formTemplate ("data-submit-button=" +:+ dq +:+ "true" +:+ dq))
                (map f_name
                   (List.filter
                      (fun f => f_required f &&
                                negb (includes formTemplate (f_dataAttribute f)))
                      (t_fields template))) in
            let isValid :=
              hasCountryAttribute validationResults &&
              hasRequiredFields validationResults &&
              hasSubmitButton validationResults in
            TemplateJson200
              (mkTemplateValidation isValid validationResults
                 (if isValid then [] else failedChecks validationResults))
        end
      else TemplateJson400 "formTemplate and country are required"
  | _, _ => TemplateJson400 "formTemplate and country are required"
  end.

(** The string a [Country] stands for in the source, where the type is
    the union ['UK' | 'US' | 'India' | 'Japan']. *)
Definition countryLiteral (c : Country) : string :=
  match c with
  | UK => "UK"
  | US => "US"
  | India => "India"
  | Japan => "Japan"
  end.

(** The countries [COUNTRY_TEMPLATES] has a template for. *)
Definition templateCountries : list string := ["UK"; "US"; "India"; "Japan"]%string.

(** The two messages of [validateCountrySpecificFields] that report a
    value of the wrong format. *)
Definition formatErrors : list string :=
  ["NHS Number must be 10 digits"; "SSN must be in format XXX-XX-XXXX"]%string.

(** A UK record with a value for every required field of the UK
    template; its NHS number is too short. *)
Definition annShortNhs : PartialPatient :=
  mkPartial (Some "Ann Lee"%string) (Some 30%Q) (Some UK)
    (Some (mkCountryData (Some "12345"%string) (Some "1 High Street"%string)
             (Some "Dr. Smith"%string) None None None None None None None None None
             None None)).

(** A second store, for the ranking.  For the query [annReed30] the
    first two records score 29/35 in exact arithmetic and two different
    binary64 numbers; the next two are the same but for their
    identity; [annReeder] scores 1/2 in exact arithmetic and
    0.5000000000000001 in binary64; [annXu] scores below 0.5. *)
Definition annReed30 : PartialPatient :=
  mkPartial (Some "Ann Reed"%string) (Some 30%Q) (Some UK) (Some (ukData "9999999999")).

Definition annWeeder : PatientDocument := mkDocument (Some 11) "Ann Weeder" 30 UK None.

Definition annReed36 : PatientDocument := mkDocument (Some 12) "Ann Reed" 36 UK None.

Definition annReid : PatientDocument := mkDocument (Some 13) "Ann Reid" 30 UK None.

Definition annReidAgain : PatientDocument := mkDocument (Some 14) "Ann Reid" 30 UK None.

Definition annReeder : PatientDocument :=
  mkDocument (Some 15) "Ann Reeder" 36 UK (Some (ukData "1111111111")).

Definition annXu : PatientDocument := mkDocument (Some 16) "Ann Xu" 80 UK None.

Definition rankingDb : list PatientDocument :=
  [annWeeder; annReed36; annReid; annReidAgain; annReeder; annXu].

(** What [findMatches] returns for [annReed30] on [rankingDb]. *)
Definition annReedRanking : list PartialMatch :=
  [ mkPartialMatch annReid 0.92857142857142849%float;
    mkPartialMatch annReidAgain 0.92857142857142849%float;
    mkPartialMatch annReed36 0.82857142857142863%float;
    mkPartialMatch annWeeder 0.8285714285714284%float;
    mkPartialMatch annReeder 0.50000000000000011%float ].

(** What [findMatches] returns for [johnSmithUK] on [sampleDb]. *)
Definition johnSmithRanking : list PartialMatch :=
  [ mkPartialMatch johnSmyth30 0.92000000000000015%float;
    mkPartialMatch johnSmyth41 0.92000000000000015%float ].

(** [new RegExp(source, 'i')] that, like the real constructor, rejects
    the source "("; every other source is read as [literalRegExp_i]
    reads it. *)
Definition parenRegExp_i (source : string) : option (string -> bool) :=
  if String.eqb source "(" then None else literalRegExp_i source.

(** [{ name: "(", country: "UK", countryData: { nhsNumber: "3456789012" } }] *)
Definition parenWithBobsNumber : PartialPatient :=
  mkPartial (Some "("%string) None (Some UK) (Some (ukData "3456789012")).

(** [{ name: "Bob Stome", country: "UK", countryData: { nhsNumber: "3456789012" } }] *)
Definition bobStomeWithNumber : PartialPatient :=
  mkPartial (Some "Bob Stome"%string) None (Some UK) (Some (ukData "3456789012")).

(** [{ name: "John Smyth", age: 30, country: "UK" }] *)
Definition johnSmythAged30 : PartialPatient :=
  mkPartial (Some "John Smyth"%string) (Some 30%Q) (Some UK) None.

(** * Properties *)

Example kitten_sitting_matrix :
  levenshteinMatrix (normalize "kitten") (normalize "sitting") =
  [ [0; 1; 2; 3; 4; 5; 6];
    [1; 1; 2; 3; 4; 5; 6];
    [2; 2; 1; 2; 3; 4; 5];
    [3; 3; 2; 1; 2; 3; 4];
    [4; 4; 3; 2; 1; 2; 3];
    [5; 5; 4; 3; 2; 2; 3];
    [6; 6; 5; 4; 3; 3; 2];
    [7; 7; 6; 5; 4; 4; 3] ].
Proof. vm_compute. reflexivity. Qed.

Example normalize_john_smith :
  normalize "  John   SMITH " = list_ascii_of_string "john smith".
Proof. vm_compute. reflexivity. Qed.

(** ** The textbook recursion *)

Lemma lev_nil_l t : lev [] t = length t.
Proof. reflexivity. Qed.

Lemma lev_nil_r s : lev s [] = length s.
Proof. destruct s; reflexivity. Qed.

Lemma lev_cons c s d t :
  lev (c :: s) (d :: t) =
  min3 (lev s (d :: t) + 1) (lev (c :: s) t + 1)
       (lev s t + (if decide (c = d) then 0 else 1)).
Proof. reflexivity. Qed.

Global Opaque lev.

Lemma lev_refl s : lev s s = 0.
Proof.
  induction s as [|c s IH]; [reflexivity|].
  rewrite lev_cons, IH. destruct (decide (c = c)); [|congruence].
  unfold min3. lia.
Qed.

Lemma lev_sym s : forall t, lev s t = lev t s.
Proof.
  induction s as [|c s IHs]; intros t.
  - now rewrite lev_nil_l, lev_nil_r.
  - induction t as [|d t IHt].
    + now rewrite lev_nil_l, lev_nil_r.
    + rewrite !lev_cons, IHt, (IHs (d :: t)), (IHs t).
      destruct (decide (c = d)), (decide (d = c)); try congruence; unfold min3; lia.
Qed.

Lemma lev_le_max s : forall t, lev s t <= Nat.max (length s) (length t).
Proof.
  induction s as [|c s IHs]; intros t.
  - rewrite lev_nil_l. lia.
  - destruct t as [|d t].
    + rewrite lev_nil_r. lia.
    + rewrite lev_cons. specialize (IHs t). cbn [length].
      destruct (decide (c = d)); unfold min3; lia.
Qed.

(** Dropping, adding or changing the first character of the left
    string moves the distance by at most one. *)
Lemma lev_delete_head c s u : lev (c :: s) u <= S (lev s u).
Proof.
  destruct u as [|d u].
  - rewrite !lev_nil_r. cbn [length]. lia.
  - rewrite lev_cons. unfold min3. lia.
Qed.

Lemma lev_insert_right s d u : lev s (d :: u) <= S (lev s u).
Proof. rewrite (lev_sym s (d :: u)), (lev_sym s u). apply lev_delete_head. Qed.

Lemma lev_insert_head c s : forall u, lev s u <= S (lev (c :: s) u).
Proof.
  induction u as [|d u IH].
  - rewrite !lev_nil_r. cbn [length]. lia.
  - rewrite lev_cons. pose proof (lev_insert_right s d u).
    destruct (decide (c = d)); unfold min3; lia.
Qed.

Lemma lev_substitute_head c d s : forall u, lev (c :: s) u <= S (lev (d :: s) u).
Proof.
  induction u as [|e u IH].
  - rewrite !lev_nil_r. cbn [length]. lia.
  - rewrite !lev_cons.
    destruct (decide (c = e)), (decide (d = e)); unfold min3; lia.
Qed.

Lemma lev_cons_context c s t :
  (forall u, lev s u <= S (lev t u)) ->
  forall u, lev (c :: s) u <= S (lev (c :: t) u).
Proof.
  intros H. induction u as [|d u IH].
  - rewrite !lev_nil_r. specialize (H []). rewrite !lev_nil_r in H. cbn [length]. lia.
  - rewrite !lev_cons. pose proof (H (d :: u)). pose proof (H u).
    destruct (decide (c = d)); unfold min3; lia.
Qed.

Lemma lev_app_context pre s t :
  (forall u, lev s u <= S (lev t u)) ->
  forall u, lev (pre ++ s) u <= S (lev (pre ++ t) u).
Proof.
  intros H. induction pre as [|c pre IH]; [exact H|].
  cbn [app]. now apply lev_cons_context.
Qed.

Lemma lev_edit1 s t : edit1 s t -> forall u, lev s u <= S (lev t u).
Proof.
  intros [pre c post | pre c post | pre c d post]; apply lev_app_context.
  - apply lev_insert_head.
  - apply lev_delete_head.
  - apply lev_substitute_head.
Qed.

Lemma lev_lower_bound n s t : edits n s t -> lev s t <= n.
Proof.
  induction 1 as [s | n s t u Hst _ IH].
  - now rewrite lev_refl.
  - pose proof (lev_edit1 _ _ Hst u). lia.
Qed.

(** ** Chains of edits *)

Lemma edit1_cons c s t : edit1 s t -> edit1 (c :: s) (c :: t).
Proof.
  intros [pre a post | pre a post | pre a b post].
  - apply (edit1_insert (c :: pre)).
  - apply (edit1_delete (c :: pre)).
  - apply (edit1_substitute (c :: pre)).
Qed.

Lemma edits_cons c n s t : edits n s t -> edits n (c :: s) (c :: t).
Proof.
  induction 1 as [s | n s t u Hst _ IH].
  - constructor.
  - econstructor; [apply edit1_cons, Hst | exact IH].
Qed.

Lemma edits_insert_all t : edits (length t) [] t.
Proof.
  induction t as [|c t IH]; [constructor|].
  cbn [length]. apply edits_step with (t := [c]).
  - apply (edit1_insert [] c []).
  - apply (edits_cons c), IH.
Qed.

Lemma edits_delete_all s : edits (length s) s [].
Proof.
  induction s as [|c s IH]; [constructor|].
  cbn [length]. apply edits_step with (t := s); [apply (edit1_delete [] c s) | exact IH].
Qed.

Lemma edits_lev s : forall t, edits (lev s t) s t.
Proof.
  induction s as [|c s IHs]; intros t.
  - rewrite lev_nil_l. apply edits_insert_all.
  - induction t as [|d t IHt].
    + rewrite lev_nil_r. apply edits_delete_all.
    + rewrite lev_cons. unfold min3.
      destruct (Nat.min_spec (lev s (d :: t) + 1) (lev (c :: s) t + 1)) as [[_ E1]|[_ E1]];
        rewrite E1; clear E1.
      * destruct (Nat.min_spec (lev s (d :: t) + 1)
                    (lev s t + (if decide (c = d) then 0 else 1))) as [[_ E2]|[_ E2]];
          rewrite E2; clear E2.
        -- rewrite Nat.add_1_r.
           apply edits_step with (t := s); [apply (edit1_delete [] c s) | apply IHs].
        -- destruct (decide (c = d)) as [->|_].
           ++ rewrite Nat.add_0_r. apply edits_cons, IHs.
           ++ rewrite Nat.add_1_r. apply edits_step with (t := d :: s).
              ** apply (edit1_substitute [] c d s).
              ** apply edits_cons, IHs.
      * destruct (Nat.min_spec (lev (c :: s) t + 1)
                    (lev s t + (if decide (c = d) then 0 else 1))) as [[_ E2]|[_ E2]];
          rewrite E2; clear E2.
        -- rewrite Nat.add_1_r. apply edits_step with (t := d :: c :: s).
           ++ apply (edit1_insert [] d (c :: s)).
           ++ apply edits_cons, IHt.
        -- destruct (decide (c = d)) as [->|_].
           ++ rewrite Nat.add_0_r. apply edits_cons, IHs.
           ++ rewrite Nat.add_1_r. apply edits_step with (t := d :: s).
              ** apply (edit1_substitute [] c d s).
              ** apply edits_cons, IHs.
Qed.

Lemma lev_isEditDistance s t : isEditDistance s t (lev s t).
Proof. split; [apply edits_lev | intros n; apply lev_lower_bound]. Qed.

Lemma isEditDistance_unique s t d d' :
  isEditDistance s t d -> isEditDistance s t d' -> d = d'.
Proof. intros [H1 H2] [H3 H4]. apply H2 in H3. apply H4 in H1. lia. Qed.

Lemma edit1_rev s t : edit1 s t -> edit1 (rev s) (rev t).
Proof.
  intros [pre c post | pre c post | pre c d post];
    rewrite ?rev_app_distr; cbn [rev]; rewrite <- ?app_assoc; cbn [app].
  - apply edit1_insert.
  - apply edit1_delete.
  - apply edit1_substitute.
Qed.

Lemma edits_rev n s t : edits n s t -> edits n (rev s) (rev t).
Proof.
  induction 1 as [s | n s t u Hst _ IH]; [constructor|].
  econstructor; [apply edit1_rev, Hst | exact IH].
Qed.

Lemma isEditDistance_rev s t d : isEditDistance (rev s) (rev t) d -> isEditDistance s t d.
Proof.
  intros [H1 H2]. split.
  - apply edits_rev in H1. now rewrite !rev_involutive in H1.
  - intros n Hn. apply H2, edits_rev, Hn.
Qed.

(** ** The matrix holds prefix distances *)

Lemma dims_mset m rows cols j i v : dims m rows cols -> dims (mset m j i v) rows cols.
Proof.
  intros [Hlen Hrows]. unfold mset. split.
  - now rewrite length_alter.
  - intros j' row. destruct (decide (j = j')) as [<-|Hne].
    + rewrite list_lookup_alter_eq. destruct (m !! j) as [r|] eqn:E; [|discriminate].
      cbn. intros [= <-]. rewrite length_insert. eapply Hrows, E.
    + rewrite list_lookup_alter_ne by assumption. apply Hrows.
Qed.

Lemma mget_mset_eq m rows cols j i v :
  dims m rows cols -> j < rows -> i < cols -> mget (mset m j i v) j i = v.
Proof.
  intros [Hlen Hrows] Hj Hi. unfold mget, mset.
  rewrite list_lookup_total_alter_eq by lia.
  apply list_lookup_total_insert_eq.
  destruct (lookup_lt_is_Some_2 m j) as [row Hrow]; [lia|].
  rewrite (list_lookup_total_correct _ _ _ Hrow), (Hrows _ _ Hrow). exact Hi.
Qed.

Lemma mget_mset_ne m j i v j' i' :
  (j', i') <> (j, i) -> mget (mset m j i v) j' i' = mget m j' i'.
Proof.
  intros Hne. unfold mget, mset.
  destruct (decide (j = j')) as [<-|Hj].
  - destruct (decide (j < length m)) as [Hlt|Hge].
    + rewrite list_lookup_total_alter_eq by assumption.
      apply list_lookup_total_insert_ne. congruence.
    + rewrite !list_lookup_total_alt.
      rewrite list_lookup_alter_eq, (lookup_ge_None_2 m j) by lia. reflexivity.
  - now rewrite list_lookup_total_alter_ne.
Qed.

Lemma fold_left_seq_invariant {A} (f : A -> nat -> A) (P : nat -> A -> Prop) n :
  forall a x,
    P a x ->
    (forall k y, a <= k < a + n -> P k y -> P (S k) (f y k)) ->
    P (a + n) (fold_left f (seq a n) x).
Proof.
  induction n as [|n IH]; intros a x Hx Hstep.
  - now rewrite Nat.add_0_r.
  - cbn [seq fold_left]. replace (a + S n) with (S a + n) by lia.
    apply IH.
    + apply Hstep; [lia | exact Hx].
    + intros k y Hk. apply Hstep. lia.
Qed.

Lemma prefixDistance_0_l n1 n2 j : j <= length n2 -> prefixDistance n1 n2 0 j = j.
Proof.
  intros Hj. unfold prefixDistance. rewrite take_0. cbn [rev].
  rewrite lev_nil_l, length_rev, length_take. lia.
Qed.

Lemma prefixDistance_0_r n1 n2 i : i <= length n1 -> prefixDistance n1 n2 i 0 = i.
Proof.
  intros Hi. unfold prefixDistance. rewrite (take_0 n2). cbn [rev].
  rewrite lev_nil_r, length_rev, length_take. lia.
Qed.

Lemma prefixDistance_S n1 n2 i j :
  i < length n1 -> j < length n2 ->
  prefixDistance n1 n2 (S i) (S j) =
  min3 (prefixDistance n1 n2 i (S j) + 1)
       (prefixDistance n1 n2 (S i) j + 1)
       (prefixDistance n1 n2 i j + indicator n1 n2 (S i) (S j)).
Proof.
  intros Hi Hj. unfold prefixDistance, indicator.
  destruct (lookup_lt_is_Some_2 n1 i Hi) as [c Hc].
  destruct (lookup_lt_is_Some_2 n2 j Hj) as [d Hd].
  rewrite (take_S_r n1 i c Hc), (take_S_r n2 j d Hd).
  rewrite !rev_app_distr. cbn [rev app]. rewrite lev_cons.
  rewrite <- (rev_unit (take j n2) d).
  replace (S i - 1) with i by lia. replace (S j - 1) with j by lia.
  rewrite Hc, Hd.
  destruct (decide (c = d)), (decide (Some c = Some d)); congruence.
Qed.

Lemma prefixDistance_full n1 n2 :
  prefixDistance n1 n2 (length n1) (length n2) = lev (rev n1) (rev n2).
Proof. unfold prefixDistance. now rewrite !firstn_all. Qed.

(** The cell written by one turn of the inner loop. *)
Lemma inner_step n1 n2 m j i :
  1 <= j <= length n2 -> 1 <= i <= length n1 ->
  dims m (length n2 + 1) (length n1 + 1) ->
  filledUpTo n1 n2 m j i ->
  filledUpTo n1 n2
    (mset m j i
       (min3 (mget m j (i - 1) + 1) (mget m (j - 1) i + 1)
             (mget m (j - 1) (i - 1) + indicator n1 n2 i j)))
    j (S i).
Proof.
  intros Hj Hi Hdims Hfill j' i' Hj' Hi' Hreg.
  destruct (decide ((j', i') = (j, i))) as [[= -> ->]|Hne].
  - rewrite (mget_mset_eq _ _ _ _ _ _ Hdims) by lia.
    rewrite (Hfill j (i - 1)), (Hfill (j - 1) i), (Hfill (j - 1) (i - 1)) by lia.
    destruct j as [|j]; [lia|]. destruct i as [|i]; [lia|].
    replace (S j - 1) with j by lia. replace (S i - 1) with i by lia.
    symmetry. apply prefixDistance_S; lia.
  - rewrite mget_mset_ne by assumption. apply Hfill; [lia..|].
    destruct Hreg as [H|[[-> H]|H]]; [tauto| |tauto].
    right; left. split; [reflexivity|].
    assert (i' <> i) by congruence. lia.
Qed.

Lemma inner_loop n1 n2 m j :
  1 <= j <= length n2 ->
  dims m (length n2 + 1) (length n1 + 1) ->
  filledUpTo n1 n2 m j 1 ->
  let m' :=
    fold_left
      (fun m i =>
         mset m j i
           (min3 (mget m j (i - 1) + 1) (mget m (j - 1) i + 1)
                 (mget m (j - 1) (i - 1) + indicator n1 n2 i j)))
      (seq 1 (length n1)) m in
  dims m' (length n2 + 1) (length n1 + 1) /\ filledUpTo n1 n2 m' (S j) 1.
Proof.
  intros Hj Hdims Hfill m'.
  assert (dims m' (length n2 + 1) (length n1 + 1) /\
          filledUpTo n1 n2 m' j (1 + length n1)) as [Hd Hf].
  { subst m'.
    apply (fold_left_seq_invariant _
             (fun i m => dims m (length n2 + 1) (length n1 + 1) /\ filledUpTo n1 n2 m j i)).
    - split; assumption.
    - intros i y Hi [Hd Hf]. split; [apply dims_mset, Hd|].
      apply inner_step; [lia|lia|assumption..]. }
  split; [exact Hd|].
  intros j' i' Hj' Hi' Hreg. apply Hf; [lia..|]. lia.
Qed.

Lemma first_row_loop (n1 n2 : jsstring) :
  let m0 := replicate (length n2 + 1) (replicate (length n1 + 1) 0) in
  let m := fold_left (fun m i => mset m 0 i i) (seq 0 (length n1 + 1)) m0 in
  dims m (length n2 + 1) (length n1 + 1) /\
  forall i, i <= length n1 -> mget m 0 i = i.
Proof.
  intros m0 m.
  assert (dims m0 (length n2 + 1) (length n1 + 1)) as Hd0.
  { split; [apply length_replicate|].
    intros j row [-> _]%lookup_replicate. apply length_replicate. }
  assert (dims m (length n2 + 1) (length n1 + 1) /\
          forall i, i < 0 + (length n1 + 1) -> mget m 0 i = i) as [Hd Hf].
  { subst m.
    apply (fold_left_seq_invariant _
             (fun k m => dims m (length n2 + 1) (length n1 + 1) /\
                         forall i, i < k -> mget m 0 i = i)).
    - split; [exact Hd0 | lia].
    - intros k y Hk [Hd Hf]. split; [apply dims_mset, Hd|].
      intros i Hi. destruct (decide (i = k)) as [->|Hne].
      + apply (mget_mset_eq _ _ _ _ _ _ Hd); lia.
      + rewrite mget_mset_ne by congruence. apply Hf. lia. }
  split; [exact Hd|]. intros i Hi. apply Hf. lia.
Qed.

Lemma first_column_loop (n1 n2 : jsstring) (m : matrix) :
  dims m (length n2 + 1) (length n1 + 1) ->
  (forall i, i <= length n1 -> mget m 0 i = i) ->
  let m' := fold_left (fun m j => mset m j 0 j) (seq 0 (length n2 + 1)) m in
  dims m' (length n2 + 1) (length n1 + 1) /\ filledUpTo n1 n2 m' 1 1.
Proof.
  intros Hd0 Hrow m'.
  assert (dims m' (length n2 + 1) (length n1 + 1) /\
          (forall i, i <= length n1 -> mget m' 0 i = i) /\
          forall j, j < 0 + (length n2 + 1) -> mget m' j 0 = j) as (Hd & Hr & Hc).
  { subst m'.
    apply (fold_left_seq_invariant _
             (fun k m => dims m (length n2 + 1) (length n1 + 1) /\
                         (forall i, i <= length n1 -> mget m 0 i = i) /\
                         forall j, j < k -> mget m j 0 = j)).
    - repeat split; [apply Hd0.. | exact Hrow | lia].
    - intros k y Hk (Hd & Hr & Hc). split; [apply dims_mset, Hd|]. split.
      + intros i Hi. destruct (decide ((0, i) = (k, 0))) as [[= <- ->]|Hne].
        * apply (mget_mset_eq _ _ _ _ _ _ Hd); lia.
        * rewrite mget_mset_ne by assumption. now apply Hr.
      + intros j Hj. destruct (decide (j = k)) as [->|Hne].
        * apply (mget_mset_eq _ _ _ _ _ _ Hd); lia.
        * rewrite mget_mset_ne by congruence. apply Hc. lia. }
  split; [exact Hd|].
  intros j i Hj Hi Hreg.
  assert (j = 0 \/ i = 0) as [->| ->] by lia.
  - rewrite Hr by assumption. symmetry. now apply prefixDistance_0_r.
  - rewrite Hc by lia. symmetry. now apply prefixDistance_0_l.
Qed.

Lemma levenshteinMatrix_cells n1 n2 :
  dims (levenshteinMatrix n1 n2) (length n2 + 1) (length n1 + 1) /\
  forall j i, j <= length n2 -> i <= length n1 ->
    mget (levenshteinMatrix n1 n2) j i = prefixDistance n1 n2 i j.
Proof.
  unfold levenshteinMatrix.
  destruct (first_row_loop n1 n2) as [Hd1 Hrow].
  destruct (first_column_loop n1 n2 _ Hd1 Hrow) as [Hd2 Hfill].
  cbv zeta in Hd2, Hfill.
  match goal with
  | |- dims (fold_left ?f _ ?m) _ _ /\ _ =>
      assert (dims (fold_left f (seq 1 (length n2)) m) (length n2 + 1) (length n1 + 1) /\
              filledUpTo n1 n2 (fold_left f (seq 1 (length n2)) m) (1 + length n2) 1)
        as [Hd Hf]
  end.
  { apply (fold_left_seq_invariant _
             (fun j m => dims m (length n2 + 1) (length n1 + 1) /\ filledUpTo n1 n2 m j 1)).
    - split; assumption.
    - intros j y Hj [Hd Hf]. apply inner_loop; [lia|assumption..]. }
  split; [exact Hd|].
  intros j i Hj Hi. apply Hf; [assumption..|]. lia.
Qed.

(** The cell the function reads is the Levenshtein distance. *)
Lemma levenshteinMatrix_lev n1 n2 :
  mget (levenshteinMatrix n1 n2) (length n2) (length n1) = lev (rev n1) (rev n2).
Proof.
  destruct (levenshteinMatrix_cells n1 n2) as [_ H].
  rewrite H by lia. apply prefixDistance_full.
Qed.

Lemma levenshteinMatrix_isEditDistance n1 n2 :
  isEditDistance n1 n2 (mget (levenshteinMatrix n1 n2) (length n2) (length n1)).
Proof. rewrite levenshteinMatrix_lev. apply isEditDistance_rev, lev_isEditDistance. Qed.

(** ** Normalization *)

Lemma lower_ascii_idempotent c : lower_ascii (lower_ascii c) = lower_ascii c.
Proof. destruct c as [[] [] [] [] [] [] [] []]; vm_compute; reflexivity. Qed.

Lemma trimStart_startsClean s : startsClean (trimStart s).
Proof.
  induction s as [|c s IH]; cbn [trimStart]; [exact I|].
  destruct (is_ws c) eqn:E; [exact IH | exact E].
Qed.

Lemma trimStart_snoc s c :
  is_ws c = false -> trimStart (s ++ [c]) = trimStart s ++ [c].
Proof.
  intros Hc. induction s as [|x s IH]; cbn [app trimStart].
  - now rewrite Hc.
  - destruct (is_ws x); [exact IH | reflexivity].
Qed.

Lemma trimStart_In c s : In c (trimStart s) -> In c s.
Proof.
  induction s as [|x s IH]; cbn [trimStart]; [easy|].
  destruct (is_ws x); [right; now apply IH | easy].
Qed.

Lemma trim_In c s : In c (trim s) -> In c s.
Proof.
  unfold trim, trimEnd. rewrite <- in_rev. intros H%trimStart_In.
  rewrite <- in_rev in H. now apply trimStart_In.
Qed.

Lemma trim_startsClean s : startsClean (trim s) /\ startsClean (rev (trim s)).
Proof.
  unfold trim, trimEnd. rewrite rev_involutive. split; [|apply trimStart_startsClean].
  pose proof (trimStart_startsClean s) as H.
  destruct (trimStart s) as [|c t]; [exact I|]. cbn [startsClean] in H.
  cbn [rev]. rewrite (trimStart_snoc _ _ H), rev_app_distr. exact H.
Qed.

Lemma replace_ws_snoc b s c :
  is_ws c = false -> replace_ws b (s ++ [c]) = replace_ws b s ++ [c].
Proof.
  intros Hc. revert b. induction s as [|x s IH]; intros b; cbn [app replace_ws].
  - now rewrite Hc.
  - destruct (is_ws x); [destruct b|]; now rewrite IH.
Qed.

Lemma replace_ws_startsClean s :
  startsClean (replace_ws true s) /\ (startsClean s -> startsClean (replace_ws false s)).
Proof.
  induction s as [|c s [IH _]]; [split; intros; exact I|].
  cbn [replace_ws startsClean]. destruct (is_ws c) eqn:E.
  - split; [exact IH | discriminate].
  - split; [exact E | intros _; exact E].
Qed.

Lemma replace_ws_singleSpaces b s : singleSpaces (replace_ws b s).
Proof.
  revert b. induction s as [|c s IH]; intros b; cbn [replace_ws]; [exact I|].
  destruct (is_ws c) eqn:E; [destruct b|]; cbn [singleSpaces].
  - apply IH.
  - split; [|apply IH]. intros _. split; [reflexivity|]. apply replace_ws_startsClean.
  - split; [|apply IH]. congruence.
Qed.

Lemma replace_ws_In b c s : In c (replace_ws b s) -> c = " "%char \/ In c s.
Proof.
  revert b. induction s as [|x s IH]; intros b; cbn [replace_ws]; [easy|].
  destruct (is_ws x); [destruct b|]; cbn [In].
  - intros H. destruct (IH _ H); auto.
  - intros [<-|H]; [auto|]. destruct (IH _ H); auto.
  - intros [<-|H]; [auto|]. destruct (IH _ H); auto.
Qed.

Lemma replace_ws_rev_startsClean s :
  startsClean (rev s) -> startsClean (rev (replace_ws false s)).
Proof.
  destruct (rev s) as [|c t] eqn:E.
  - apply (f_equal (@rev ascii)) in E. rewrite rev_involutive in E. now subst.
  - apply (f_equal (@rev ascii)) in E. rewrite rev_involutive in E. cbn [rev] in E.
    subst s. cbn [startsClean]. intros Hc.
    rewrite (replace_ws_snoc _ _ _ Hc), rev_app_distr. exact Hc.
Qed.

(** [normalize] yields a lower-case string without white space at
    either end and with single spaces between words. *)
Lemma normalize_normalForm str : normalForm (normalize str).
Proof.
  unfold normalize. set (l := toLowerCase (list_ascii_of_string str)).
  destruct (trim_startsClean l) as [Hs He].
  repeat split.
  - apply List.Forall_forall. intros c [->|Hin%trim_In]%replace_ws_In; [reflexivity|].
    unfold l, toLowerCase in Hin. apply in_map_iff in Hin as (x & <- & _).
    apply lower_ascii_idempotent.
  - now apply replace_ws_startsClean.
  - now apply replace_ws_rev_startsClean.
  - apply replace_ws_singleSpaces.
Qed.

Lemma trimStart_clean s : startsClean s -> trimStart s = s.
Proof. destruct s as [|c s]; [reflexivity|]. cbn. now intros ->. Qed.

Lemma replace_ws_singleSpaces_id s :
  singleSpaces s -> replace_ws false s = s /\ (startsClean s -> replace_ws true s = s).
Proof.
  induction s as [|c s IH]; [split; reflexivity|].
  cbn [singleSpaces replace_ws]. intros [Hc Hs]. destruct (IH Hs) as [IH1 IH2].
  destruct (is_ws c) eqn:E.
  - destruct (Hc eq_refl) as [-> Hclean]. split.
    + now rewrite (IH2 Hclean).
    + cbn [startsClean]. congruence.
  - split; [|intros _]; now rewrite IH1.
Qed.

Lemma toLowerCase_fixed l :
  Forall (fun c => lower_ascii c = c) l -> toLowerCase l = l.
Proof.
  unfold toLowerCase. induction 1 as [|c l Hc _ IH]; cbn [map]; [reflexivity|].
  now rewrite Hc, IH.
Qed.

(** A name already in normal form is left as it is. *)
Lemma normalize_fixes_normalForm str :
  normalForm (list_ascii_of_string str) -> normalize str = list_ascii_of_string str.
Proof.
  intros (Hl & Hs & He & Hsp). unfold normalize.
  rewrite (toLowerCase_fixed _ Hl). unfold trim, trimEnd.
  rewrite (trimStart_clean _ Hs), (trimStart_clean _ He), rev_involutive.
  now apply replace_ws_singleSpaces_id.
Qed.

(** ** Normalization against the specification's wording *)

Lemma is_ws_isWhiteSpace c : is_ws c = isWhiteSpace c.
Proof. destruct c as [[] [] [] [] [] [] [] []]; vm_compute; reflexivity. Qed.

Lemma lower_ascii_lowerCase c : lower_ascii c = lowerCase c.
Proof. destruct c as [[] [] [] [] [] [] [] []]; vm_compute; reflexivity. Qed.

Lemma toLowerCase_lowerCase s : toLowerCase s = map lowerCase s.
Proof. unfold toLowerCase. apply map_ext. intros c. apply lower_ascii_lowerCase. Qed.

Lemma pieces_not_nil s : pieces s <> [].
Proof.
  destruct s as [|c s]; cbn [pieces]; [discriminate|].
  destruct (isWhiteSpace c); [discriminate|]. destruct (pieces s); discriminate.
Qed.

Lemma nameWords_ws c s : is_ws c = true -> nameWords (c :: s) = nameWords s.
Proof.
  rewrite is_ws_isWhiteSpace. intros Hc. unfold nameWords. cbn [pieces]. now rewrite Hc.
Qed.

Lemma nameWords_trimStart s : nameWords (trimStart s) = nameWords s.
Proof.
  induction s as [|c s IH]; cbn [trimStart]; [reflexivity|].
  destruct (is_ws c) eqn:E; [|reflexivity]. now rewrite IH, nameWords_ws.
Qed.

Lemma pieces_snoc_ws s c : is_ws c = true -> pieces (s ++ [c]) = pieces s ++ [[]].
Proof.
  rewrite is_ws_isWhiteSpace. intros Hc.
  induction s as [|x s IH]; cbn [app pieces].
  - now rewrite Hc.
  - rewrite IH. destruct (isWhiteSpace x); [reflexivity|].
    pose proof (pieces_not_nil s). destruct (pieces s); [contradiction|reflexivity].
Qed.

Lemma nameWords_app_ws s h : Forall (fun c => is_ws c = true) h -> nameWords (s ++ h) = nameWords s.
Proof.
  induction h as [|c h IH] using rev_ind; intros Hh.
  - now rewrite app_nil_r.
  - apply Forall_app in Hh as [Hh Hc]. inversion Hc as [|? ? Hc' _]; subst.
    rewrite app_assoc. unfold nameWords in *. rewrite pieces_snoc_ws by exact Hc'.
    rewrite List.filter_app. cbn [List.filter isEmpty negb]. rewrite app_nil_r. now apply IH.
Qed.

Lemma trimStart_split s :
  exists h, Forall (fun c => is_ws c = true) h /\ s = h ++ trimStart s.
Proof.
  induction s as [|c s (h & Hh & E)]; cbn [trimStart].
  - exists []. split; [constructor|reflexivity].
  - destruct (is_ws c) eqn:Ec.
    + exists (c :: h). split; [now constructor|]. cbn [app]. now f_equal.
    + exists []. split; [constructor|reflexivity].
Qed.

Lemma nameWords_trim s : nameWords (trim s) = nameWords s.
Proof.
  unfold trim, trimEnd.
  destruct (trimStart_split (rev (trimStart s))) as (h & Hh & E).
  apply (f_equal (@rev ascii)) in E. rewrite rev_involutive, rev_app_distr in E.
  rewrite <- (nameWords_trimStart s). rewrite E at 2.
  symmetry. apply nameWords_app_ws. apply Forall_rev. exact Hh.
Qed.

Lemma joinWords_cons w ws :
  joinWords (w :: ws) = w ++ match ws with [] => [] | _ :: _ => " "%char :: joinWords ws end.
Proof. destruct ws; cbn [joinWords]; [now rewrite app_nil_r | reflexivity]. Qed.

Lemma nameWords_not_nil s c : In c s -> is_ws c = false -> nameWords s <> [].
Proof.
  rewrite is_ws_isWhiteSpace. intros Hin Hc.
  induction s as [|x s IH]; [destruct Hin|]. unfold nameWords in *. cbn [pieces].
  destruct (isWhiteSpace x) eqn:Ex.
  - cbn [List.filter isEmpty negb]. destruct Hin as [->|Hin]; [congruence | now apply IH].
  - destruct (pieces s); cbn [List.filter isEmpty negb]; discriminate.
Qed.

Lemma startsClean_rev_cons c s :
  startsClean (rev (c :: s)) ->
  startsClean (rev s) /\ (s = [] -> is_ws c = false) /\
  (s <> [] -> exists z, In z s /\ is_ws z = false).
Proof.
  cbn [rev]. destruct (rev s) as [|z t] eqn:E; cbn [app startsClean].
  - intros Hc. apply (f_equal (@rev ascii)) in E. rewrite rev_involutive in E. subst s.
    split; [exact I|]. split; [auto|]. now intros [].
  - intros Hz. split; [exact Hz|]. split.
    + intros ->. discriminate E.
    + intros _. exists z. split; [|exact Hz]. apply in_rev. rewrite E. now left.
Qed.

(** The words of a string that starts with a character that is not
    white space: the character joins the first word of the rest. *)
Lemma joinWords_cons_char c s :
  is_ws c = false -> startsClean (rev s) ->
  joinWords (nameWords (c :: s)) = c :: leadingSpace s ++ joinWords (nameWords s).
Proof.
  intros Hc Hs. pose proof Hc as Hc'. rewrite is_ws_isWhiteSpace in Hc'.
  unfold nameWords at 1. cbn [pieces]. rewrite Hc'.
  destruct s as [|d s]; [reflexivity|].
  cbn [leadingSpace pieces]. destruct (isWhiteSpace d) eqn:Ed.
  - cbn [List.filter isEmpty negb]. rewrite joinWords_cons.
    fold (nameWords s). rewrite nameWords_ws by now rewrite is_ws_isWhiteSpace.
    apply startsClean_rev_cons in Hs as (_ & H0 & Hz).
    destruct s as [|e s].
    { specialize (H0 eq_refl). rewrite is_ws_isWhiteSpace in H0. congruence. }
    destruct (Hz ltac:(discriminate)) as (z & Hin & Hzw).
    pose proof (nameWords_not_nil _ _ Hin Hzw) as Hne.
    destruct (nameWords (e :: s)); [contradiction|]. reflexivity.
  - unfold nameWords. cbn [pieces]. rewrite Ed.
    pose proof (pieces_not_nil s). destruct (pieces s) as [|w ws]; [contradiction|].
    cbn [List.filter isEmpty negb]. rewrite !joinWords_cons. reflexivity.
Qed.

Lemma replace_ws_joinWords s :
  startsClean (rev s) ->
  replace_ws false s = leadingSpace s ++ joinWords (nameWords s) /\
  replace_ws true s = joinWords (nameWords s).
Proof.
  induction s as [|c s IH]; intros Hs; [split; reflexivity|].
  pose proof (startsClean_rev_cons _ _ Hs) as (Hs' & H0 & _).
  specialize (IH Hs') as [IH1 IH2]. cbn [replace_ws leadingSpace].
  destruct (is_ws c) eqn:Ec.
  - rewrite <- is_ws_isWhiteSpace, Ec, nameWords_ws by exact Ec. rewrite IH2.
    split; reflexivity.
  - rewrite <- is_ws_isWhiteSpace, Ec. rewrite IH1.
    rewrite joinWords_cons_char by assumption. split; reflexivity.
Qed.

(** [normalize] is the normalization the specification words. *)
Lemma normalize_specNormalize str : normalize str = specNormalize str.
Proof.
  unfold normalize, specNormalize. rewrite toLowerCase_lowerCase.
  set (l := map lowerCase (list_ascii_of_string str)).
  destruct (trim_startsClean l) as [Hs He].
  destruct (replace_ws_joinWords (trim l) He) as [-> _].
  rewrite nameWords_trim.
  destruct (trim l) as [|c t]; [reflexivity|].
  cbn [startsClean] in Hs. cbn [leadingSpace]. now rewrite <- is_ws_isWhiteSpace, Hs.
Qed.

Example specNormalize_john_smith :
  specNormalize "  John   SMITH " = list_ascii_of_string "john smith".
Proof. vm_compute. reflexivity. Qed.

(** ** Name similarity *)

Lemma calculateNameSimilarity_unfold a b :
  calculateNameSimilarity a b =
  if decide (normalize a = normalize b) then 1%Q
  else ((Q_of_nat (Nat.max (length (normalize a)) (length (normalize b)))
         - Q_of_nat (lev (rev (normalize a)) (rev (normalize b))))
        / Q_of_nat (Nat.max (length (normalize a)) (length (normalize b))))%Q.
Proof.
  unfold calculateNameSimilarity. cbv zeta.
  destruct (decide (normalize a = normalize b)) as [|Hne]; [reflexivity|].
  rewrite levenshteinMatrix_lev.
  destruct (Nat.eqb_spec (Nat.max (length (normalize a)) (length (normalize b))) 0) as [E|];
    [|reflexivity].
  exfalso. apply Hne.
  destruct (normalize a), (normalize b); cbn [length] in E; solve [reflexivity | lia].
Qed.

(** C2.  [calculateNameSimilarity] normalizes both names as the
    specification words it (every capital letter lowered, white space
    removed at both ends, every run of white space inside collapsed to
    one space) and returns 1 when the normalized names are equal, in
    particular when both are empty; otherwise it returns
    [(maxLen - d) / maxLen], where [d] is the unit-cost Levenshtein
    distance of the normalized names and [maxLen] the larger of their
    lengths; as a binary64 number it is that one quotient of two
    integers, rounded once.  For "kitten" and "sitting" the result is
    4/7; names that differ in case and spacing only score 1. *)
Theorem calculateNameSimilarity_levenshtein (a b : string) :
  normalize a = specNormalize a /\ normalize b = specNormalize b /\
  normalForm (normalize a) /\ normalForm (normalize b) /\
  (exists d : nat,
     isEditDistance (specNormalize a) (specNormalize b) d /\
     calculateNameSimilarity a b =
     (if decide (specNormalize a = specNormalize b) then 1%Q
      else let maxLen := Nat.max (length (specNormalize a)) (length (specNormalize b)) in
           ((Q_of_nat maxLen - Q_of_nat d) / Q_of_nat maxLen)%Q) /\
     Binary64.calculateNameSimilarity a b =
     (if decide (specNormalize a = specNormalize b) then 1%float
      else let maxLen := Nat.max (length (specNormalize a)) (length (specNormalize b)) in
           (Binary64.ofNat (maxLen - d) / Binary64.ofNat maxLen)%float)) /\
  (calculateNameSimilarity "" "" = 1%Q) /\
  (calculateNameSimilarity "kitten" "sitting" == 4 # 7)%Q /\
  (calculateNameSimilarity "John Smith" "john   smith" = 1%Q) /\
  (calculateNameSimilarity "  Ann Lee " "Ann Lee" = 1%Q).
Proof.
  split; [apply normalize_specNormalize|]. split; [apply normalize_specNormalize|].
  split; [apply normalize_normalForm|]. split; [apply normalize_normalForm|].
  split; [|repeat split; vm_compute; reflexivity].
  rewrite <- !normalize_specNormalize.
  exists (lev (rev (normalize a)) (rev (normalize b))). split; [|split].
  - apply isEditDistance_rev, lev_isEditDistance.
  - apply calculateNameSimilarity_unfold.
  - unfold Binary64.calculateNameSimilarity. cbv zeta.
    destruct (decide (normalize a = normalize b)) as [|Hne]; [reflexivity|].
    rewrite levenshteinMatrix_lev.
    destruct (Nat.eqb_spec (Nat.max (length (normalize a)) (length (normalize b))) 0)
      as [E|]; [|reflexivity].
    exfalso. apply Hne.
    destruct (normalize a), (normalize b); cbn [length] in E; solve [reflexivity | lia].
Qed.

Example john_smith_case_and_spacing :
  calculateNameSimilarity "John Smith" "john   smith" = 1%Q.
Proof. vm_compute. reflexivity. Qed.

(** C9.  Name similarity is symmetric. *)
Theorem calculateNameSimilarity_symmetric (a b : string) :
  calculateNameSimilarity a b = calculateNameSimilarity b a.
Proof.
  rewrite !calculateNameSimilarity_unfold.
  destruct (decide (normalize a = normalize b)), (decide (normalize b = normalize a));
    try congruence.
  now rewrite lev_sym, Nat.max_comm.
Qed.

Lemma Q_of_nat_nonneg n : (0 <= Q_of_nat n)%Q.
Proof. unfold Q_of_nat, Qle. cbn. lia. Qed.

Lemma Q_of_nat_le n m : n <= m -> (Q_of_nat n <= Q_of_nat m)%Q.
Proof. intros H. unfold Q_of_nat. rewrite <- Zle_Qle. lia. Qed.

Lemma Q_of_nat_pos n : 0 < n -> (0 < Q_of_nat n)%Q.
Proof. intros H. unfold Q_of_nat, Qlt. cbn. lia. Qed.

Lemma ratio_bounds (d n : nat) :
  d <= n -> 0 < n -> (0 <= (Q_of_nat n - Q_of_nat d) / Q_of_nat n <= 1)%Q.
Proof.
  intros Hd Hn. pose proof (Q_of_nat_le _ _ Hd). pose proof (Q_of_nat_pos _ Hn).
  pose proof (Q_of_nat_nonneg d). split.
  - apply Qle_shift_div_l; [assumption|]. lra.
  - apply Qle_shift_div_r; [assumption|]. lra.
Qed.

Lemma calculateNameSimilarity_bounds a b : (0 <= calculateNameSimilarity a b <= 1)%Q.
Proof.
  rewrite calculateNameSimilarity_unfold.
  destruct (decide (normalize a = normalize b)) as [|Hne]; [lra|].
  apply ratio_bounds.
  - pose proof (lev_le_max (rev (normalize a)) (rev (normalize b))) as H.
    now rewrite !length_rev in H.
  - destruct (normalize a), (normalize b); cbn [length]; try lia. congruence.
Qed.


(** ** Overall score *)

Lemma countryField_loop s p keys :
  forall sc cnt,
    fold_left (countryFieldStep s p) keys (sc, cnt) =
    (sc + equalCount (commonKeys keys s p) s p, cnt + length (commonKeys keys s p)).
Proof.
  unfold equalCount, commonKeys.
  induction keys as [|k keys IH]; intros sc cnt.
  - cbn. f_equal; lia.
  - cbn [fold_left List.filter]. unfold countryFieldStep at 2.
    destruct (truthy_str (getField s k) && truthy_str (getField p k)).
    + rewrite IH. cbn [List.filter length].
      destruct (decide (getField s k = getField p k)) as [E|E].
      * rewrite (bool_decide_eq_true_2 _ E). cbn [length]. f_equal; lia.
      * rewrite (bool_decide_eq_false_2 _ E). f_equal; lia.
    + apply IH.
Qed.



Lemma Qgtb_spec a b : Qgtb a b = true <-> (b < a)%Q.
Proof.
  unfold Qgtb. rewrite negb_true_iff. split.
  - intros H. apply Qnot_le_lt. intros Hle. apply Qle_bool_iff in Hle. congruence.
  - intros H. destruct (Qle_bool a b) eqn:E; [|reflexivity].
    apply Qle_bool_iff in E. lra.
Qed.

Lemma Qgtb_false a b : Qgtb a b = false <-> (a <= b)%Q.
Proof.
  unfold Qgtb. rewrite negb_false_iff. apply Qle_bool_iff.
Qed.

Lemma Qgtb_Qeq a a' b : (a == a')%Q -> Qgtb a b = Qgtb a' b.
Proof.
  intros E. destruct (Qgtb a' b) eqn:H.
  - apply Qgtb_spec. apply Qgtb_spec in H. lra.
  - apply Qgtb_false. apply Qgtb_false in H. lra.
Qed.

(** The accumulators of the code are the two sums of the renormalized
    formula, taken over the five keys of [fields]. *)
Lemma accumulators_spec q c :
  let comps := [ (4 # 10, nameComponent q c); (2 # 10, ageComponent q c);
                 (1 # 10, countryComponent q c);
                 (3 # 10, identifierComponent fields q c) ] in
  let acc := addCountryFields q c (addCountry q c (addAge q c (addName q c (0%Q, 0%Q)))) in
  (fst acc == weightedSum comps)%Q /\ (snd acc == includedWeight comps)%Q.
Proof.
  cbv zeta.
  unfold addName, nameComponent, addAge, ageComponent, addCountry, countryComponent,
    addCountryFields, identifierComponent, weightedSum, includedWeight.
  destruct (p_name q) as [n|];
    [destruct (truthy_str (Some n)) | cbn [truthy_str]];
    cbn [orEmpty];
    (destruct (p_age q) as [a|]);
    (destruct (p_country q) as [k|]);
    (destruct (p_countryData q) as [s|]; [destruct (countryData c) as [p|]|]);
    cbn [fold_right fst snd];
    try (rewrite (countryField_loop s p fields 0 0); cbn [Nat.add];
         destruct (commonKeys fields s p) as [|k0 common] eqn:E;
         [cbn [length Nat.ltb Nat.leb] | cbn [length]; rewrite (proj2 (Nat.ltb_lt 0 _)) by lia];
         cbn [fold_right fst snd]);
    split; ring.
Qed.

Lemma calculateOverallMatchScore_spec q c :
  (calculateOverallMatchScore q c == specOverallScore fields q c)%Q.
Proof.
  unfold calculateOverallMatchScore, specOverallScore, renormalized.
  pose proof (accumulators_spec q c) as [Hs Hw]. cbv zeta in Hs, Hw.
  destruct (addCountryFields q c _) as [score totalWeight]. cbn [fst snd] in Hs, Hw.
  rewrite (Qgtb_Qeq _ _ 0 Hw).
  destruct (Qgtb _ 0); [|reflexivity].
  now rewrite Hs, Hw.
Qed.

Lemma identifierComponent_None keys q c :
  identifierComponent keys q c = None <->
  ~ exists k s p,
      In k keys /\ p_countryData q = Some s /\ countryData c = Some p /\
      truthy_str (getField s k) = true /\ truthy_str (getField p k) = true.
Proof.
  unfold identifierComponent. split.
  - intros H (k & s & p & Hk & Hs & Hp & H1 & H2). rewrite Hs, Hp in H.
    assert (In k (commonKeys keys s p)) as Hin.
    { apply List.filter_In. split; [exact Hk|]. now rewrite H1, H2. }
    destruct (commonKeys keys s p); [destruct Hin | discriminate].
  - intros H. destruct (p_countryData q) as [s|]; [|reflexivity].
    destruct (countryData c) as [p|]; [|reflexivity].
    destruct (commonKeys keys s p) as [|k common] eqn:E; [reflexivity|].
    exfalso. apply H. exists k, s, p.
    assert (In k (commonKeys keys s p)) as Hin by (rewrite E; now left).
    apply List.filter_In in Hin as [Hk Hb]. apply andb_true_iff in Hb as [H1 H2].
    repeat split; assumption.
Qed.

(** C3, as the code has it.  The identifier component (weight 0.3) is
    the average of exact string equality over those of the five keys
    nhsNumber, mrn, hospitalUidAadhaar, ssn and
    healthInsurancePolicyNumber that carry a non-empty value on both
    sides, and it is left out of the renormalized sum exactly when none
    of these five keys does. *)
Theorem overallScore_identifiers_over_fields (q : PartialPatient) (c : PatientDocument) :
  (calculateOverallMatchScore q c == specOverallScore fields q c)%Q /\
  (identifierComponent fields q c = None <->
   ~ exists k s p,
       In k fields /\ p_countryData q = Some s /\ countryData c = Some p /\
       truthy_str (getField s k) = true /\ truthy_str (getField p k) = true).
Proof.
  split; [apply calculateOverallMatchScore_spec | apply identifierComponent_None].
Qed.

(** C3 as stated fails: a query and a candidate that both carry Japan's
    hospitalPatientID "JP-001" (and whose names differ in every
    character) score 0, the identifier component being left out, where
    the average over every key present on both sides gives 3/7. *)
Lemma japan_identifier_not_scored :
  hospitalPatientID (japanData "JP-001") = Some "JP-001"%string /\
  p_countryData satoQuery = Some (japanData "JP-001") /\
  countryData mori = Some (japanData "JP-001") /\
  identifierComponent countryDataKeys satoQuery mori = Some (1 / 1)%Q /\
  (specOverallScore countryDataKeys satoQuery mori == 3 # 7)%Q /\
  (calculateOverallMatchScore satoQuery mori == 0)%Q /\
  ~ (calculateOverallMatchScore satoQuery mori == specOverallScore countryDataKeys satoQuery mori)%Q.
Proof.
  repeat split; try reflexivity.
  vm_compute. discriminate.
Qed.

(** ** Bounds of the overall score *)













(** ** Validation *)

Lemma ruleErrors_nil cd r : ruleErrors cd r = [] <-> ruleMet cd r.
Proof.
  unfold ruleErrors, ruleMet.
  destruct (getField cd (ruleKey r)) as [v|].
  - destruct (truthy_str (Some v)).
    + destruct (formatRule r) as [[test msg]|]; [|tauto].
      destruct (test v); split; intros; congruence.
    + destruct (requiredMessage r); cbn; split; intros; congruence.
  - destruct (requiredMessage r); cbn; split; intros; congruence.
Qed.

Lemma flat_map_ruleErrors_nil cd rules :
  flat_map (ruleErrors cd) rules = [] <-> Forall (ruleMet cd) rules.
Proof.
  induction rules as [|r rules IH]; cbn [flat_map].
  - split; [constructor | reflexivity].
  - split.
    + intros [H1 H2]%app_eq_nil. constructor; [now apply ruleErrors_nil | now apply IH].
    + intros H. inversion H as [|? ? H1 H2]; subst.
      apply ruleErrors_nil in H1. apply IH in H2. now rewrite H1, H2.
Qed.

Lemma specValidate_nil data : specValidate data = [] <-> compliant data.
Proof.
  unfold specValidate, compliant, topLevelErrors. split.
  - intros [[H1 H2]%app_eq_nil H3]%app_eq_nil.
    destruct (truthy_str (p_name data)); [|discriminate].
    destruct (truthy_num (p_age data)); [|discriminate].
    repeat split. destruct (p_country data); [|exact I].
    now apply flat_map_ruleErrors_nil.
  - intros (-> & -> & H). cbn [app].
    destruct (p_country data); [|reflexivity].
    now apply flat_map_ruleErrors_nil.
Qed.

Lemma validate_specValidate data c cd :
  p_country data = Some c -> p_countryData data = Some cd ->
  validateCountrySpecificFields data [] = specValidate data.
Proof.
  intros Hc Hcd. unfold validateCountrySpecificFields, specValidate, topLevelErrors.
  rewrite Hc, Hcd. unfold pushIf, ruleErrors.
  destruct c; cbn [ruleTable flat_map ruleKey requiredMessage formatRule getField String.eqb
                   Ascii.eqb Bool.eqb option_list];
    destruct (truthy_str (p_name data)), (truthy_num (p_age data)); cbn [negb app].
  all: try (destruct (nhsNumber cd) as [v|];
            [destruct (truthy_str (Some v)); [destruct (test_nhsNumber v)|]|];
            reflexivity).
  all: try (destruct (mrn cd) as [m|]; [destruct (truthy_str (Some m))|];
            (destruct (ssn cd) as [v|];
             [destruct (truthy_str (Some v)); [destruct (test_ssn v)|]|]);
            reflexivity).
  all: try (destruct (hospitalUidAadhaar cd) as [v|]; [destruct (truthy_str (Some v))|];
            reflexivity).
  all: try (destruct (hospitalPatientID cd) as [v|]; [destruct (truthy_str (Some v))|];
            reflexivity).
Qed.

(** C4, as the code has it.  For every record that carries a country
    and a countryData object, validation returns one message per
    missing (absent, empty or zero) required field, name and age first
    and then the country's required identifier, and one per identifier
    value failing its format, in rule-table order; the list is empty
    exactly when the record is compliant; and a UK record with name and
    age whose countryData lacks the NHS number yields exactly the one
    error naming that field. *)
Theorem validate_rule_table (data : PartialPatient) (c : Country) (cd : CountryData) :
  p_country data = Some c -> p_countryData data = Some cd ->
  validateCountrySpecificFields data [] = specValidate data /\
  (validateCountrySpecificFields data [] = [] <-> compliant data) /\
  (c = UK -> truthy_str (p_name data) = true -> truthy_num (p_age data) = true ->
   nhsNumber cd = None ->
   validateCountrySpecificFields data [] = ["NHS Number is required"%string]).
Proof.
  intros Hc Hcd. pose proof (validate_specValidate data c cd Hc Hcd) as E.
  split; [exact E|]. split.
  - rewrite E. apply specValidate_nil.
  - intros -> Hn Ha Hnhs. unfold validateCountrySpecificFields.
    rewrite Hc, Hcd, Hn, Ha, Hnhs. reflexivity.
Qed.

Lemma validate_rule_table_witness :
  validateCountrySpecificFields annMissingNhs [] = specValidate annMissingNhs /\
  (validateCountrySpecificFields annMissingNhs [] = [] <-> compliant annMissingNhs) /\
  validateCountrySpecificFields annMissingNhs [] = ["NHS Number is required"%string].
Proof.
  destruct (validate_rule_table annMissingNhs UK emptyCountryData eq_refl eq_refl)
    as (H1 & H2 & H3).
  split; [exact H1|]. split; [exact H2|].
  exact (H3 eq_refl eq_refl eq_refl eq_refl).
Defined.

(** C4 as stated fails: a UK record with no countryData object gets no
    error at all, whether it misses name, age and NHS number or the NHS
    number only. *)
Lemma validate_silent_without_countryData :
  validateCountrySpecificFields ukOnly [] = [] /\
  specValidate ukOnly =
    ["Name is required"; "Age is required"; "NHS Number is required"]%string /\
  ~ compliant ukOnly /\
  validateCountrySpecificFields annNoData [] = [] /\
  specValidate annNoData = ["NHS Number is required"%string] /\
  ~ compliant annNoData.
Proof.
  repeat split; try reflexivity.
  - intros (H & _). discriminate H.
  - intros (_ & _ & H). cbn in H. inversion H as [|? ? H1 _]. discriminate H1.
Qed.

(** C10.  When the record has no country or no countryData object,
    validation returns no error, whichever required fields are missing. *)
Theorem validate_skipped (data : PartialPatient) :
  p_country data = None \/ p_countryData data = None ->
  validateCountrySpecificFields data [] = [].
Proof.
  intros [H|H]; unfold validateCountrySpecificFields; rewrite H;
    [reflexivity | destruct (p_country data); reflexivity].
Qed.

Lemma validate_skipped_witness :
  (p_country ukOnly = None \/ p_countryData ukOnly = None) /\
  truthy_str (p_name ukOnly) = false /\ truthy_num (p_age ukOnly) = false /\
  validateCountrySpecificFields ukOnly [] = [].
Proof.
  split; [right; reflexivity|].
  split; [reflexivity|]. split; [reflexivity|].
  apply (validate_skipped ukOnly). right. reflexivity.
Defined.

(** ** Exact lookup *)

Lemma truthy_str_Some s : truthy_str (Some s) = true <-> s <> ""%string.
Proof.
  cbn. rewrite negb_true_iff. destruct (String.eqb_spec s ""); split; congruence.
Qed.

Lemma truthy_num_Some a : truthy_num (Some a) = true <-> ~ (a == 0)%Q.
Proof.
  cbn. rewrite negb_true_iff, <- not_true_iff_false, Qeq_bool_iff. reflexivity.
Qed.

Lemma in_pushClause v f qs clause :
  In clause (pushClause v f qs) <->
  In clause qs \/ exists s, v = Some s /\ s <> ""%string /\ clause = [CountryDataIs f s].
Proof.
  unfold pushClause. destruct v as [s|].
  - destruct (truthy_str (Some s)) eqn:E.
    + rewrite in_app_iff. cbn [In]. apply truthy_str_Some in E. split.
      * intros [H|[<-|[]]]; [now left | right; eauto].
      * intros [H|(s' & [= <-] & _ & ->)]; [now left | right; now left].
    + split; [now left|]. intros [H|(s' & [= <-] & Hs & _)]; [exact H|].
      apply truthy_str_Some in Hs. congruence.
  - split; [now left|]. intros [H|(s' & [=] & _)]. exact H.
Qed.

Lemma in_pushUniqueIdentifiers r qs clause :
  In clause (pushUniqueIdentifiers r qs) <->
  In clause qs \/
  exists k v, In k uniqueFields /\ carries r k v /\ clause = [CountryDataIs k v].
Proof.
  unfold pushUniqueIdentifiers, carries. destruct (p_countryData r) as [cd|].
  - rewrite !in_pushClause. split.
    + intros [[[[H|H]|H]|H]|H]; [now left|..]; destruct H as (s & Hs & Hne & ->); right.
      * exists "nhsNumber"%string, s. cbn. eauto 10.
      * exists "mrn"%string, s. cbn. eauto 10.
      * exists "hospitalUidAadhaar"%string, s. cbn. eauto 10.
      * exists "ssn"%string, s. cbn. eauto 10.
    + intros [H|(k & v & Hk & (cd' & [= <-] & Hget & Hne) & ->)]; [tauto|].
      cbn in Hk. destruct Hk as [<-|[<-|[<-|[<-|[]]]]]; cbn in Hget; eauto 10.
  - split; [now left|]. intros [H|(k & v & _ & (cd & [=] & _) & _)]. exact H.
Qed.

Lemma in_setField v f conds c :
  In c (setField v f conds) <->
  In c conds \/ exists s, v = Some s /\ s <> ""%string /\ c = CountryDataIs f s.
Proof.
  unfold setField. destruct v as [s|].
  - destruct (truthy_str (Some s)) eqn:E.
    + rewrite in_app_iff. cbn [In]. apply truthy_str_Some in E. split.
      * intros [H|[<-|[]]]; [now left | right; eauto].
      * intros [H|(s' & [= <-] & _ & ->)]; [now left | right; now left].
    + split; [now left|]. intros [H|(s' & [= <-] & Hs & _)]; [exact H|].
      apply truthy_str_Some in Hs. congruence.
  - split; [now left|]. intros [H|(s' & [=] & _)]. exact H.
Qed.

Lemma in_setCountrySpecific r conds c :
  In c (setCountrySpecific r conds) <->
  In c conds \/
  exists k v, In k exactFields /\ carries r k v /\ c = CountryDataIs k v.
Proof.
  unfold setCountrySpecific, carries. destruct (p_countryData r) as [cd|].
  - rewrite !in_setField. split.
    + intros [[[H|H]|H]|H]; [now left|..]; destruct H as (s & Hs & Hne & ->); right.
      * exists "nhsNumber"%string, s. cbn. eauto 10.
      * exists "mrn"%string, s. cbn. eauto 10.
      * exists "hospitalUidAadhaar"%string, s. cbn. eauto 10.
    + intros [H|(k & v & Hk & (cd' & [= <-] & Hget & Hne) & ->)]; [tauto|].
      cbn in Hk. destruct Hk as [<-|[<-|[<-|[]]]]; cbn in Hget; eauto 10.
  - split; [now left|]. intros [H|(k & v & _ & (cd & [=] & _) & _)]. exact H.
Qed.

Lemma in_setAgeCountry r conds c :
  In c (setAgeCountry r conds) <->
  In c conds \/
  (exists a, p_age r = Some a /\ ~ (a == 0)%Q /\ c = AgeIs a) \/
  (exists k, p_country r = Some k /\ c = CountryIs k).
Proof.
  unfold setAgeCountry.
  match goal with
  | |- context [match p_country r with Some _ => ?l ++ _ | None => _ end] =>
      set (withAge := l)
  end.
  assert (In c withAge <->
          In c conds \/ exists a, p_age r = Some a /\ ~ (a == 0)%Q /\ c = AgeIs a) as Hage.
  { subst withAge. destruct (p_age r) as [a|].
    - destruct (truthy_num (Some a)) eqn:Ha.
      + apply truthy_num_Some in Ha. rewrite in_app_iff. cbn [In]. split.
        * intros [H|[<-|[]]]; eauto.
        * intros [H|(a' & [= <-] & _ & ->)]; auto.
      + split; [auto|]. intros [H|(a' & [= <-] & Hz & _)]; [exact H|].
        apply truthy_num_Some in Hz. congruence.
    - split; [auto|]. intros [H|(a' & [=] & _)]. exact H. }
  destruct (p_country r) as [k|].
  - rewrite in_app_iff, Hage. cbn [In]. split.
    + intros [[H|H]|[<-|[]]]; eauto.
    + intros [H|[H|(k' & [= <-] & ->)]]; auto.
  - rewrite Hage. split.
    + intros [H|H]; auto.
    + intros [H|[H|(k' & [=] & _)]]; auto.
Qed.

Lemma in_nameCond r c :
  In c (nameCond r) <-> exists n, p_name r = Some n /\ n <> ""%string /\ c = NameRegExp n.
Proof.
  unfold nameCond. destruct (p_name r) as [n|].
  - destruct (truthy_str (Some n)) eqn:Hn; cbn [In]; split.
    + intros [<-|[]]. apply truthy_str_Some in Hn. eauto.
    + intros (n' & [= <-] & _ & ->). now left.
    + intros [].
    + intros (n' & [= <-] & Hne & _). apply truthy_str_Some in Hne. congruence.
  - split; [intros [] | now intros (n & [=] & _)].
Qed.

Lemma exactConds_nonempty r : carriesExactField r -> exactConds r <> [].
Proof.
  intros Hc Hnil.
  assert (forall c, ~ In c (exactConds r)) as Hno by (intros c; rewrite Hnil; intros []).
  unfold exactConds in Hno.
  destruct Hc as [Hn|[Ha|[Hc|(k & v & Hk & Hc)]]].
  - destruct (p_name r) as [n|] eqn:En; [|discriminate]. apply truthy_str_Some in Hn.
    apply (Hno (NameRegExp n)). apply in_setCountrySpecific. left.
    apply in_setAgeCountry. left. apply in_nameCond. eauto.
  - destruct (p_age r) as [a|] eqn:Ea; [|discriminate]. apply truthy_num_Some in Ha.
    apply (Hno (AgeIs a)). apply in_setCountrySpecific. left.
    apply in_setAgeCountry. right. left. eauto.
  - destruct (p_country r) as [c|] eqn:Ec; [|discriminate].
    apply (Hno (CountryIs c)). apply in_setCountrySpecific. left.
    apply in_setAgeCountry. right. right. eauto.
  - apply (Hno (CountryDataIs k v)). apply in_setCountrySpecific. right. eauto.
Qed.

Section StoreProperties.

Variable db : list PatientDocument.
Variable RegExp_i : string -> option (string -> bool).
Variable textFind :
  list PatientDocument -> string -> option Country -> list nat -> list PatientDocument.

Lemma pushNameAgeCountry_valid r qs tr :
  validName RegExp_i r ->
  pushNameAgeCountry RegExp_i r qs tr = (Returned (qs ++ nameAgeCountryClause r), tr).
Proof.
  intros Hvalid. unfold pushNameAgeCountry, nameAgeCountryClause.
  destruct (p_name r) as [n|] eqn:En; [|now rewrite app_nil_r].
  destruct (p_age r) as [a|]; [|now rewrite app_nil_r].
  destruct (p_country r) as [c|]; [|now rewrite app_nil_r].
  destruct (truthy_str (Some n)) eqn:Hn; [|now rewrite app_nil_r].
  destruct (truthy_num (Some a)); [|now rewrite app_nil_r].
  cbn [andb]. apply truthy_str_Some in Hn.
  destruct (Hvalid n En Hn) as [test Htest].
  unfold bind, newRegExp. now rewrite Htest.
Qed.

Lemma pushNameAgeCountry_inv r qs tr out tr' :
  pushNameAgeCountry RegExp_i r qs tr = (out, tr') ->
  tr' = tr /\
  (out = Returned (qs ++ nameAgeCountryClause r) \/
   out = Thrown "SyntaxError" /\ hasNameAgeCountry r).
Proof.
  unfold pushNameAgeCountry, nameAgeCountryClause, hasNameAgeCountry.
  destruct (p_name r) as [n|]; [|rewrite app_nil_r; intros [= <- <-]; auto].
  destruct (p_age r) as [a|]; [|rewrite app_nil_r; intros [= <- <-]; auto].
  destruct (p_country r) as [c|]; [|rewrite app_nil_r; intros [= <- <-]; auto].
  destruct (truthy_str (Some n)); [|rewrite app_nil_r; intros [= <- <-]; auto].
  destruct (truthy_num (Some a)); [|rewrite app_nil_r; intros [= <- <-]; auto].
  cbn [andb]. unfold bind, newRegExp.
  destruct (RegExp_i n); intros [= <- <-]; [auto|].
  split; [reflexivity|]. right. repeat split.
Qed.

(** [findDuplicates] returns whenever the name is a well-formed regular
    expression: the empty list without a query when it built no
    clause, the answer to the disjunction of its clauses otherwise. *)
Lemma findDuplicates_returns r tr :
  validName RegExp_i r ->
  findDuplicates db RegExp_i textFind r tr =
  if length (duplicateClauses r) =? 0 then (Returned [], tr)
  else (Returned (answer db RegExp_i textFind (Or (duplicateClauses r))),
        tr ++ [Or (duplicateClauses r)]).
Proof.
  intros Hvalid. unfold findDuplicates, bind at 1.
  rewrite (pushNameAgeCountry_valid _ _ _ Hvalid). fold (duplicateClauses r).
  destruct (length (duplicateClauses r) =? 0); reflexivity.
Qed.

Lemma findDuplicates_inv r tr out tr' :
  findDuplicates db RegExp_i textFind r tr = (out, tr') ->
  (out = Thrown "SyntaxError" /\ tr' = tr /\ hasNameAgeCountry r) \/
  (out = Returned [] /\ tr' = tr /\ duplicateClauses r = []) \/
  (out = Returned (answer db RegExp_i textFind (Or (duplicateClauses r))) /\
   tr' = tr ++ [Or (duplicateClauses r)] /\ duplicateClauses r <> []).
Proof.
  unfold findDuplicates, bind at 1.
  destruct (pushNameAgeCountry RegExp_i r _ tr) as [o t] eqn:E.
  apply pushNameAgeCountry_inv in E as [-> [->|[-> Hall]]].
  - fold (duplicateClauses r).
    destruct (duplicateClauses r) as [|cl cls] eqn:Ecl; cbn [length Nat.eqb].
    + intros [= <- <-]. right; left. auto.
    + intros [= <- <-]. right; right. repeat split. discriminate.
  - intros [= <- <-]. left. auto.
Qed.

Lemma zeroQualifying_no_clause r : zeroQualifying r -> duplicateClauses r = [].
Proof.
  intros [Hid Hnac]. unfold duplicateClauses.
  assert (pushUniqueIdentifiers r [] = []) as ->.
  { destruct (pushUniqueIdentifiers r []) as [|cl cls] eqn:E; [reflexivity|].
    assert (In cl (pushUniqueIdentifiers r [])) as Hin by (rewrite E; now left).
    apply in_pushUniqueIdentifiers in Hin as [[]|(k & v & Hk & Hc & _)].
    destruct (Hid k v Hk Hc). }
  unfold nameAgeCountryClause, hasNameAgeCountry in *.
  destruct (p_name r) as [n|]; [|reflexivity].
  destruct (p_age r) as [a|]; [|reflexivity].
  destruct (p_country r) as [c|]; [|reflexivity].
  destruct (truthy_str (Some n)); [|reflexivity].
  destruct (truthy_num (Some a)); [|reflexivity].
  exfalso. apply Hnac. auto.
Qed.

Lemma zeroQualifying_validName r : zeroQualifying r -> duplicateClauses r = [] ->
  pushNameAgeCountry RegExp_i r [] = ret [].
Proof.
  intros [_ Hnac] _. unfold pushNameAgeCountry, hasNameAgeCountry in *.
  destruct (p_name r) as [n|]; [|reflexivity].
  destruct (p_age r) as [a|]; [|reflexivity].
  destruct (p_country r) as [c|]; [|reflexivity].
  destruct (truthy_str (Some n)); [|reflexivity].
  destruct (truthy_num (Some a)); [|reflexivity].
  exfalso. apply Hnac. auto.
Qed.

Lemma findDuplicates_zeroQualifying r tr :
  zeroQualifying r -> findDuplicates db RegExp_i textFind r tr = (Returned [], tr).
Proof.
  intros Hz. pose proof (zeroQualifying_no_clause r Hz) as Hcl.
  unfold duplicateClauses in Hcl. apply app_eq_nil in Hcl as [Hid _].
  unfold findDuplicates, bind at 1. rewrite Hid.
  rewrite (zeroQualifying_validName r Hz (zeroQualifying_no_clause r Hz)).
  reflexivity.
Qed.

Lemma in_answer_Or d qs :
  In d (answer db RegExp_i textFind (Or qs)) <->
  In d db /\ exists clause, In clause qs /\ forallb (matchesCond RegExp_i d) clause = true.
Proof.
  cbn [answer]. rewrite List.filter_In, existsb_exists. reflexivity.
Qed.

Lemma in_answer_Filter d conds :
  In d (answer db RegExp_i textFind (Filter conds)) <->
  In d db /\ forall c, In c conds -> matchesCond RegExp_i d c = true.
Proof.
  cbn [answer]. rewrite List.filter_In, forallb_forall. reflexivity.
Qed.

Lemma matchesCond_CountryDataIs d k v :
  matchesCond RegExp_i d (CountryDataIs k v) = true <-> holds d k v.
Proof.
  unfold matchesCond, holds. destruct (countryData d) as [cd|].
  - rewrite bool_decide_eq_true. split; [eauto|]. now intros (cd' & [= <-] & H).
  - split; [discriminate|]. now intros (cd' & [=] & _).
Qed.

Lemma matchesCond_NameRegExp d n :
  matchesCond RegExp_i d (NameRegExp n) = true <-> nameMatches RegExp_i n d.
Proof.
  unfold matchesCond, nameMatches. destruct (RegExp_i n) as [test|].
  - split; [eauto|]. now intros (t & [= <-] & H).
  - split; [discriminate|]. now intros (t & [=] & _).
Qed.

Lemma matchesCond_AgeIs d a :
  matchesCond RegExp_i d (AgeIs a) = true <-> (age d == a)%Q.
Proof. apply Qeq_bool_iff. Qed.

Lemma matchesCond_CountryIs d c :
  matchesCond RegExp_i d (CountryIs c) = true <-> country d = c.
Proof. apply bool_decide_eq_true. Qed.

Lemma meets_duplicateClause r d :
  (exists clause, In clause (duplicateClauses r) /\
                  forallb (matchesCond RegExp_i d) clause = true) <->
  sharesIdentifier uniqueFields r d \/ nameAgeCountryMatch RegExp_i r d.
Proof.
  unfold duplicateClauses, sharesIdentifier, nameAgeCountryMatch. split.
  - intros (clause & Hin & Hm). apply in_app_iff in Hin as [Hin|Hin].
    + apply in_pushUniqueIdentifiers in Hin as [[]|(k & v & Hk & Hc & ->)].
      left. exists k, v. repeat split; [assumption..|].
      cbn [forallb] in Hm. rewrite andb_true_r in Hm.
      now apply matchesCond_CountryDataIs.
    + right. unfold nameAgeCountryClause in Hin.
      destruct (p_name r) as [n|]; [|destruct Hin].
      destruct (p_age r) as [a|]; [|destruct Hin].
      destruct (p_country r) as [c|]; [|destruct Hin].
      destruct (truthy_str (Some n)) eqn:Hn; [|destruct Hin].
      destruct (truthy_num (Some a)) eqn:Ha; [|destruct Hin].
      destruct Hin as [<-|[]]. cbn [forallb] in Hm.
      apply andb_true_iff in Hm as [H1 Hm]. apply andb_true_iff in Hm as [H2 Hm].
      apply andb_true_iff in Hm as [H3 _].
      exists n, a, c. repeat split.
      * now apply truthy_str_Some.
      * now apply truthy_num_Some.
      * now apply matchesCond_NameRegExp.
      * now apply matchesCond_AgeIs.
      * now apply matchesCond_CountryIs.
  - intros [(k & v & Hk & Hc & Hh)|(n & a & c & Hn & Hne & Ha & Hnz & Hc & H1 & H2 & H3)].
    + exists [CountryDataIs k v]. split.
      * apply in_app_iff. left. apply in_pushUniqueIdentifiers. right. eauto.
      * cbn [forallb]. rewrite andb_true_r. now apply matchesCond_CountryDataIs.
    + exists [NameRegExp n; AgeIs a; CountryIs c]. split.
      * apply in_app_iff. right. unfold nameAgeCountryClause. rewrite Hn, Ha, Hc.
        rewrite (proj2 (truthy_str_Some n) Hne), (proj2 (truthy_num_Some a) Hnz).
        now left.
      * cbn [forallb].
        rewrite (proj2 (matchesCond_NameRegExp d n) H1),
                (proj2 (matchesCond_AgeIs d a) H2),
                (proj2 (matchesCond_CountryIs d c) H3). reflexivity.
Qed.

(** ** The exact query of [findMatches] *)

Lemma setName_valid r tr :
  validName RegExp_i r -> setName RegExp_i r [] tr = (Returned (nameCond r), tr).
Proof.
  intros Hvalid. unfold setName, nameCond.
  destruct (p_name r) as [n|] eqn:En; [|reflexivity].
  destruct (truthy_str (Some n)) eqn:Hn; [|reflexivity].
  apply truthy_str_Some in Hn. destruct (Hvalid n En Hn) as [test Htest].
  unfold bind, newRegExp. now rewrite Htest.
Qed.

Lemma setName_inv r tr out tr' :
  setName RegExp_i r [] tr = (out, tr') ->
  tr' = tr /\
  (out = Returned (nameCond r) /\ validName RegExp_i r \/ out = Thrown "SyntaxError").
Proof.
  unfold setName, nameCond, validName.
  destruct (p_name r) as [n|]; [|intros [= <- <-]; split; [|left; split]; easy].
  destruct (truthy_str (Some n)) eqn:Hn.
  - unfold bind, newRegExp. destruct (RegExp_i n) as [test|] eqn:Et; intros [= <- <-].
    + split; [reflexivity|]. left. split; [reflexivity|].
      intros n' [= <-] _. eauto.
    + auto.
  - intros [= <- <-]. split; [reflexivity|]. left. split; [reflexivity|].
    intros n' [= <-] Hne. apply truthy_str_Some in Hne. congruence.
Qed.

Lemma textMatches_eq r exact tr :
  textMatches db RegExp_i textFind r exact tr =
  (Returned (match textQueries r exact with
             | [Text n scope nin] => scoreResults r (textFind db n scope nin)
             | _ => []
             end),
   tr ++ textQueries r exact).
Proof.
  unfold textMatches, textQueries. destruct (p_name r) as [n|].
  - destruct (truthy_str (Some n)); [reflexivity | now rewrite app_nil_r].
  - now rewrite app_nil_r.
Qed.

(** [findMatches] returns whenever the name is a well-formed regular
    expression, and always issues its exact query first. *)
Lemma findMatches_returns r tr :
  validName RegExp_i r ->
  let exact := answer db RegExp_i textFind (Filter (exactConds r)) in
  findMatches db RegExp_i textFind r tr =
  (Returned
     (mkMatchResult exact
        (sortBy (fun a b => PrimFloat.sub (matchScore b) (matchScore a))
           (match textQueries r exact with
            | [Text n scope nin] => scoreResults r (textFind db n scope nin)
            | _ => []
            end))),
   tr ++ Filter (exactConds r) :: textQueries r exact).
Proof.
  intros Hvalid exact. unfold findMatches, bind at 1.
  rewrite (setName_valid _ _ Hvalid). fold (exactConds r).
  unfold bind at 1, Patient_find at 1. fold exact.
  unfold bind. rewrite textMatches_eq. unfold ret.
  now rewrite <- app_assoc.
Qed.

Lemma findMatches_inv r tr res tr' :
  findMatches db RegExp_i textFind r tr = (Returned res, tr') ->
  validName RegExp_i r.
Proof.
  unfold findMatches, bind at 1.
  destruct (setName RegExp_i r [] tr) as [o t] eqn:E.
  apply setName_inv in E as [-> [[-> Hvalid]| ->]]; [auto | discriminate].
Qed.

Lemma meets_exactConds r d :
  (forall c, In c (exactConds r) -> matchesCond RegExp_i d c = true) <->
  meetsEveryCondition RegExp_i r d.
Proof.
  unfold exactConds, meetsEveryCondition. split.
  - intros H. repeat split.
    + intros n Hn Hne. apply matchesCond_NameRegExp, H.
      apply in_setCountrySpecific. left. apply in_setAgeCountry. left.
      apply in_nameCond. eauto.
    + intros a Ha Hz. apply matchesCond_AgeIs, H.
      apply in_setCountrySpecific. left. apply in_setAgeCountry. right. left. eauto.
    + intros c Hc. apply matchesCond_CountryIs, H.
      apply in_setCountrySpecific. left. apply in_setAgeCountry. right. right. eauto.
    + intros k v Hk Hc. apply matchesCond_CountryDataIs, H.
      apply in_setCountrySpecific. right. eauto.
  - intros (H1 & H2 & H3 & H4) c Hin.
    apply in_setCountrySpecific in Hin as [Hin|(k & v & Hk & Hc & ->)].
    + apply in_setAgeCountry in Hin as [Hin|[(a & Ha & Hz & ->)|(k & Hk & ->)]].
      * apply in_nameCond in Hin as (n & Hn & Hne & ->).
        apply matchesCond_NameRegExp. eauto.
      * apply matchesCond_AgeIs. eauto.
      * apply matchesCond_CountryIs. eauto.
    + apply matchesCond_CountryDataIs. eauto.
Qed.

End StoreProperties.

(** ** Order and subtraction on binary64 numbers

    What the ranking needs to know about IEEE 754 arithmetic, from the
    specification of the primitive operations ([SpecFloat]). *)

Section Binary64Order.

Local Open Scope Z_scope.

Lemma digits2_pos_bounds p :
  2 ^ (Zpos (digits2_pos p) - 1) <= Zpos p < 2 ^ Zpos (digits2_pos p).
Proof.
  induction p as [p IH|p IH|]; cbn [digits2_pos].
  - rewrite Pos2Z.inj_succ, (Pos2Z.inj_xI p).
    replace (Z.succ (Zpos (digits2_pos p)) - 1) with (Z.succ (Zpos (digits2_pos p) - 1)) by lia.
    rewrite !Z.pow_succ_r by lia.
    destruct IH as [H1 H2]. revert H1 H2.
    generalize (2 ^ (Zpos (digits2_pos p) - 1)) (2 ^ Zpos (digits2_pos p)). lia.
  - rewrite Pos2Z.inj_succ, (Pos2Z.inj_xO p).
    replace (Z.succ (Zpos (digits2_pos p)) - 1) with (Z.succ (Zpos (digits2_pos p) - 1)) by lia.
    rewrite !Z.pow_succ_r by lia.
    destruct IH as [H1 H2]. revert H1 H2.
    generalize (2 ^ (Zpos (digits2_pos p) - 1)) (2 ^ Zpos (digits2_pos p)). lia.
  - cbn. lia.
Qed.

Lemma shr_1_m mrs : 0 <= shr_m mrs -> shr_m (shr_1 mrs) = shr_m mrs / 2.
Proof.
  destruct mrs as [m r s]. cbn [shr_m]. intros Hm.
  destruct m as [|[p|p|]|p]; cbn [shr_1 shr_m]; try lia.
  - reflexivity.
  - rewrite (Pos2Z.inj_xI p). apply Z.div_unique with 1; lia.
  - rewrite (Pos2Z.inj_xO p). apply Z.div_unique with 0; lia.
  - reflexivity.
Qed.

Lemma iter_pos_shr_1_m p : forall mrs,
  0 <= shr_m mrs -> shr_m (SpecFloat.iter_pos shr_1 p mrs) = shr_m mrs / 2 ^ Zpos p.
Proof.
  induction p as [p IH|p IH|]; intros mrs Hm; cbn [SpecFloat.iter_pos].
  - assert (0 <= shr_m (shr_1 mrs)) as H1 by (rewrite shr_1_m by exact Hm; apply Z.div_pos; lia).
    assert (0 <= shr_m (SpecFloat.iter_pos shr_1 p (shr_1 mrs))) as H2
      by (rewrite IH by exact H1; apply Z.div_pos; [exact H1 | apply Z.pow_pos_nonneg; lia]).
    rewrite IH by exact H2. rewrite IH by exact H1. rewrite shr_1_m by exact Hm.
    rewrite !Z.div_div by (try apply Z.pow_pos_nonneg; lia).
    f_equal. rewrite (Pos2Z.inj_xI p).
    replace (2 * Zpos p + 1) with (1 + Zpos p + Zpos p) by lia.
    rewrite !Z.pow_add_r by lia. lia.
  - assert (0 <= shr_m (SpecFloat.iter_pos shr_1 p mrs)) as H2
      by (rewrite IH by exact Hm; apply Z.div_pos; [exact Hm | apply Z.pow_pos_nonneg; lia]).
    rewrite IH by exact H2. rewrite IH by exact Hm.
    rewrite !Z.div_div by (try apply Z.pow_pos_nonneg; lia).
    f_equal. rewrite (Pos2Z.inj_xO p).
    replace (2 * Zpos p) with (Zpos p + Zpos p) by lia.
    rewrite !Z.pow_add_r by lia. lia.
  - rewrite shr_1_m by exact Hm. reflexivity.
Qed.

Lemma fexp_eq e : fexp prec emax e = Z.max (e - 53) (-1074).
Proof. reflexivity. Qed.

Lemma shr_record_of_loc_m m l : shr_m (shr_record_of_loc m l) = m.
Proof. destruct l as [|[]]; reflexivity. Qed.

Lemma Zdigits2_pos p : Zdigits2 (Zpos p) = Zpos (digits2_pos p).
Proof. reflexivity. Qed.

(** Shifting a positive mantissa whose exponent is not below the least
    exponent never loses all its digits. *)
Lemma shr_fexp_pos m e l :
  0 < m -> -1074 <= e ->
  0 < shr_m (fst (shr_fexp prec emax m e l)) /\ -1074 <= snd (shr_fexp prec emax m e l).
Proof.
  intros Hm He. unfold shr_fexp, shr.
  destruct m as [|p|p]; try lia. rewrite Zdigits2_pos, fexp_eq.
  pose proof (digits2_pos_bounds p) as [Hd _].
  set (d := Zpos (digits2_pos p)) in *.
  destruct (Z.max (d + e - 53) (-1074) - e) as [|n|n] eqn:En; cbn [fst snd];
    rewrite ?shr_record_of_loc_m; try lia.
  rewrite iter_pos_shr_1_m by (rewrite shr_record_of_loc_m; lia).
  rewrite shr_record_of_loc_m. split; [|lia].
  assert (Zpos n <= d - 1) as Hn by lia.
  assert (2 ^ Zpos n <= 2 ^ (d - 1)) as Hp by (apply Z.pow_le_mono_r; lia).
  assert (0 < 2 ^ Zpos n) as Hpos by (apply Z.pow_pos_nonneg; lia).
  apply Z.div_str_pos. lia.
Qed.

Lemma round_nearest_even_pos m l : 0 < m -> 0 < round_nearest_even m l.
Proof.
  intros Hm. destruct l as [|[]]; cbn [round_nearest_even]; try lia.
  destruct (Z.even m); lia.
Qed.

(** Rounding a positive mantissa at an exponent that is not below the
    least one gives a finite number or an infinity of the given sign:
    never a zero, never a NaN. *)
Lemma binary_round_aux_sign s m e l :
  0 < m -> -1074 <= e ->
  (exists m' e', binary_round_aux prec emax s m e l = S754_finite s m' e') \/
  binary_round_aux prec emax s m e l = S754_infinity s.
Proof.
  intros Hm He. unfold binary_round_aux.
  pose proof (shr_fexp_pos m e l Hm He) as [H1 H2].
  destruct (shr_fexp prec emax m e l) as [mrs' e'] eqn:E1. cbn [fst snd] in H1, H2.
  pose proof (shr_fexp_pos _ e' loc_Exact
                (round_nearest_even_pos _ (loc_of_shr_record mrs') H1) H2) as [H3 _].
  destruct (shr_fexp prec emax (round_nearest_even (shr_m mrs') (loc_of_shr_record mrs'))
              e' loc_Exact) as [mrs'' e''] eqn:E2.
  cbn [fst] in H3. destruct (shr_m mrs'') as [|p|p]; try lia.
  destruct (e'' <=? emax - prec); eauto.
Qed.

Lemma binary_round_sign s m e :
  -1074 <= e ->
  (exists m' e', binary_round prec emax s m e = S754_finite s m' e') \/
  binary_round prec emax s m e = S754_infinity s.
Proof.
  intros He. unfold binary_round, shl_align. rewrite fexp_eq.
  destruct (Z.max (Zpos (digits2_pos m) + e - 53) (-1074) - e) as [|n|n] eqn:En;
    apply binary_round_aux_sign; lia.
Qed.

Lemma pos_iter_xO m d : Zpos (Pos.iter xO m d) = Zpos m * 2 ^ Zpos d.
Proof.
  induction d as [|d IH] using Pos.peano_ind.
  - cbn. lia.
  - rewrite Pos.iter_succ, Pos2Z.inj_succ, Z.pow_succ_r by lia.
    rewrite (Pos2Z.inj_xO (Pos.iter xO m d)), IH. lia.
Qed.

Lemma shl_align_m m e e' :
  e' <= e -> Zpos (fst (shl_align m e e')) = Zpos m * 2 ^ (e - e').
Proof.
  intros He. unfold shl_align.
  destruct (e' - e) as [|n|n] eqn:En; cbn [fst]; try lia.
  - replace (e - e') with 0 by lia. lia.
  - rewrite pos_iter_xO. f_equal. f_equal. lia.
Qed.

Lemma bounded_canonical m e :
  bounded prec emax m e = true ->
  -1074 <= e /\ Zpos m < 2 ^ 53 /\ (-1074 < e -> 2 ^ 52 <= Zpos m).
Proof.
  unfold bounded, canonical_mantissa. rewrite fexp_eq.
  intros [H _]%andb_true_iff. apply Z.eqb_eq in H.
  pose proof (digits2_pos_bounds m) as [H1 H2].
  set (d := Zpos (digits2_pos m)) in *.
  split; [lia|]. split.
  - assert (d <= 53) by lia.
    assert (2 ^ d <= 2 ^ 53) by (apply Z.pow_le_mono_r; lia). lia.
  - intros He. assert (d = 53) as Hd by lia. rewrite Hd in H1. exact H1.
Qed.

(** On canonical mantissas, comparing exponents and then mantissas is
    comparing the mantissas brought to the smaller exponent. *)
Lemma aligned_compare mx ex my ey :
  bounded prec emax mx ex = true -> bounded prec emax my ey = true ->
  (Zpos (fst (shl_align mx ex (Z.min ex ey))) ?= Zpos (fst (shl_align my ey (Z.min ex ey)))) =
  match ex ?= ey with
  | Lt => Lt
  | Gt => Gt
  | Eq => Pos.compare_cont Eq mx my
  end.
Proof.
  intros (Hx1 & Hx2 & Hx3)%bounded_canonical (Hy1 & Hy2 & Hy3)%bounded_canonical.
  rewrite !shl_align_m by lia.
  destruct (Z.compare_spec ex ey) as [E|E|E].
  - subst ey. rewrite Z.min_id, Z.sub_diag, !Z.mul_1_r. reflexivity.
  - rewrite Z.min_l by lia. rewrite Z.sub_diag, Z.mul_1_r.
    apply Z.compare_lt_iff.
    assert (2 ^ 1 <= 2 ^ (ey - ex)) by (apply Z.pow_le_mono_r; lia).
    specialize (Hy3 ltac:(lia)). nia.
  - rewrite Z.min_r by lia. rewrite Z.sub_diag, Z.mul_1_r.
    apply Z.compare_gt_iff.
    assert (2 ^ 1 <= 2 ^ (ex - ey)) by (apply Z.pow_le_mono_r; lia).
    specialize (Hx3 ltac:(lia)). nia.
Qed.

Lemma SFltb_zero_finite s m e : SFltb (S754_zero false) (S754_finite s m e) = negb s.
Proof. now destruct s. Qed.

Lemma SFltb_zero_infinity s : SFltb (S754_zero false) (S754_infinity s) = negb s.
Proof. now destruct s. Qed.

Lemma SFltb_zero_round s m e :
  -1074 <= e -> SFltb (S754_zero false) (binary_round prec emax s m e) = negb s.
Proof.
  intros He. destruct (binary_round_sign s m e He) as [(m' & e' & ->)| ->].
  - apply SFltb_zero_finite.
  - apply SFltb_zero_infinity.
Qed.

(** The sign of a difference, as the comparator of a sort reads it:
    [0 < y - x] exactly when [x < y]. *)
Lemma SFsub_pos x y :
  valid_binary x = true -> valid_binary y = true ->
  SFltb (S754_zero false) (SFsub prec emax y x) = SFltb x y.
Proof.
  intros Hx Hy.
  destruct x as [sx|sx| |sx mx ex], y as [sy|sy| |sy my ey];
    try reflexivity;
    try (destruct sx; try destruct sy; reflexivity);
    try (destruct sy; reflexivity).
  cbn [valid_binary] in Hx, Hy. cbn [SFsub].
  pose proof (aligned_compare mx ex my ey Hx Hy) as Hc.
  rewrite (Z.min_comm ey ex).
  pose proof (proj1 (bounded_canonical _ _ Hx)) as Hex.
  pose proof (proj1 (bounded_canonical _ _ Hy)) as Hey.
  assert (-1074 <= Z.min ex ey) as Hez by lia.
  set (X := Zpos (fst (shl_align mx ex (Z.min ex ey)))) in *.
  set (Y := Zpos (fst (shl_align my ey (Z.min ex ey)))) in *.
  assert (0 < X /\ 0 < Y) as [HX HY] by (subst X Y; lia).
  unfold SFltb at 2. cbn [SFcompare].
  destruct sx, sy; cbn [cond_Zopp].
  - (* both negative *)
    destruct (Z.compare_spec X Y) as [E|E|E];
      destruct (ex ?= ey) eqn:Ee; try discriminate Hc;
      try (rewrite <- Hc; cbn [CompOpp]).
    all: unfold binary_normalize.
    all: destruct (- Y - - X) as [|d|d] eqn:Ed; try lia;
      rewrite ?SFltb_zero_round by exact Hez; reflexivity.
  - (* x negative, y positive *)
    unfold binary_normalize.
    destruct (Y - - X) as [|d|d] eqn:Ed; try lia.
    now rewrite SFltb_zero_round.
  - (* x positive, y negative *)
    unfold binary_normalize.
    destruct (- Y - X) as [|d|d] eqn:Ed; try lia.
    now rewrite SFltb_zero_round.
  - (* both positive *)
    destruct (Z.compare_spec X Y) as [E|E|E];
      destruct (ex ?= ey) eqn:Ee; try discriminate Hc;
      try (rewrite <- Hc).
    all: unfold binary_normalize.
    all: destruct (Y - X) as [|d|d] eqn:Ed; try lia;
      rewrite ?SFltb_zero_round by exact Hez; reflexivity.
Qed.

Lemma SFcompare_antisym x y :
  SFcompare y x = match SFcompare x y with Some c => Some (CompOpp c) | None => None end.
Proof.
  destruct x as [sx|sx| |sx mx ex], y as [sy|sy| |sy my ey]; cbn [SFcompare];
    try reflexivity;
    try (destruct sx; try destruct sy; reflexivity);
    try (destruct sy; reflexivity).
  destruct sx, sy; try reflexivity;
    rewrite (Z.compare_antisym ex ey), !Pos.compare_cont_spec,
      (Pos.compare_antisym mx my);
    destruct (ex ?= ey); cbn [CompOpp]; try reflexivity;
    destruct (mx ?= my)%positive; reflexivity.
Qed.

Lemma SFcompare_Eq_Lt a b s :
  SFcompare a b = Some Lt -> SFcompare a s = Some Eq -> SFcompare b s <> Some Eq.
Proof.
  destruct a as [sa|sa| |sa ma ea], b as [sb|sb| |sb mb eb], s as [ss|ss| |ss ms es];
    cbn [SFcompare]; try discriminate;
    try (destruct sa; discriminate); try (destruct sb; discriminate);
    try (destruct ss; discriminate);
    try (destruct sa, sb; discriminate); try (destruct sa, ss; discriminate);
    try (destruct sb, ss; discriminate);
    try (destruct sa, sb, ss; discriminate).
  destruct sa, sb, ss; try discriminate.
  all: destruct (Z.compare_spec ea es) as [E1|E1|E1]; try discriminate;
    destruct (Z.compare_spec eb es) as [E2|E2|E2]; try discriminate;
    subst; rewrite Z.compare_refl.
  all: intros Hab Has Hbs.
  all: assert (ma = ms) as ->
      by (apply Pos.compare_eq; rewrite Pos.compare_cont_spec in Has;
          destruct (ma ?= ms)%positive; cbn in Has; congruence).
  all: assert (mb = ms) as ->
      by (apply Pos.compare_eq; rewrite Pos.compare_cont_spec in Hbs;
          destruct (mb ?= ms)%positive; cbn in Hbs; congruence).
  all: rewrite Pos.compare_cont_refl in Hab; discriminate.
Qed.

Lemma Prim2SF_zero : Prim2SF 0%float = S754_zero false.
Proof. reflexivity. Qed.

(** The comparator [b - a] of a sort is positive exactly when
    [a < b], for all binary64 numbers, NaN and the infinities included. *)
Lemma float_ltb_sub (a b : float) : (0 <? b - a)%float = (a <? b)%float.
Proof.
  rewrite !FloatAxioms.ltb_spec, FloatAxioms.sub_spec, Prim2SF_zero.
  apply SFsub_pos; apply Prim2SF_valid.
Qed.

Lemma float_ltb_leb (a b : float) : (a <? b)%float = true -> (a <=? b)%float = true.
Proof.
  rewrite FloatAxioms.ltb_spec, FloatAxioms.leb_spec. unfold SFltb, SFleb.
  destruct (SFcompare (Prim2SF a) (Prim2SF b)) as [[]|]; congruence.
Qed.

(** Two numbers that are not NaN (each is above some number) are
    comparable. *)
Lemma float_not_ltb_leb (c c' a b : float) :
  (c <? a)%float = true -> (c' <? b)%float = true -> (a <? b)%float = false ->
  (b <=? a)%float = true.
Proof.
  rewrite !FloatAxioms.ltb_spec, FloatAxioms.leb_spec. unfold SFltb, SFleb.
  rewrite (SFcompare_antisym (Prim2SF a) (Prim2SF b)).
  destruct (Prim2SF a) as [sa|sa| |sa ma ea], (Prim2SF b) as [sb|sb| |sb mb eb];
    try (intros; destruct (Prim2SF c), (Prim2SF c'); discriminate).
  all: intros _ _; destruct (SFcompare _ _) as [[]|] eqn:E; cbn [CompOpp]; try congruence.
  all: cbn [SFcompare] in E; try discriminate E;
    try (destruct sa; discriminate E); try (destruct sb; discriminate E).
Qed.

Lemma float_ltb_irrefl (a : float) : (a <? a)%float = false.
Proof.
  rewrite FloatAxioms.ltb_spec. unfold SFltb.
  pose proof (SFcompare_antisym (Prim2SF a) (Prim2SF a)) as H.
  destruct (SFcompare (Prim2SF a) (Prim2SF a)) as [[]|]; try reflexivity.
  discriminate H.
Qed.

Lemma float_ltb_eqb (a b s : float) :
  (a <? b)%float = true -> (a =? s)%float = true -> (b =? s)%float = false.
Proof.
  rewrite FloatAxioms.ltb_spec, !FloatAxioms.eqb_spec. unfold SFltb, SFeqb. intros Hab Has.
  destruct (SFcompare (Prim2SF a) (Prim2SF b)) as [[]|] eqn:E1; try discriminate.
  destruct (SFcompare (Prim2SF a) (Prim2SF s)) as [[]|] eqn:E2; try discriminate.
  pose proof (SFcompare_Eq_Lt _ _ _ E1 E2) as H.
  destruct (SFcompare (Prim2SF b) (Prim2SF s)) as [[]|]; congruence.
Qed.

End Binary64Order.

(** ** Ranking of partial matches *)

Lemma insertBy_Permutation {A} (cmp : A -> A -> float) x l :
  Permutation (insertBy cmp x l) (x :: l).
Proof.
  induction l as [|y l IH]; cbn [insertBy]; [reflexivity|].
  destruct (PrimFloat.ltb 0 (cmp x y)); [|reflexivity].
  rewrite IH. apply perm_swap.
Qed.

Lemma sortBy_Permutation {A} (cmp : A -> A -> float) l : Permutation (sortBy cmp l) l.
Proof.
  induction l as [|x l IH]; cbn [sortBy fold_right]; [reflexivity|].
  fold (sortBy cmp l). rewrite insertBy_Permutation. now constructor.
Qed.

Lemma insertBy_HdRel (y x : PartialMatch) l :
  PrimFloat.leb (matchScore x) (matchScore y) = true ->
  HdRel (fun a b => PrimFloat.leb (matchScore b) (matchScore a) = true) y l ->
  HdRel (fun a b => PrimFloat.leb (matchScore b) (matchScore a) = true) y
        (insertBy (fun a b => PrimFloat.sub (matchScore b) (matchScore a)) x l).
Proof.
  intros Hx Hl. destruct l as [|z l]; cbn [insertBy].
  - now constructor.
  - destruct (PrimFloat.ltb 0 _); constructor; [|assumption].
    now inversion Hl.
Qed.

(** Inserting keeps a ranking descending, as long as no score is NaN:
    here every score is above [c]. *)
Lemma insertBy_descending c x l :
  PrimFloat.ltb c (matchScore x) = true ->
  Forall (fun pm => PrimFloat.ltb c (matchScore pm) = true) l ->
  descending l ->
  descending (insertBy (fun a b => PrimFloat.sub (matchScore b) (matchScore a)) x l).
Proof.
  unfold descending. intros Hx. induction l as [|y l IH]; intros Hc Hs; cbn [insertBy].
  - repeat constructor.
  - inversion Hs as [|? ? Hsl Hhd]; subst. inversion Hc as [|? ? Hy Hl]; subst.
    rewrite float_ltb_sub. destruct (PrimFloat.ltb (matchScore x) (matchScore y)) eqn:E.
    + constructor; [now apply IH|].
      apply insertBy_HdRel; [now apply float_ltb_leb | assumption].
    + constructor; [assumption|]. constructor.
      exact (float_not_ltb_leb c c _ _ Hx Hy E).
Qed.

Lemma sortBy_descending c l :
  Forall (fun pm => PrimFloat.ltb c (matchScore pm) = true) l ->
  descending (sortBy (fun a b => PrimFloat.sub (matchScore b) (matchScore a)) l).
Proof.
  induction l as [|x l IH]; intros Hc; cbn [sortBy fold_right]; [constructor|].
  inversion Hc as [|? ? Hx Hl]; subst.
  apply (insertBy_descending c); [exact Hx| |now apply IH].
  eapply Permutation_Forall; [symmetry; apply sortBy_Permutation | exact Hl].
Qed.

(** The sort is stable: inserting does not change the order among the
    entries of one score. *)
Lemma insertBy_scoring s x l :
  scoring s (insertBy (fun a b => PrimFloat.sub (matchScore b) (matchScore a)) x l) =
  scoring s (x :: l).
Proof.
  unfold scoring. induction l as [|y l IH]; cbn [insertBy]; [reflexivity|].
  rewrite float_ltb_sub. destruct (PrimFloat.ltb (matchScore x) (matchScore y)) eqn:E;
    [|reflexivity].
  cbn [List.filter] in *. rewrite IH.
  destruct (PrimFloat.eqb (matchScore x) s) eqn:Ex; [|reflexivity].
  now rewrite (float_ltb_eqb _ _ _ E Ex).
Qed.

Lemma sortBy_scoring s l :
  scoring s (sortBy (fun a b => PrimFloat.sub (matchScore b) (matchScore a)) l) =
  scoring s l.
Proof.
  induction l as [|x l IH]; cbn [sortBy fold_right]; [reflexivity|].
  rewrite insertBy_scoring. unfold scoring in *. cbn [List.filter].
  fold (sortBy (fun a b => PrimFloat.sub (matchScore b) (matchScore a)) l).
  now rewrite IH.
Qed.

Lemma scoreResults_loop r results :
  forall acc,
    fold_left
      (fun partialMatches result =>
         let matchScore := Binary64.calculateOverallMatchScore r result in
         if PrimFloat.ltb 0.5 matchScore
         then partialMatches ++ [mkPartialMatch result matchScore]
         else partialMatches)
      results acc = acc ++ keptCandidates r results.
Proof.
  unfold keptCandidates.
  induction results as [|d results IH]; intros acc; cbn [fold_left List.filter map].
  - now rewrite app_nil_r.
  - rewrite IH. destruct (PrimFloat.ltb 0.5 (Binary64.calculateOverallMatchScore r d)).
    + cbn [map]. now rewrite <- app_assoc.
    + reflexivity.
Qed.

Lemma scoreResults_kept r results : scoreResults r results = keptCandidates r results.
Proof. unfold scoreResults. now rewrite scoreResults_loop. Qed.

Lemma keptCandidates_Forall r results :
  Forall (fun pm => PrimFloat.ltb 0.5 (matchScore pm) = true /\
                    matchScore pm = Binary64.calculateOverallMatchScore r (patient pm) /\
                    In (patient pm) results)
         (keptCandidates r results).
Proof.
  unfold keptCandidates. apply List.Forall_forall. intros pm Hin.
  apply in_map_iff in Hin as (d & <- & Hd). apply List.filter_In in Hd as [Hin Hd].
  cbn [matchScore patient]. auto.
Qed.

Lemma getField_empty k : getField emptyCountryData k = None.
Proof. unfold getField. repeat (destruct (String.eqb k _); [reflexivity|]). reflexivity. Qed.

Lemma filter_all {A} (l : list A) : List.filter (fun _ => true) l = l.
Proof. induction l as [|x l IH]; cbn; [reflexivity | now rewrite IH]. Qed.

Section MatchProperties.

Variable db : list PatientDocument.
Variable RegExp_i : string -> option (string -> bool).
Variable textFind :
  list PatientDocument -> string -> option Country -> list nat -> list PatientDocument.

(** The guard of the [POST /match] handler: a record with no name and
    no countryData object is rejected before any store access. *)
Lemma matchHandler_rejects r tr :
  truthy_str (p_name r) = false -> p_countryData r = None ->
  matchHandler db RegExp_i textFind r tr =
  (Json400 "At least name or country-specific data is required for matching", tr).
Proof. intros Hn Hd. unfold matchHandler. now rewrite Hn, Hd. Qed.

(** C1, the code at [{ countryData: {} }].  The record carries no name
    and no identifier field, yet the handler does not reject it:
    [findMatches] issues its exact query with the empty filter, which
    selects every stored record, and the response is a success listing
    the whole collection as exact matches. *)
Theorem matchHandler_empty_countryData (tr : list Query) :
  p_name emptyDataOnly = None /\
  (forall k, getField emptyCountryData k = None) /\
  matchHandler db RegExp_i textFind emptyDataOnly tr =
  (Json200 (mkMatchResult db []), tr ++ [Filter []]).
Proof.
  split; [reflexivity|]. split; [apply getField_empty|].
  unfold matchHandler. cbn [emptyDataOnly p_name p_countryData truthy_str truthy negb andb].
  assert (validName RegExp_i emptyDataOnly) as Hvalid by (intros n [=]).
  rewrite (findMatches_returns db RegExp_i textFind emptyDataOnly tr Hvalid).
  cbn. now rewrite filter_all.
Qed.

(** C5, as the code has it.  When the record carries zero qualifying
    fields, the exact lookup of [analyzeDuplicates] issues no query and
    contributes no candidate, and the disjunction it issues otherwise
    is never empty.  [findMatches] has no such skip: whenever the
    record carries one of name, age, country, nhsNumber, mrn or
    hospitalUidAadhaar (and the name is a well-formed regular
    expression) it issues its exact query, with a filter that is not
    empty. *)
Theorem exact_lookup_skipped (r : PartialPatient) (tr : list Query) :
  (zeroQualifying r ->
   findDuplicates db RegExp_i textFind r tr = (Returned [], tr) /\
   exists res,
     analyzeDuplicates db RegExp_i textFind r tr = (Returned res, tr) /\
     duplicatePatients res = [] /\ isDuplicate res = false) /\
  (forall out tr',
     findDuplicates db RegExp_i textFind r tr = (out, tr') ->
     tr' = tr \/ exists clauses, clauses <> [] /\ tr' = tr ++ [Or clauses]) /\
  (forall out tr',
     analyzeDuplicates db RegExp_i textFind r tr = (out, tr') ->
     tr' = tr \/ exists clauses, clauses <> [] /\ tr' = tr ++ [Or clauses]) /\
  (validName RegExp_i r -> carriesExactField r ->
   exists res conds rest,
     conds <> [] /\
     findMatches db RegExp_i textFind r tr = (Returned res, tr ++ Filter conds :: rest)).
Proof.
  assert (forall out tr',
            findDuplicates db RegExp_i textFind r tr = (out, tr') ->
            tr' = tr \/ exists clauses, clauses <> [] /\ tr' = tr ++ [Or clauses]) as Hdup.
  { intros out tr' H.
    apply findDuplicates_inv in H as [(_ & -> & _)|[(_ & -> & _)|(_ & -> & Hne)]]; eauto. }
  split; [|split; [exact Hdup|split]].
  - intros Hz. pose proof (findDuplicates_zeroQualifying db RegExp_i textFind r tr Hz) as E.
    split; [exact E|]. unfold analyzeDuplicates, bind. rewrite E. cbn.
    eexists. split; [reflexivity|]. split; reflexivity.
  - intros out tr'. unfold analyzeDuplicates, bind.
    destruct (findDuplicates db RegExp_i textFind r tr) as [[ds|e] t] eqn:E;
      intros [= <- <-]; apply (Hdup _ _ eq_refl).
  - intros Hvalid Hc. rewrite (findMatches_returns db RegExp_i textFind r tr Hvalid).
    cbv zeta. eexists. exists (exactConds r). eexists.
    split; [apply exactConds_nonempty, Hc | reflexivity].
Qed.

(** C6, as the code has it.  Provided the name is a well-formed regular
    expression, both lookups return.  [findDuplicates] returns exactly
    the stored records that share a non-empty nhsNumber, mrn,
    hospitalUidAadhaar or ssn with the record, or that match its name
    case-insensitively and have its age and its country.
    [findMatches] builds one conjunctive filter instead: for a record
    that carries at least one of the fields it filters on (name, age,
    country, nhsNumber, mrn, hospitalUidAadhaar), its exact matches are
    exactly the stored records that meet every condition the record
    carries. *)
Theorem exact_lookup_clauses (r : PartialPatient) (tr : list Query) :
  validName RegExp_i r ->
  (exists ds tr1,
     findDuplicates db RegExp_i textFind r tr = (Returned ds, tr1) /\
     forall d,
       In d ds <->
       In d db /\
       (sharesIdentifier uniqueFields r d \/ nameAgeCountryMatch RegExp_i r d)) /\
  (carriesExactField r ->
   exists res tr2,
     findMatches db RegExp_i textFind r tr = (Returned res, tr2) /\
     forall d,
       In d (exactMatches res) <-> In d db /\ meetsEveryCondition RegExp_i r d).
Proof.
  intros Hvalid. split.
  - rewrite (findDuplicates_returns db RegExp_i textFind r tr Hvalid). cbv zeta.
    destruct (duplicateClauses r) as [|cl cls] eqn:E; cbn [length Nat.eqb];
      do 2 eexists; (split; [reflexivity|]); intros d.
    + rewrite <- meets_duplicateClause, E.
      split; [intros [] | now intros (_ & cl & [] & _)].
    + now rewrite in_answer_Or, <- E, meets_duplicateClause.
  - intros _. rewrite (findMatches_returns db RegExp_i textFind r tr Hvalid). cbv zeta.
    do 2 eexists. split; [reflexivity|]. intros d. cbn [exactMatches].
    now rewrite in_answer_Filter, meets_exactConds.
Qed.

(** C7, as the code has it.  The partial matches [findMatches] returns
    are exactly the text-search candidates whose overall score, as the
    engine computes it in binary64, is strictly above 0.5, each with
    that score.  They are ordered by descending score, not strictly:
    each score is greater than or equal to the next, and the entries of
    one score keep the order in which the store returned them. *)
Theorem findMatches_partialMatches_ranked (r : PartialPatient) (tr tr' : list Query)
    (res : MatchResult) :
  findMatches db RegExp_i textFind r tr = (Returned res, tr') ->
  let candidates :=
    match textQueries r (exactMatches res) with
    | [Text n scope nin] => textFind db n scope nin
    | _ => []
    end in
  Forall (fun pm => PrimFloat.ltb 0.5 (matchScore pm) = true /\
                    matchScore pm = Binary64.calculateOverallMatchScore r (patient pm) /\
                    In (patient pm) candidates)
         (partialMatches res) /\
  Permutation (partialMatches res) (keptCandidates r candidates) /\
  descending (partialMatches res) /\
  (forall s, scoring s (partialMatches res) = scoring s (keptCandidates r candidates)).
Proof.
  intros H. pose proof (findMatches_inv db RegExp_i textFind r tr res tr' H) as Hvalid.
  rewrite (findMatches_returns db RegExp_i textFind r tr Hvalid) in H. cbv zeta in H.
  injection H as <- _. cbn [partialMatches exactMatches].
  set (exact := List.filter _ db).
  assert (match textQueries r exact with
          | [Text n scope nin] => scoreResults r (textFind db n scope nin)
          | _ => []
          end =
          keptCandidates r
            match textQueries r exact with
            | [Text n scope nin] => textFind db n scope nin
            | _ => []
            end) as ->.
  { unfold textQueries. destruct (p_name r) as [n|]; [|reflexivity].
    destruct (truthy_str (Some n)); [apply scoreResults_kept | reflexivity]. }
  set (candidates := match textQueries r exact with
                     | [Text n scope nin] => textFind db n scope nin
                     | _ => []
                     end).
  pose proof (keptCandidates_Forall r candidates) as Hkept.
  split; [|split; [|split]].
  - eapply Permutation_Forall; [symmetry; apply sortBy_Permutation | exact Hkept].
  - apply sortBy_Permutation.
  - apply (sortBy_descending 0.5%float).
    eapply List.Forall_impl; [|exact Hkept]. now intros pm [Hpm _].
  - intros s. apply sortBy_scoring.
Qed.

End MatchProperties.

(** ** The lookups on the sample store *)

Lemma literalRegExp_i_valid r : validName literalRegExp_i r.
Proof. intros n _ _. eexists. reflexivity. Qed.

Lemma zeroQualifying_emptyDataOnly : zeroQualifying emptyDataOnly.
Proof.
  split.
  - intros k v _ (cd & [= <-] & Hget & _). now rewrite getField_empty in Hget.
  - intros (_ & H & _). discriminate H.
Qed.

Lemma zeroQualifying_annOnly : zeroQualifying annOnly.
Proof.
  split.
  - intros k v _ (cd & [=] & _).
  - intros (_ & H & _). discriminate H.
Qed.

Lemma exact_lookup_skipped_witness :
  zeroQualifying emptyDataOnly /\
  findDuplicates sampleDb literalRegExp_i wordTextFind emptyDataOnly [] = (Returned [], []) /\
  carriesExactField annOnly /\
  exists res conds rest,
    conds <> [] /\
    findMatches sampleDb literalRegExp_i wordTextFind annOnly [] =
    (Returned res, [] ++ Filter conds :: rest).
Proof.
  split; [exact zeroQualifying_emptyDataOnly|].
  split.
  - exact (proj1 (proj1 (exact_lookup_skipped sampleDb literalRegExp_i wordTextFind
                           emptyDataOnly []) zeroQualifying_emptyDataOnly)).
  - assert (carriesExactField annOnly) as Hc by (left; reflexivity).
    split; [exact Hc|].
    exact (proj2 (proj2 (proj2 (exact_lookup_skipped sampleDb literalRegExp_i wordTextFind
                                  annOnly [])))
             (literalRegExp_i_valid annOnly) Hc).
Defined.

(** C5 as stated fails: a record that carries a name only has no
    qualifying field, yet [findMatches] issues its exact query. *)
Lemma findMatches_queries_on_name_only :
  zeroQualifying annOnly /\
  findMatches sampleDb literalRegExp_i wordTextFind annOnly [] =
  (Returned (mkMatchResult [] []), [Filter [NameRegExp "Ann"]; Text "Ann" None []]).
Proof.
  split; [exact zeroQualifying_annOnly|]. vm_compute. reflexivity.
Qed.

Lemma exact_lookup_clauses_witness :
  validName literalRegExp_i age30WithBobsNumber /\
  carriesExactField age30WithBobsNumber /\
  (exists ds tr1,
     findDuplicates sampleDb literalRegExp_i wordTextFind age30WithBobsNumber [] =
       (Returned ds, tr1) /\
     forall d,
       In d ds <->
       In d sampleDb /\
       (sharesIdentifier uniqueFields age30WithBobsNumber d \/
        nameAgeCountryMatch literalRegExp_i age30WithBobsNumber d)) /\
  (exists res tr2,
     findMatches sampleDb literalRegExp_i wordTextFind age30WithBobsNumber [] =
       (Returned res, tr2) /\
     forall d,
       In d (exactMatches res) <->
       In d sampleDb /\ meetsEveryCondition literalRegExp_i age30WithBobsNumber d).
Proof.
  assert (carriesExactField age30WithBobsNumber) as Hc by (right; left; reflexivity).
  split; [apply literalRegExp_i_valid|]. split; [exact Hc|].
  destruct (exact_lookup_clauses sampleDb literalRegExp_i wordTextFind age30WithBobsNumber []
              (literalRegExp_i_valid age30WithBobsNumber)) as [Hdup Hmatch].
  split; [exact Hdup | exact (Hmatch Hc)].
Defined.

(** C6 as stated fails: the stored record of Bob Stone shares its NHS
    number with the query, so it satisfies an identifier clause and
    [findDuplicates] returns it, but [findMatches] also requires the
    query's age and does not return it as an exact match. *)
Lemma shared_identifier_not_exact_match :
  In bobStone sampleDb /\
  sharesIdentifier uniqueFields age30WithBobsNumber bobStone /\
  findDuplicates sampleDb literalRegExp_i wordTextFind age30WithBobsNumber [] =
    (Returned [bobStone], [Or [[CountryDataIs "nhsNumber" "3456789012"]]]) /\
  findMatches sampleDb literalRegExp_i wordTextFind age30WithBobsNumber [] =
    (Returned (mkMatchResult [] []),
     [Filter [AgeIs 30; CountryDataIs "nhsNumber" "3456789012"]]) /\
  ~ In bobStone (exactMatches (mkMatchResult [] [])).
Proof.
  split; [cbn; tauto|]. split.
  - exists "nhsNumber"%string, "3456789012"%string. split; [now left|]. split.
    + exists (ukData "3456789012"). repeat split. discriminate.
    + exists (ukData "3456789012"). split; reflexivity.
  - split; [vm_compute; reflexivity|]. split; [vm_compute; reflexivity|].
    intros [].
Qed.

Lemma findMatches_on_annReed30 :
  findMatches rankingDb literalRegExp_i wordTextFind annReed30 [] =
  (Returned (mkMatchResult [] annReedRanking),
   [Filter [NameRegExp "Ann Reed"; AgeIs 30; CountryIs UK;
            CountryDataIs "nhsNumber" "9999999999"];
    Text "Ann Reed" (Some UK) []]).
Proof. vm_compute. reflexivity. Qed.

(** In exact arithmetic [annWeeder] and [annReed36] tie at 29/35 and
    [annReeder] scores 1/2; in binary64 the first two differ in the last
    bit and the third is above 0.5. *)
Example exact_and_binary64_scores :
  (calculateOverallMatchScore annReed30 annWeeder == 29 # 35)%Q /\
  (calculateOverallMatchScore annReed30 annReed36 == 29 # 35)%Q /\
  (calculateOverallMatchScore annReed30 annReeder == 1 # 2)%Q /\
  Binary64.calculateOverallMatchScore annReed30 annWeeder = 0.8285714285714284%float /\
  Binary64.calculateOverallMatchScore annReed30 annReed36 = 0.82857142857142863%float /\
  Binary64.calculateOverallMatchScore annReed30 annReeder = 0.50000000000000011%float.
Proof. repeat split; vm_compute; reflexivity. Qed.

Lemma findMatches_partialMatches_ranked_witness :
  findMatches rankingDb literalRegExp_i wordTextFind annReed30 [] =
    (Returned (mkMatchResult [] annReedRanking),
     [Filter [NameRegExp "Ann Reed"; AgeIs 30; CountryIs UK;
              CountryDataIs "nhsNumber" "9999999999"];
      Text "Ann Reed" (Some UK) []]) /\
  Forall (fun pm => PrimFloat.ltb 0.5 (matchScore pm) = true /\
                    matchScore pm =
                      Binary64.calculateOverallMatchScore annReed30 (patient pm) /\
                    In (patient pm) (wordTextFind rankingDb "Ann Reed" (Some UK) []))
         annReedRanking /\
  Permutation annReedRanking
    (keptCandidates annReed30 (wordTextFind rankingDb "Ann Reed" (Some UK) [])) /\
  descending annReedRanking /\
  (forall s, scoring s annReedRanking =
             scoring s (keptCandidates annReed30
                          (wordTextFind rankingDb "Ann Reed" (Some UK) []))).
Proof.
  split; [exact findMatches_on_annReed30|].
  exact (findMatches_partialMatches_ranked rankingDb literalRegExp_i wordTextFind
           annReed30 [] _ _ findMatches_on_annReed30).
Defined.

(** C7 as stated fails: two stored records named John Smyth tie at
    0.9200000000000002 for the query John Smith, and the returned list
    holds the two equal scores one after the other. *)
Lemma tied_scores_not_strictly_descending :
  findMatches sampleDb literalRegExp_i wordTextFind johnSmithUK [] =
    (Returned (mkMatchResult [] johnSmithRanking),
     [Filter [NameRegExp "John Smith"; CountryIs UK]; Text "John Smith" (Some UK) []]) /\
  ~ strictlyDescending johnSmithRanking.
Proof.
  split; [vm_compute; reflexivity|].
  intros H. inversion H as [|? ? _ Hhd]; subst.
  inversion Hhd as [|? ? Hlt]; subst. cbn [matchScore] in Hlt.
  rewrite float_ltb_irrefl in Hlt. discriminate Hlt.
Qed.

(** * Further properties of the code *)

(** ** The distance computed by the matrix *)

Lemma lev_eq_0 s : forall t, lev s t = 0 -> s = t.
Proof.
  induction s as [|c s IH]; intros [|d t].
  - reflexivity.
  - rewrite lev_nil_l. discriminate.
  - rewrite lev_nil_r. discriminate.
  - rewrite lev_cons. unfold min3. destruct (decide (c = d)) as [->|]; [|lia].
    intros H. f_equal. apply IH. lia.
Qed.

Lemma edit1_length s t : edit1 s t -> length s <= S (length t) /\ length t <= S (length s).
Proof.
  intros [pre c post | pre c post | pre c d post];
    rewrite !length_app; cbn [length]; lia.
Qed.

Lemma edits_length n s t :
  edits n s t -> length s <= n + length t /\ length t <= n + length s.
Proof.
  induction 1 as [s | n s t u Hst _ IH]; [lia|].
  apply edit1_length in Hst. lia.
Qed.

Lemma edits_trans n m s t u : edits n s t -> edits m t u -> edits (n + m) s u.
Proof.
  induction 1 as [s | n s t' t Hst _ IH]; intros Hm; [exact Hm|].
  cbn [Nat.add]. econstructor; [exact Hst | now apply IH].
Qed.

Lemma editDistance_lev n1 n2 : editDistance n1 n2 = lev (rev n1) (rev n2).
Proof. apply levenshteinMatrix_lev. Qed.

Lemma lev_rev s t : lev (rev s) (rev t) = lev s t.
Proof.
  apply (isEditDistance_unique s t).
  - apply isEditDistance_rev, lev_isEditDistance.
  - apply lev_isEditDistance.
Qed.

Lemma lev_triangle s t u : lev s u <= lev s t + lev t u.
Proof.
  apply lev_lower_bound. eapply edits_trans; apply edits_lev.
Qed.

(** X1.  Every cell of the finished matrix holds an edit distance:
    [matrix[j][i]] is the least number of single-character edits that
    turn the first [i] characters of [n1] into the first [j]
    characters of [n2]; the matrix has [n2.length + 1] rows. *)
Theorem levenshteinMatrix_prefix_distances (n1 n2 : jsstring) (j i : nat) :
  j <= length n2 -> i <= length n1 ->
  length (levenshteinMatrix n1 n2) = length n2 + 1 /\
  isEditDistance (take i n1) (take j n2) (mget (levenshteinMatrix n1 n2) j i).
Proof.
  intros Hj Hi. destruct (levenshteinMatrix_cells n1 n2) as [[Hrows _] Hcells].
  split; [exact Hrows|]. rewrite (Hcells j i Hj Hi). unfold prefixDistance.
  apply isEditDistance_rev, lev_isEditDistance.
Qed.

Lemma levenshteinMatrix_prefix_distances_witness :
  let n1 := list_ascii_of_string "kitten" in
  let n2 := list_ascii_of_string "sitting" in
  length (levenshteinMatrix n1 n2) = 8 /\
  isEditDistance (list_ascii_of_string "kit") (list_ascii_of_string "sitt")
                 (mget (levenshteinMatrix n1 n2) 4 3).
Proof.
  intros n1 n2.
  apply (levenshteinMatrix_prefix_distances n1 n2 4 3); cbn; lia.
Defined.

(** X2.  The distance read from the matrix lies between the difference
    and the larger of the two lengths. *)
Theorem editDistance_bounds (n1 n2 : jsstring) :
  length n1 - length n2 <= editDistance n1 n2 /\
  length n2 - length n1 <= editDistance n1 n2 /\
  editDistance n1 n2 <= Nat.max (length n1) (length n2).
Proof.
  rewrite editDistance_lev, lev_rev.
  pose proof (edits_length _ _ _ (edits_lev n1 n2)).
  pose proof (lev_le_max n1 n2). lia.
Qed.

(** X3.  The distance read from the matrix is a metric on strings: it
    is zero exactly for equal strings, symmetric, and obeys the
    triangle inequality. *)
Theorem editDistance_metric (a b c : jsstring) :
  (editDistance a b = 0 <-> a = b) /\
  editDistance a b = editDistance b a /\
  editDistance a c <= editDistance a b + editDistance b c.
Proof.
  rewrite !editDistance_lev, !lev_rev. split; [|split].
  - split; [apply lev_eq_0 | intros ->; apply lev_refl].
  - apply lev_sym.
  - apply lev_triangle.
Qed.

(** ** More on name similarity *)

Lemma Q_of_nat_eq n m : (Q_of_nat n == Q_of_nat m)%Q -> n = m.
Proof. unfold Q_of_nat, Qeq. cbn. lia. Qed.

Lemma Q_of_nat_sub n m : m <= n -> (Q_of_nat (n - m) == Q_of_nat n - Q_of_nat m)%Q.
Proof.
  intros H. unfold Q_of_nat. rewrite Nat2Z.inj_sub by exact H.
  unfold Z.sub. now rewrite inject_Z_plus, inject_Z_opp.
Qed.

Lemma normalized_lengths_pos a b :
  normalize a <> normalize b ->
  0 < Nat.max (length (normalize a)) (length (normalize b)).
Proof.
  intros Hne. destruct (normalize a), (normalize b); cbn [length]; try lia. congruence.
Qed.

(** X4.  The similarity of two names is 1 exactly when they are equal
    after normalization. *)
Theorem calculateNameSimilarity_one_iff (a b : string) :
  (calculateNameSimilarity a b == 1)%Q <-> normalize a = normalize b.
Proof.
  rewrite calculateNameSimilarity_unfold.
  destruct (decide (normalize a = normalize b)) as [E|Hne];
    [split; [intros _; exact E | reflexivity]|].
  split; [|intros E; destruct (Hne E)]. intros H. exfalso.
  pose proof (Q_of_nat_pos _ (normalized_lengths_pos a b Hne)) as Hpos.
  assert (Q_of_nat (lev (rev (normalize a)) (rev (normalize b))) == Q_of_nat 0)%Q as H0.
  { set (M := Q_of_nat (Nat.max _ _)) in *. set (D := Q_of_nat (lev _ _)) in *.
    assert ((M - D) / M * M == M - D)%Q as E by (field; lra).
    rewrite H in E. change (Q_of_nat 0) with 0%Q. lra. }
  apply Q_of_nat_eq, lev_eq_0 in H0.
  apply Hne. now rewrite <- (rev_involutive (normalize a)), H0, rev_involutive.
Qed.

(** X5.  The similarity lies in [0,1], and it is 0 exactly when the
    normalized names differ and their distance is the length of the
    longer one (no character of the longer name is kept). *)
Theorem calculateNameSimilarity_range (a b : string) :
  (0 <= calculateNameSimilarity a b <= 1)%Q /\
  ((calculateNameSimilarity a b == 0)%Q <->
   normalize a <> normalize b /\
   editDistance (normalize a) (normalize b) =
     Nat.max (length (normalize a)) (length (normalize b))).
Proof.
  split; [apply calculateNameSimilarity_bounds|].
  rewrite calculateNameSimilarity_unfold, editDistance_lev.
  destruct (decide (normalize a = normalize b)) as [E|Hne].
  - split; [intros H; discriminate H | now intros [H _]].
  - pose proof (Q_of_nat_pos _ (normalized_lengths_pos a b Hne)) as Hpos.
    set (d := lev _ _) in *. set (M := Nat.max _ _) in *.
    assert ((Q_of_nat M - Q_of_nat d) / Q_of_nat M * Q_of_nat M
            == Q_of_nat M - Q_of_nat d)%Q as E by (field; lra).
    split.
    + intros H. split; [exact Hne|]. rewrite H in E.
      apply Q_of_nat_eq. lra.
    + intros [_ ->]. field. lra.
Qed.

Lemma calculateNameSimilarity_nil_l (a b : string) :
  normalize a = [] -> normalize b <> [] ->
  (calculateNameSimilarity a b == 0)%Q.
Proof.
  intros Ha Hb. rewrite calculateNameSimilarity_unfold, Ha.
  destruct (decide ([] = normalize b)) as [E|_]; [congruence|].
  cbn [rev length]. rewrite lev_nil_l, length_rev, Nat.max_0_l.
  assert (0 < Q_of_nat (length (normalize b)))%Q.
  { apply Q_of_nat_pos. destruct (normalize b); [congruence | cbn; lia]. }
  field. lra.
Qed.

(** X6.  A blank name has similarity 0 with every name that is not
    blank, whichever of the two arguments it is. *)
Theorem calculateNameSimilarity_blank (a b : string) :
  normalize a = [] -> normalize b <> [] ->
  (calculateNameSimilarity a b == 0)%Q /\ (calculateNameSimilarity b a == 0)%Q.
Proof.
  intros Ha Hb. split; [now apply calculateNameSimilarity_nil_l|].
  rewrite calculateNameSimilarity_unfold, Ha.
  destruct (decide (normalize b = [])) as [E|_]; [congruence|].
  cbn [rev length]. rewrite lev_nil_r, length_rev, Nat.max_0_r.
  assert (0 < Q_of_nat (length (normalize b)))%Q.
  { apply Q_of_nat_pos. destruct (normalize b); [congruence | cbn; lia]. }
  field. lra.
Qed.

Lemma calculateNameSimilarity_blank_witness :
  normalize "  " = [] /\ normalize "Bob Stone" <> [] /\
  (calculateNameSimilarity "  " "Bob Stone" == 0)%Q /\
  (calculateNameSimilarity "Bob Stone" "  " == 0)%Q.
Proof.
  assert (normalize "  " = []) as Ha by reflexivity.
  assert (normalize "Bob Stone" <> []) as Hb by (vm_compute; discriminate).
  split; [exact Ha|]. split; [exact Hb|].
  exact (calculateNameSimilarity_blank "  " "Bob Stone" Ha Hb).
Defined.

(** X7.  Normalization is idempotent: normalizing a normalized name
    changes nothing. *)
Theorem normalize_idempotent (str : string) :
  normalize (string_of_list_ascii (normalize str)) = normalize str.
Proof.
  rewrite <- (list_ascii_of_string_of_list_ascii (normalize str)) at 2.
  apply normalize_fixes_normalForm.
  rewrite list_ascii_of_string_of_list_ascii. apply normalize_normalForm.
Qed.

(** ** More on the overall score *)

Lemma Qeq_bool_sym a b : Qeq_bool a b = Qeq_bool b a.
Proof.
  destruct (Qeq_bool b a) eqn:E.
  - apply Qeq_bool_iff. apply Qeq_bool_iff in E. now symmetry.
  - destruct (Qeq_bool a b) eqn:E'; [|reflexivity].
    apply Qeq_bool_iff in E'. symmetry in E'. apply Qeq_bool_iff in E'. congruence.
Qed.



(** X9.  When nothing can be compared (the query has no name, no age
    and no country, and none of the five scored keys carries a value
    on both sides) the overall score is 0. *)
Theorem calculateOverallMatchScore_nothing_to_compare
    (q : PartialPatient) (c : PatientDocument) :
  truthy_str (p_name q) = false -> p_age q = None -> p_country q = None ->
  identifierComponent fields q c = None ->
  (calculateOverallMatchScore q c == 0)%Q.
Proof.
  intros Hn Ha Hc Hi. rewrite calculateOverallMatchScore_spec.
  unfold specOverallScore, renormalized, nameComponent, ageComponent, countryComponent.
  rewrite Hn, Ha, Hc, Hi. reflexivity.
Qed.

Lemma calculateOverallMatchScore_nothing_to_compare_witness :
  (calculateOverallMatchScore emptyDataOnly bobStone == 0)%Q.
Proof.
  apply (calculateOverallMatchScore_nothing_to_compare emptyDataOnly bobStone);
    reflexivity.
Defined.

(** ** More on validation *)

Lemma pushIf_app b msg errors rest :
  pushIf b msg (errors ++ rest) = errors ++ pushIf b msg rest.
Proof. unfold pushIf. destruct b; [now rewrite app_assoc | reflexivity]. Qed.

Lemma validate_app data errors rest :
  validateCountrySpecificFields data (errors ++ rest) =
  errors ++ validateCountrySpecificFields data rest.
Proof.
  unfold validateCountrySpecificFields.
  destruct (p_country data) as [c|]; [|reflexivity].
  destruct (p_countryData data) as [cd|]; [|reflexivity].
  destruct c; cbv zeta; rewrite !pushIf_app.
  - destruct (nhsNumber cd) as [v|]; [destruct (truthy_str (Some v))|];
      rewrite <- ?app_assoc, ?pushIf_app; reflexivity.
  - destruct (ssn cd) as [v|]; rewrite ?pushIf_app; reflexivity.
  - reflexivity.
  - reflexivity.
Qed.

(** X10.  Validation only appends: the errors already in the array
    stay where they are, and what is added does not depend on them. *)
Theorem validate_appends (data : PartialPatient) (errors : list string) :
  validateCountrySpecificFields data errors =
  errors ++ validateCountrySpecificFields data [].
Proof.
  rewrite <- (validate_app data errors []). now rewrite app_nil_r.
Qed.

(** X11.  Validation reports at most four errors, never the same one
    twice, and never both that the NHS number is required and that it
    is malformed. *)
Theorem validate_errors_distinct (data : PartialPatient) :
  NoDup (validateCountrySpecificFields data []) /\
  length (validateCountrySpecificFields data []) <= 4 /\
  ~ (In "NHS Number is required"%string (validateCountrySpecificFields data []) /\
     In "NHS Number must be 10 digits"%string (validateCountrySpecificFields data [])).
Proof.
  unfold validateCountrySpecificFields, pushIf.
  destruct (p_country data) as [c|]; cycle 1.
  { cbn. split; [constructor|]. split; [lia | tauto]. }
  destruct (p_countryData data) as [cd|]; cycle 1.
  { cbn. split; [constructor|]. split; [lia | tauto]. }
  destruct c; destruct (truthy_str (p_name data)), (truthy_num (p_age data));
    cbn [negb app].
  1-4: destruct (nhsNumber cd) as [v|];
       [destruct (truthy_str (Some v)); [destruct (test_nhsNumber v)|]|].
  17-20: destruct (truthy_str (mrn cd));
         (destruct (ssn cd) as [s|];
          [destruct (truthy_str (Some s)); [destruct (test_ssn s)|]|]).
  49-52: destruct (truthy_str (hospitalUidAadhaar cd)).
  57-60: destruct (truthy_str (hospitalPatientID cd)).
  all: cbn [negb andb app length];
    (split; [apply (bool_decide_unpack _); vm_compute; exact I|]);
    (split; [lia|]); cbn [In]; intuition discriminate.
Qed.

(** ** Duplicate analysis *)

Lemma suggestNames_loop searchName dups :
  forall acc,
    fold_left
      (fun suggestions duplicate =>
         if Qgtb (calculateNameSimilarity searchName (name duplicate)) (8 # 10)
         then suggestions ++
              [mkSuggestion "name" (name duplicate)
                 (calculateNameSimilarity searchName (name duplicate))]
         else suggestions)
      dups acc =
    acc ++ map (fun d => mkSuggestion "name" (name d)
                           (calculateNameSimilarity searchName (name d)))
               (List.filter
                  (fun d => Qgtb (calculateNameSimilarity searchName (name d)) (8 # 10))
                  dups).
Proof.
  induction dups as [|d dups IH]; intros acc; cbn [fold_left List.filter map].
  - now rewrite app_nil_r.
  - rewrite IH. destruct (Qgtb _ (8 # 10)); [cbn [map]; now rewrite <- app_assoc | reflexivity].
Qed.

Lemma suggestNames_filter searchName dups :
  suggestNames searchName dups =
  map (fun d => mkSuggestion "name" (name d)
                  (calculateNameSimilarity searchName (name d)))
      (List.filter
         (fun d => Qgtb (calculateNameSimilarity searchName (name d)) (8 # 10))
         dups).
Proof. unfold suggestNames. now rewrite suggestNames_loop. Qed.

Lemma filter_none {A} (f : A -> bool) l :
  (forall x, In x l -> f x = false) -> List.filter f l = [].
Proof.
  induction l as [|x l IH]; intros H; [reflexivity|].
  cbn [List.filter]. rewrite (H x) by now left.
  apply IH. intros y Hy. apply H. now right.
Qed.

Section AnalysisProperties.

Variable db : list PatientDocument.
Variable RegExp_i : string -> option (string -> bool).
Variable textFind :
  list PatientDocument -> string -> option Country -> list nat -> list PatientDocument.

Lemma analyzeDuplicates_inv r tr res tr' :
  analyzeDuplicates db RegExp_i textFind r tr = (Returned res, tr') ->
  findDuplicates db RegExp_i textFind r tr = (Returned (duplicatePatients res), tr') /\
  isDuplicate res = (0 <? length (duplicatePatients res)) /\
  suggestions res =
    (if 0 <? length (duplicatePatients res)
     then suggestNames (orEmpty (p_name r)) (duplicatePatients res) else []) /\
  validationErrors res = validateCountrySpecificFields r [].
Proof.
  unfold analyzeDuplicates, bind.
  destruct (findDuplicates db RegExp_i textFind r tr) as [[ds|e] t]; [|discriminate].
  unfold ret. intros [= <- <-]. cbn. auto.
Qed.

Lemma findDuplicates_stored r tr ds tr' :
  findDuplicates db RegExp_i textFind r tr = (Returned ds, tr') ->
  forall d, In d ds -> In d db.
Proof.
  intros H d Hd.
  apply findDuplicates_inv in H as [(H & _)|[(H & _)|(H & _)]]; [discriminate|..];
    injection H as ->; [destruct Hd|].
  now apply in_answer_Or in Hd as [Hd _].
Qed.

(** X12.  A stored record that holds the same non-empty nhsNumber,
    mrn, hospitalUidAadhaar or ssn as the submitted record is always
    reported: the analysis returns with [isDuplicate] set and that
    record among the duplicates.  The name has to be a well-formed
    regular expression only when it is used as one, that is when name,
    age and country are all given. *)
Theorem analyzeDuplicates_flags_shared_identifier
    (r : PartialPatient) (d : PatientDocument) (k v : string) (tr : list Query) :
  (hasNameAgeCountry r -> validName RegExp_i r) -> In d db -> In k uniqueFields ->
  carries r k v -> holds d k v ->
  exists res tr',
    analyzeDuplicates db RegExp_i textFind r tr = (Returned res, tr') /\
    isDuplicate res = true /\ In d (duplicatePatients res).
Proof.
  intros Hvalid Hd Hk Hc Hh.
  assert (In d (answer db RegExp_i textFind (Or (duplicateClauses r)))) as Hin.
  { apply in_answer_Or. split; [exact Hd|].
    apply meets_duplicateClause. left. exists k, v. auto. }
  assert (duplicateClauses r <> []) as Hne.
  { intros E. apply in_answer_Or in Hin as (_ & cl & Hcl & _). rewrite E in Hcl.
    destruct Hcl. }
  unfold analyzeDuplicates, bind.
  destruct (findDuplicates db RegExp_i textFind r tr) as [out tr'] eqn:E.
  pose proof (findDuplicates_inv db RegExp_i textFind r tr out tr' E)
    as [(-> & _ & Hall)|[(_ & _ & Hnil)|(-> & _ & _)]].
  - rewrite (findDuplicates_returns db RegExp_i textFind r tr (Hvalid Hall)) in E.
    destruct (length (duplicateClauses r) =? 0); discriminate E.
  - contradiction.
  - unfold ret. do 2 eexists. split; [reflexivity|].
    cbn [isDuplicate duplicatePatients]. split; [|exact Hin].
    apply Nat.ltb_lt. destruct (answer _ _ _ _); [destruct Hin | cbn; lia].
Qed.

(** X13.  Whenever the analysis returns, [isDuplicate] is set exactly
    when a duplicate was found, every duplicate is a stored record,
    and the validation errors are those of the record alone: they do
    not depend on the store or on the duplicates found. *)
Theorem analyzeDuplicates_independent_signals
    (r : PartialPatient) (tr tr' : list Query) (res : DuplicateAnalysis) :
  analyzeDuplicates db RegExp_i textFind r tr = (Returned res, tr') ->
  (isDuplicate res = true <-> duplicatePatients res <> []) /\
  (forall d, In d (duplicatePatients res) -> In d db) /\
  validationErrors res = validateCountrySpecificFields r [].
Proof.
  intros H. apply analyzeDuplicates_inv in H as (Hf & Hd & _ & Hv).
  split; [|split; [|exact Hv]].
  - rewrite Hd. destruct (duplicatePatients res); cbn; split; congruence.
  - eapply findDuplicates_stored, Hf.
Qed.

(** X14.  Whenever the analysis returns, every suggestion is for the
    field "name", proposes the name of one of the duplicates found,
    and carries as confidence the similarity of that name to the
    submitted one, which is above 0.8 and at most 1; there are never
    more suggestions than duplicates. *)
Theorem analyzeDuplicates_suggestions
    (r : PartialPatient) (tr tr' : list Query) (res : DuplicateAnalysis) :
  analyzeDuplicates db RegExp_i textFind r tr = (Returned res, tr') ->
  Forall (fun s =>
            field s = "name"%string /\
            (8 # 10 < confidence s <= 1)%Q /\
            exists d, In d (duplicatePatients res) /\
                      suggestedValue s = name d /\
                      confidence s =
                        calculateNameSimilarity (orEmpty (p_name r)) (name d))
         (suggestions res) /\
  length (suggestions res) <= length (duplicatePatients res).
Proof.
  intros H. apply analyzeDuplicates_inv in H as (_ & _ & Hs & _). rewrite Hs.
  destruct (0 <? length (duplicatePatients res)); [|split; [constructor | cbn; lia]].
  rewrite suggestNames_filter. split.
  - apply List.Forall_forall. intros s (d & <- & Hd)%in_map_iff.
    apply List.filter_In in Hd as [Hd Hgt]. apply Qgtb_spec in Hgt.
    cbn [field confidence suggestedValue]. split; [reflexivity|]. split.
    + split; [exact Hgt | apply calculateNameSimilarity_bounds].
    + exists d. auto.
  - rewrite length_map. apply List.filter_length_le.
Qed.

(** X15.  A record without a name gets no suggestion, as long as no
    stored record has a blank name. *)
Theorem analyzeDuplicates_no_name_no_suggestion
    (r : PartialPatient) (tr tr' : list Query) (res : DuplicateAnalysis) :
  analyzeDuplicates db RegExp_i textFind r tr = (Returned res, tr') ->
  truthy_str (p_name r) = false ->
  (forall d, In d db -> normalize (name d) <> []) ->
  suggestions res = [].
Proof.
  intros H Hn Hdb. apply analyzeDuplicates_inv in H as (Hf & _ & Hs & _). rewrite Hs.
  destruct (0 <? length (duplicatePatients res)); [|reflexivity].
  rewrite suggestNames_filter.
  assert (orEmpty (p_name r) = ""%string) as ->.
  { destruct (p_name r) as [n|]; [|reflexivity]. cbn in Hn.
    apply negb_false_iff in Hn. cbn. now destruct (String.eqb_spec n ""). }
  assert (forall d, In d (duplicatePatients res) ->
                    Qgtb (calculateNameSimilarity "" (name d)) (8 # 10) = false) as Hlow.
  { intros d Hd. apply Qgtb_false.
    rewrite (calculateNameSimilarity_nil_l "" (name d) eq_refl).
    - intros Hgt. discriminate Hgt.
    - apply Hdb. eapply findDuplicates_stored; eassumption. }
  now rewrite (filter_none _ _ Hlow).
Qed.

End AnalysisProperties.

Lemma analyzeDuplicates_flags_shared_identifier_witness :
  ~ validName parenRegExp_i parenWithBobsNumber /\
  exists res tr',
    analyzeDuplicates sampleDb parenRegExp_i wordTextFind parenWithBobsNumber [] =
      (Returned res, tr') /\
    isDuplicate res = true /\ In bobStone (duplicatePatients res).
Proof.
  split.
  - intros H. destruct (H "("%string eq_refl ltac:(discriminate)) as [test Htest].
    discriminate Htest.
  - apply (analyzeDuplicates_flags_shared_identifier sampleDb parenRegExp_i wordTextFind
             parenWithBobsNumber bobStone "nhsNumber" "3456789012" []).
    + intros (_ & Hage & _). discriminate Hage.
    + cbn. tauto.
    + now left.
    + exists (ukData "3456789012"). repeat split. discriminate.
    + exists (ukData "3456789012"). split; reflexivity.
Defined.

Lemma analyzeDuplicates_on_bobsNumberOnly :
  analyzeDuplicates sampleDb literalRegExp_i wordTextFind bobsNumberOnly [] =
  (Returned (mkAnalysis true [bobStone] [] ["Name is required"; "Age is required"]%string),
   [Or [[CountryDataIs "nhsNumber" "3456789012"]]]).
Proof. vm_compute. reflexivity. Qed.

Lemma analyzeDuplicates_independent_signals_witness :
  let res := mkAnalysis true [bobStone] [] ["Name is required"; "Age is required"]%string in
  (isDuplicate res = true <-> duplicatePatients res <> []) /\
  (forall d, In d (duplicatePatients res) -> In d sampleDb) /\
  validationErrors res = validateCountrySpecificFields bobsNumberOnly [].
Proof.
  intros res.
  exact (analyzeDuplicates_independent_signals sampleDb literalRegExp_i wordTextFind
           bobsNumberOnly [] _ res analyzeDuplicates_on_bobsNumberOnly).
Defined.

Lemma analyzeDuplicates_on_bobStome :
  analyzeDuplicates sampleDb literalRegExp_i wordTextFind bobStomeWithNumber [] =
  (Returned (mkAnalysis true [bobStone] [mkSuggestion "name" "Bob Stone" (8 # 9)]
               ["Age is required"%string]),
   [Or [[CountryDataIs "nhsNumber" "3456789012"]]]).
Proof. vm_compute. reflexivity. Qed.

Lemma analyzeDuplicates_suggestions_witness :
  let res := mkAnalysis true [bobStone] [mkSuggestion "name" "Bob Stone" (8 # 9)]
               ["Age is required"%string] in
  Forall (fun s =>
            field s = "name"%string /\
            (8 # 10 < confidence s <= 1)%Q /\
            exists d, In d (duplicatePatients res) /\
                      suggestedValue s = name d /\
                      confidence s =
                        calculateNameSimilarity (orEmpty (p_name bobStomeWithNumber))
                          (name d))
         (suggestions res) /\
  length (suggestions res) <= length (duplicatePatients res).
Proof.
  intros res.
  exact (analyzeDuplicates_suggestions sampleDb literalRegExp_i wordTextFind
           bobStomeWithNumber [] _ res analyzeDuplicates_on_bobStome).
Defined.

Lemma sampleDb_names_not_blank d : In d sampleDb -> normalize (name d) <> [].
Proof.
  intros [<-|[<-|[<-|[<-|[]]]]]; vm_compute; discriminate.
Qed.

Lemma analyzeDuplicates_no_name_no_suggestion_witness :
  suggestions (mkAnalysis true [bobStone] []
                 ["Name is required"; "Age is required"]%string) = [].
Proof.
  exact (analyzeDuplicates_no_name_no_suggestion sampleDb literalRegExp_i wordTextFind
           bobsNumberOnly [] _ _ analyzeDuplicates_on_bobsNumberOnly eq_refl
           sampleDb_names_not_blank).
Defined.

(** ** More on [findMatches] and its handler *)

Lemma in_omap {A B} (f : A -> option B) (l : list A) (y : B) :
  In y (omap f l) <-> exists x, In x l /\ f x = Some y.
Proof.
  induction l as [|x l IH]; cbn [omap list_omap In].
  - split; [intros [] | now intros (x & [] & _)].
  - destruct (f x) as [z|] eqn:E; cbn [In]; rewrite IH; split.
    + intros [<-|(x' & Hx' & Hf)]; [exists x | exists x']; auto.
    + intros (x' & [<-|Hx'] & Hf); [left; congruence | right; eauto].
    + intros (x' & Hx' & Hf). eauto.
    + intros (x' & [<-|Hx'] & Hf); [congruence | eauto].
Qed.

Lemma in_keptCandidates r results pm :
  In pm (keptCandidates r results) -> In (patient pm) results.
Proof.
  unfold keptCandidates. intros (d & <- & Hd)%in_map_iff.
  now apply List.filter_In in Hd as [Hd _].
Qed.

Lemma wordTextFind_honoursNin : honoursNin wordTextFind.
Proof.
  intros db search scope nin d i Hd Hi Hin. unfold wordTextFind in Hd.
  apply List.filter_In in Hd as [_ Hd]. rewrite Hi in Hd.
  apply andb_true_iff in Hd as [_ Hd]. apply negb_true_iff in Hd.
  assert (existsb (Nat.eqb i) nin = true) as E.
  { apply existsb_exists. exists i. split; [exact Hin | apply Nat.eqb_refl]. }
  congruence.
Qed.

Section MoreMatchProperties.

Variable db : list PatientDocument.
Variable RegExp_i : string -> option (string -> bool).
Variable textFind :
  list PatientDocument -> string -> option Country -> list nat -> list PatientDocument.

Lemma nameThrows_false r : nameThrows RegExp_i r = false <-> validName RegExp_i r.
Proof.
  unfold nameThrows, validName. destruct (p_name r) as [n|].
  - destruct (truthy_str (Some n)) eqn:Hn; cbn [andb].
    + destruct (RegExp_i n) as [test|] eqn:E; split; try discriminate; try reflexivity.
      * intros _ n' [= <-] _. eauto.
      * intros H. apply truthy_str_Some in Hn. destruct (H n eq_refl Hn) as [t Ht].
        congruence.
    + split; [|reflexivity]. intros _ n' [= <-] Hne.
      apply truthy_str_Some in Hne. congruence.
  - split; [|reflexivity]. now intros _ n [=].
Qed.

Lemma findMatches_throws r tr :
  nameThrows RegExp_i r = true ->
  findMatches db RegExp_i textFind r tr = (Thrown "SyntaxError", tr).
Proof.
  unfold nameThrows, findMatches, bind at 1, setName.
  destruct (p_name r) as [n|]; [|discriminate].
  destruct (truthy_str (Some n)); [|discriminate]. cbn [andb].
  unfold bind, newRegExp. destruct (RegExp_i n); [discriminate | reflexivity].
Qed.

(** X16.  The answers of [POST /match].  It answers 400 exactly when
    the record has neither a name nor a countryData object, and then
    nothing was sent to the store.  When the name is not a well-formed
    regular expression it answers 500 before anything was sent to the
    store, since the expression is built first; a 500 answer given
    without any query having been sent has no other cause.  A 200
    answer carries what [findMatches] returned.  (The store of the
    model answers every query.  A query that the store rejects is
    answered 500 as well, after it was sent; the theorem says nothing
    of that case.) *)
Theorem matchHandler_responses (r : PartialPatient) (tr : list Query) :
  let response := matchHandler db RegExp_i textFind r tr in
  (truthy_str (p_name r) = false /\ p_countryData r = None ->
   exists e, response = (Json400 e, tr)) /\
  (forall e tr', response = (Json400 e, tr') ->
     tr' = tr /\ truthy_str (p_name r) = false /\ p_countryData r = None) /\
  (nameThrows RegExp_i r = true -> exists e, response = (Json500 e, tr)) /\
  (forall e, response = (Json500 e, tr) -> nameThrows RegExp_i r = true) /\
  (forall res tr', response = (Json200 res, tr') ->
     findMatches db RegExp_i textFind r tr = (Returned res, tr')).
Proof.
  cbv zeta. unfold matchHandler.
  assert (truthy_str (p_name r) = false -> nameThrows RegExp_i r = false) as Hno.
  { intros Hn. unfold nameThrows. destruct (p_name r); [now rewrite Hn | reflexivity]. }
  destruct (truthy_str (p_name r)) eqn:Hn; cbn [negb andb].
  - destruct (nameThrows RegExp_i r) eqn:Ht.
    + rewrite (findMatches_throws r tr Ht).
      split; [intros [? _]; discriminate|].
      split; [intros ? ? ?; discriminate|].
      split; [eauto|].
      split; [reflexivity|intros ? ? ?; discriminate].
    + pose proof (findMatches_returns db RegExp_i textFind r tr (proj1 (nameThrows_false r) Ht)) as E.
      cbv zeta in E. rewrite E.
      split; [intros [? _]; discriminate|].
      split; [intros ? ? ?; discriminate|].
      split; [discriminate|].
      split; [intros ? ?; discriminate|].
      intros res tr' [= <- <-]. reflexivity.
  - specialize (Hno eq_refl).
    destruct (p_countryData r) as [cd|] eqn:Hd; cbn [truthy negb].
    + pose proof (findMatches_returns db RegExp_i textFind r tr (proj1 (nameThrows_false r) Hno)) as E.
      cbv zeta in E. rewrite E.
      split; [intros [_ ?]; discriminate|].
      split; [intros ? ? ?; discriminate|].
      split; [rewrite Hno; discriminate|].
      split; [intros ? ?; discriminate|].
      intros res tr' [= <- <-]. reflexivity.
    + split; [eauto|].
      split; [intros e tr' [= _ <-]; auto|].
      split; [rewrite Hno; discriminate|].
      split; [intros ? ?; discriminate|].
      intros ? ? ?; discriminate.
Qed.

(** X17.  Whenever [findMatches] returns, it has issued its exact
    query first and then, only if the record has a name, one text
    query for that name, scoped to the record's country and excluding
    exactly the identities of the exact matches.  Without a name there
    is no text query and no partial match. *)
Theorem findMatches_queries (r : PartialPatient) (tr tr' : list Query) (res : MatchResult) :
  findMatches db RegExp_i textFind r tr = (Returned res, tr') ->
  tr' = tr ++ Filter (exactConds r) :: textQueries r (exactMatches res) /\
  (forall n, p_name r = Some n -> n <> ""%string ->
     textQueries r (exactMatches res) =
     [Text n (p_country r) (omap _id (exactMatches res))]) /\
  (truthy_str (p_name r) = false ->
   textQueries r (exactMatches res) = [] /\ partialMatches res = []).
Proof.
  intros H. pose proof (findMatches_inv db RegExp_i textFind r tr res tr' H) as Hvalid.
  rewrite (findMatches_returns db RegExp_i textFind r tr Hvalid) in H. cbv zeta in H.
  injection H as <- <-. cbn [exactMatches partialMatches].
  split; [reflexivity|]. unfold textQueries. split.
  - intros n -> Hne. now rewrite (proj2 (truthy_str_Some n) Hne).
  - intros Hn. destruct (p_name r) as [n|]; [rewrite Hn|]; split; reflexivity.
Qed.

(** X18.  When the record gives name, age and country, every exact
    match of [findMatches] is also a duplicate for
    [findDuplicates]. *)
Theorem exactMatches_are_duplicates (r : PartialPatient) (tr : list Query) :
  validName RegExp_i r -> hasNameAgeCountry r ->
  exists ds res tr1 tr2,
    findDuplicates db RegExp_i textFind r tr = (Returned ds, tr1) /\
    findMatches db RegExp_i textFind r tr = (Returned res, tr2) /\
    forall d, In d (exactMatches res) -> In d ds.
Proof.
  intros Hvalid (Hn & Ha & Hc).
  rewrite (findDuplicates_returns db RegExp_i textFind r tr Hvalid).
  rewrite (findMatches_returns db RegExp_i textFind r tr Hvalid). cbv zeta.
  assert (forall d, In d (answer db RegExp_i textFind (Filter (exactConds r))) ->
                    In d (answer db RegExp_i textFind (Or (duplicateClauses r)))) as Hsub.
  { intros d [Hd Hm]%in_answer_Filter. apply meets_exactConds in Hm as (H1 & H2 & H3 & _).
    apply in_answer_Or. split; [exact Hd|]. apply meets_duplicateClause. right.
    destruct (p_name r) as [n|] eqn:En; [|discriminate].
    destruct (p_age r) as [a|] eqn:Ea; [|discriminate].
    destruct (p_country r) as [c|] eqn:Ec; [|discriminate].
    apply truthy_str_Some in Hn. apply truthy_num_Some in Ha.
    exists n, a, c. repeat split; auto. }
  destruct (duplicateClauses r) as [|cl cls] eqn:E; cbn [length Nat.eqb].
  - exfalso. unfold duplicateClauses, nameAgeCountryClause in E.
    destruct (p_name r) as [n|]; [|discriminate].
    destruct (p_age r) as [a|]; [|discriminate].
    destruct (p_country r) as [c|]; [|discriminate].
    rewrite Hn, Ha in E. cbn [andb] in E. now apply app_eq_nil in E as [_ E].
  - do 4 eexists. split; [reflexivity|]. split; [reflexivity|]. exact Hsub.
Qed.

(** X19.  Provided the store honours [$nin], no stored record with an
    identity is returned both as an exact match and as a partial
    match. *)
Theorem exact_and_partial_disjoint (r : PartialPatient) (tr tr' : list Query)
    (res : MatchResult) :
  honoursNin textFind ->
  findMatches db RegExp_i textFind r tr = (Returned res, tr') ->
  forall pm d i,
    In pm (partialMatches res) -> In d (exactMatches res) ->
    _id (patient pm) = Some i -> _id d <> Some i.
Proof.
  intros Hnin H pm d i Hpm Hd Hi Hdi.
  pose proof (findMatches_inv db RegExp_i textFind r tr res tr' H) as Hvalid.
  rewrite (findMatches_returns db RegExp_i textFind r tr Hvalid) in H. cbv zeta in H.
  injection H as <- _. cbn [exactMatches partialMatches] in *.
  apply (Permutation_in _ (sortBy_Permutation _ _)) in Hpm.
  unfold textQueries in Hpm. destruct (p_name r) as [n|]; [|destruct Hpm].
  destruct (truthy_str (Some n)); [|destruct Hpm].
  rewrite scoreResults_kept in Hpm. apply in_keptCandidates in Hpm.
  apply (Hnin _ _ _ _ _ i Hpm Hi). apply in_omap. eauto.
Qed.

End MoreMatchProperties.

Lemma findMatches_on_johnSmithUK :
  findMatches sampleDb literalRegExp_i wordTextFind johnSmithUK [] =
  (Returned
     (mkMatchResult [] johnSmithRanking),
   [Filter [NameRegExp "John Smith"; CountryIs UK]; Text "John Smith" (Some UK) []]).
Proof. vm_compute. reflexivity. Qed.

Lemma findMatches_queries_witness :
  [Filter [NameRegExp "John Smith"; CountryIs UK]; Text "John Smith" (Some UK) []] =
  [] ++ Filter (exactConds johnSmithUK) :: textQueries johnSmithUK [].
Proof.
  exact (proj1 (findMatches_queries sampleDb literalRegExp_i wordTextFind johnSmithUK
                  [] _ _ findMatches_on_johnSmithUK)).
Defined.

Lemma exactMatches_are_duplicates_witness :
  exists ds res tr1 tr2,
    findDuplicates sampleDb literalRegExp_i wordTextFind bobNameAgeCountry [] =
      (Returned ds, tr1) /\
    findMatches sampleDb literalRegExp_i wordTextFind bobNameAgeCountry [] =
      (Returned res, tr2) /\
    forall d, In d (exactMatches res) -> In d ds.
Proof.
  apply (exactMatches_are_duplicates sampleDb literalRegExp_i wordTextFind
           bobNameAgeCountry []).
  - apply literalRegExp_i_valid.
  - repeat split.
Defined.

Lemma findMatches_on_johnSmythAged30 :
  findMatches sampleDb literalRegExp_i wordTextFind johnSmythAged30 [] =
  (Returned
     (mkMatchResult [johnSmyth30] [mkPartialMatch johnSmyth41 0.71428571428571419%float]),
   [Filter [NameRegExp "John Smyth"; AgeIs 30; CountryIs UK];
    Text "John Smyth" (Some UK) [1]]).
Proof. vm_compute. reflexivity. Qed.

Lemma exact_and_partial_disjoint_witness :
  honoursNin wordTextFind /\ _id johnSmyth30 <> Some 2.
Proof.
  split; [exact wordTextFind_honoursNin|].
  apply (exact_and_partial_disjoint sampleDb literalRegExp_i wordTextFind johnSmythAged30
           [] _ _ wordTextFind_honoursNin findMatches_on_johnSmythAged30
           (mkPartialMatch johnSmyth41 0.71428571428571419%float) johnSmyth30 2);
    [now left | now left | reflexivity].
Defined.

(** ** The handler [POST /analyze] *)

Section AnalyzeHandlerProperties.

Variable db : list PatientDocument.
Variable RegExp_i : string -> option (string -> bool).
Variable textFind :
  list PatientDocument -> string -> option Country -> list nat -> list PatientDocument.

Lemma analyzeDuplicates_throws_inv r tr e tr' :
  analyzeDuplicates db RegExp_i textFind r tr = (Thrown e, tr') ->
  tr' = tr /\ hasNameAgeCountry r /\ ~ validName RegExp_i r.
Proof.
  intros H.
  assert (findDuplicates db RegExp_i textFind r tr = (Thrown e, tr')) as Hf.
  { unfold analyzeDuplicates, bind in H.
    destruct (findDuplicates db RegExp_i textFind r tr) as [[ds|e'] t]; [discriminate|].
    now injection H as -> ->. }
  split; [|split].
  - apply findDuplicates_inv in Hf as [(_ & -> & _)|[(E & _)|(E & _)]];
      [reflexivity | discriminate..].
  - apply findDuplicates_inv in Hf as [(_ & _ & Hall)|[(E & _)|(E & _)]];
      [exact Hall | discriminate..].
  - intros Hvalid. rewrite (findDuplicates_returns db RegExp_i textFind r tr Hvalid) in Hf.
    destruct (length (duplicateClauses r) =? 0); discriminate.
Qed.

Lemma analyzeDuplicates_throws r tr :
  hasNameAgeCountry r -> ~ validName RegExp_i r ->
  analyzeDuplicates db RegExp_i textFind r tr = (Thrown "SyntaxError", tr).
Proof.
  intros (Hn & Ha & Hc) Hinv.
  unfold analyzeDuplicates, bind, findDuplicates, bind, pushNameAgeCountry.
  destruct (p_name r) as [n|] eqn:En; [|discriminate Hn].
  destruct (p_age r) as [a|]; [|discriminate Ha].
  destruct (p_country r) as [c|]; [|discriminate Hc].
  rewrite Hn, Ha. cbn [andb]. unfold bind, newRegExp.
  destruct (RegExp_i n) as [test|] eqn:Et; [|reflexivity].
  exfalso. apply Hinv. unfold validName. rewrite En.
  intros n' Hn' _. injection Hn' as <-. eauto.
Qed.

(** X20.  The answers of [POST /analyze].  It answers 400, touching
    neither the store nor the log, exactly when [extractedData] or
    [country] is missing.  When name, age and country are all given and
    the name is not a well-formed regular expression it answers 500
    before anything was sent to the store, and a 500 answer never
    comes with a log entry written.  A 200 answer carries the analysis
    of the record under the request's country (which replaces any
    country inside [extractedData]) and comes with exactly one log
    entry appended.  (The store and the log collection of the model
    accept whatever they are sent.  A query or a log entry that is
    rejected is answered 500 as well; the theorem says nothing of that
    case beyond the log being left as it was.) *)
Theorem analyzeHandler_responses (googleFormUrl : option string)
    (extractedData : option PartialPatient) (country : option Country)
    (tr : list Query) (logs : list ExtractionLogEntry) :
  let response :=
    analyzeHandler db RegExp_i textFind googleFormUrl extractedData country (tr, logs) in
  (extractedData = None \/ country = None ->
   exists err, response = (AnalyzeJson400 err, (tr, logs))) /\
  (forall err st', response = (AnalyzeJson400 err, st') ->
     st' = (tr, logs) /\ (extractedData = None \/ country = None)) /\
  (forall e c, extractedData = Some e -> country = Some c ->
     hasNameAgeCountry (withCountry e c) -> ~ validName RegExp_i (withCountry e c) ->
     exists err, response = (AnalyzeJson500 err, (tr, logs))) /\
  (forall err tr' logs', response = (AnalyzeJson500 err, (tr', logs')) -> logs' = logs) /\
  (forall analysis tr' logs', response = (AnalyzeJson200 analysis, (tr', logs')) ->
     exists e c, extractedData = Some e /\ country = Some c /\
       analyzeDuplicates db RegExp_i textFind (withCountry e c) tr =
         (Returned analysis, tr') /\
       logs' = logs ++ [mkLogEntry (orUnknown googleFormUrl) e (statusOf analysis)
                          (omap _id (duplicatePatients analysis))]).
Proof.
  cbv zeta. unfold analyzeHandler.
  destruct extractedData as [e|].
  2:{ split; [eauto|].
      split; [intros err st' [= _ <-]; auto|].
      split; [intros ? ? ?; discriminate|].
      split; intros ? ? ? ?; discriminate. }
  destruct country as [c|].
  2:{ split; [eauto|].
      split; [intros err st' [= _ <-]; auto|].
      split; [intros ? ? ? ?; discriminate|].
      split; intros ? ? ? ?; discriminate. }
  destruct (analyzeDuplicates db RegExp_i textFind (withCountry e c) tr)
    as [[analysis|err] tr'] eqn:E.
  - split; [intros [?|?]; discriminate|].
    split; [intros ? ? ?; discriminate|].
    split.
    { intros e0 c0 [= <-] [= <-] Hall Hinv.
      rewrite (analyzeDuplicates_throws _ tr Hall Hinv) in E. discriminate E. }
    split; [intros ? ? ? ?; discriminate|].
    intros analysis0 tr0 logs0 [= <- <- <-]. exists e, c. auto.
  - apply analyzeDuplicates_throws_inv in E as (-> & Hall & Hinv).
    split; [intros [?|?]; discriminate|].
    split; [intros ? ? ?; discriminate|].
    split; [eauto|].
    split; [intros err0 tr0 logs0 [= _ _ <-]; reflexivity|].
    intros ? ? ? ?; discriminate.
Qed.

(** X21.  The entry [POST /analyze] writes to the extraction log: its
    status is [duplicate_found] exactly when a duplicate was found,
    [partial] exactly when there is no duplicate but a validation
    error, [success] exactly when there is neither, and never
    [failed]; it lists the identities of the duplicates, and its URL is
    "unknown" when the request gave none. *)
Theorem analyzeHandler_log_entry (googleFormUrl : option string)
    (e : PartialPatient) (c : Country) (tr tr' : list Query)
    (logs logs' : list ExtractionLogEntry) (analysis : DuplicateAnalysis) :
  analyzeHandler db RegExp_i textFind googleFormUrl (Some e) (Some c) (tr, logs) =
    (AnalyzeJson200 analysis, (tr', logs')) ->
  exists entry,
    logs' = logs ++ [entry] /\
    (log_extractionStatus entry = duplicate_found <-> duplicatePatients analysis <> []) /\
    (log_extractionStatus entry = partial <->
     duplicatePatients analysis = [] /\
     validateCountrySpecificFields (withCountry e c) [] <> []) /\
    (log_extractionStatus entry = success <->
     duplicatePatients analysis = [] /\
     validateCountrySpecificFields (withCountry e c) [] = []) /\
    log_extractionStatus entry <> failed /\
    log_duplicatePatients entry = omap _id (duplicatePatients analysis) /\
    log_extractedData entry = e /\
    (truthy_str googleFormUrl = false -> log_googleFormUrl entry = "unknown"%string).
Proof.
  unfold analyzeHandler.
  destruct (analyzeDuplicates db RegExp_i textFind (withCountry e c) tr)
    as [[a|err] t] eqn:E; [|discriminate].
  intros [= <- <- <-].
  apply analyzeDuplicates_inv in E as (_ & Hd & _ & Hv).
  eexists. split; [reflexivity|].
  cbn [log_extractionStatus log_duplicatePatients log_extractedData log_googleFormUrl].
  unfold statusOf. rewrite Hd, Hv.
  destruct (duplicatePatients a) as [|d ds]; cbn [length Nat.ltb Nat.leb].
  - destruct (validateCountrySpecificFields (withCountry e c) []) as [|m ms];
      cbn [length Nat.ltb Nat.leb];
      repeat split; try congruence; try tauto; try discriminate;
      try (intros [_ H]; congruence); try (intros [H _]; congruence);
      unfold orUnknown; intros ->; reflexivity.
  - repeat split; try congruence; try discriminate;
      try (intros [H _]; discriminate);
      unfold orUnknown; intros ->; reflexivity.
Qed.

End AnalyzeHandlerProperties.

Lemma analyzeHandler_on_bobsNumber :
  analyzeHandler sampleDb literalRegExp_i wordTextFind None
    (Some (mkPartial None None (Some Japan) (Some (ukData "3456789012")))) (Some UK)
    ([], []) =
  (AnalyzeJson200
     (mkAnalysis true [bobStone] [] ["Name is required"; "Age is required"]%string),
   ([Or [[CountryDataIs "nhsNumber" "3456789012"]]],
    [mkLogEntry "unknown"
       (mkPartial None None (Some Japan) (Some (ukData "3456789012")))
       duplicate_found [3]])).
Proof. vm_compute. reflexivity. Qed.

(** A name that is no regular expression: [POST /match] answers 500
    with nothing sent to the store, and so does [POST /analyze] when
    age and country come with the name. *)
Example handlers_on_malformed_name :
  matchHandler sampleDb parenRegExp_i wordTextFind parenWithBobsNumber [] =
    (Json500 "Failed to find matches", []) /\
  analyzeHandler sampleDb parenRegExp_i wordTextFind None
    (Some (mkPartial (Some "("%string) (Some 30%Q) None None)) (Some UK) ([], []) =
    (AnalyzeJson500 "Failed to analyze extraction data", ([], [])).
Proof. split; vm_compute; reflexivity. Qed.

Lemma analyzeHandler_log_entry_witness :
  exists entry,
    [mkLogEntry "unknown"
       (mkPartial None None (Some Japan) (Some (ukData "3456789012")))
       duplicate_found [3]] = [] ++ [entry] /\
    log_extractionStatus entry <> failed.
Proof.
  destruct (analyzeHandler_log_entry sampleDb literalRegExp_i wordTextFind None _ _ _ _ _ _ _
              analyzeHandler_on_bobsNumber) as (entry & H1 & _ & _ & _ & H2 & _).
  exists entry. split; [exact H1 | exact H2].
Defined.

(** ** The handler [POST /validate] *)

Section ValidateHandlerProperties.

Variable RegExp : string -> option (string -> bool).
Variable findById : string -> Outcome (option IFormFormat).

Lemma checkMapping_spec data ve mf m :
  checkMapping RegExp data (ve, mf) m =
  if patternThrows RegExp data m then None
  else Some (ve ++ mappingErrors RegExp data m,
             mf ++ (if isMissing data m then [fieldName m] else [])).
Proof.
  unfold checkMapping, patternThrows, mappingErrors, badFormat, patternFor, isMissing.
  destruct (isRequired m && blankValue (data (fieldName m)));
    destruct (data (fieldName m)) as [v|];
    try (destruct (validationPattern m) as [pattern|]);
    try (destruct (truthy_value (Some v) && truthy_str (Some pattern)));
    try (destruct (RegExp pattern) as [test|]; [destruct (test (toString v))|]);
    cbn [negb app]; rewrite ?app_nil_r, <- ?app_assoc; reflexivity.
Qed.

Lemma checkMappings_spec data ms :
  forall ve mf,
    checkMappings RegExp data ms (ve, mf) =
    if existsb (patternThrows RegExp data) ms then None
    else Some (ve ++ flat_map (mappingErrors RegExp data) ms,
               mf ++ map fieldName (List.filter (isMissing data) ms)).
Proof.
  induction ms as [|m ms IH]; intros ve mf; cbn [checkMappings existsb flat_map List.filter map].
  - now rewrite !app_nil_r.
  - rewrite checkMapping_spec. destruct (patternThrows RegExp data m); [reflexivity|].
    cbn [orb]. rewrite IH. destruct (existsb _ ms); [reflexivity|].
    destruct (isMissing data m); cbn [map]; now rewrite <- !app_assoc.
Qed.

(** X22.  The answers of [POST /validate].  It answers 400 exactly
    when [extractedData] or [formFormatId] is missing, 404 exactly when
    the lookup of the form format resolves to nothing, and 500 exactly
    when that lookup is rejected or a pattern that applies to a field
    with a value is not a well-formed regular expression.  Otherwise it
    answers 200: [missingFields] lists, in mapping order, the required
    fields without a value or with only white space, and, the numbers
    of [extractedData] being safe integers, [validationErrors] lists,
    mapping by mapping, the "is required" message of a missing field
    followed by the "format is invalid" message of a value that fails
    its pattern. *)
Theorem validateHandler_responses (extractedData : option (string -> option JsValue))
    (formFormatId : option string) :
  match validateHandler RegExp findById extractedData formFormatId with
  | ValidateJson400 _ => extractedData = None \/ truthy_str formFormatId = false
  | ValidateJson404 _ =>
      exists data id, extractedData = Some data /\ formFormatId = Some id /\
                      truthy_str formFormatId = true /\ findById id = Returned None
  | ValidateJson500 _ =>
      exists data id, extractedData = Some data /\ formFormatId = Some id /\
        truthy_str formFormatId = true /\
        ((exists e, findById id = Thrown e) \/
         (exists ff, findById id = Returned (Some ff) /\
            exists m, In m (fieldMappings ff) /\ patternThrows RegExp data m = true))
  | ValidateJson200 r =>
      exists data id ff, extractedData = Some data /\ formFormatId = Some id /\
        truthy_str formFormatId = true /\ findById id = Returned (Some ff) /\
        (forall m, In m (fieldMappings ff) -> patternThrows RegExp data m = false) /\
        (safeIntegers data ->
         vd_validationErrors r = flat_map (mappingErrors RegExp data) (fieldMappings ff)) /\
        missingFields r = map fieldName (List.filter (isMissing data) (fieldMappings ff)) /\
        isValid r = (length (vd_validationErrors r) =? 0) /\
        vd_country r = ff_country ff /\ vd_formName r = formName ff
  end.
Proof.
  unfold validateHandler.
  destruct extractedData as [data|]; [|auto].
  destruct formFormatId as [id|]; [|auto].
  destruct (truthy_str (Some id)) eqn:Hid; [|auto].
  destruct (findById id) as [[ff|]|e] eqn:Hff; [|eauto 7|eauto 9].
  rewrite checkMappings_spec. cbn [app].
  destruct (existsb (patternThrows RegExp data) (fieldMappings ff)) eqn:Hex.
  - apply existsb_exists in Hex. exists data, id. eauto 9.
  - exists data, id, ff. repeat split; try reflexivity; try exact Hff; try exact Hid.
    intros m Hm. destruct (patternThrows RegExp data m) eqn:E; [|reflexivity].
    assert (existsb (patternThrows RegExp data) (fieldMappings ff) = true) as Hex'
      by (apply existsb_exists; eauto).
    congruence.
Qed.

Lemma flat_map_nil_iff {A B} (f : A -> list B) l :
  flat_map f l = [] <-> forall x, In x l -> f x = [].
Proof.
  induction l as [|x l IH]; cbn [flat_map In].
  - split; [intros _ x [] | reflexivity].
  - split.
    + intros [H1 H2]%app_eq_nil y [<-|Hy]; [exact H1 | now apply IH].
    + intros H. rewrite (H x) by now left. apply IH. intros y Hy. apply H. now right.
Qed.

(** X23.  Whenever [POST /validate] answers 200, [isValid] is set
    exactly when no required field is missing and no value fails its
    pattern; every missing field has its "is required" message among
    the validation errors, so there are at least as many errors as
    missing fields. *)
Theorem validateHandler_validity (data : string -> option JsValue) (id : string)
    (ff : IFormFormat) (r : ValidationData) :
  findById id = Returned (Some ff) ->
  validateHandler RegExp findById (Some data) (Some id) = ValidateJson200 r ->
  (isValid r = true <->
   forall m, In m (fieldMappings ff) ->
             isMissing data m = false /\ badFormat RegExp data m = false) /\
  (forall f, In f (missingFields r) ->
             In (f +:+ " is required") (vd_validationErrors r)) /\
  length (missingFields r) <= length (vd_validationErrors r).
Proof.
  intros Hff H. unfold validateHandler in H. rewrite Hff in H.
  destruct (truthy_str (Some id)); [|discriminate].
  rewrite checkMappings_spec in H. cbn [app] in H.
  destruct (existsb (patternThrows RegExp data) (fieldMappings ff)); [discriminate|].
  injection H as <-. cbn [isValid vd_validationErrors missingFields].
  split; [|split].
  - rewrite Nat.eqb_eq, length_zero_iff_nil, flat_map_nil_iff.
    split; intros Hall m Hm; specialize (Hall m Hm); unfold mappingErrors in *.
    + destruct (isMissing data m), (badFormat RegExp data m); try discriminate. auto.
    + destruct Hall as [-> ->]. reflexivity.
  - intros f (m & <- & Hm)%in_map_iff. apply List.filter_In in Hm as [Hm Hmiss].
    apply in_flat_map. exists m. split; [exact Hm|].
    unfold mappingErrors. rewrite Hmiss. now left.
  - rewrite length_map. clear. induction (fieldMappings ff) as [|m ms IH]; [cbn; lia|].
    cbn [List.filter flat_map]. rewrite length_app. unfold mappingErrors at 1.
    destruct (isMissing data m); cbn [length app]; lia.
Qed.

End ValidateHandlerProperties.

Lemma validateHandler_on_sample :
  validateHandler sampleRegExp sampleFindById (Some sampleExtracted) (Some sampleFormatId) =
  ValidateJson200
    (mkValidationData false
       ["name is required"; "nhsNumber format is invalid"]%string
       ["name"%string] UK "UK registration").
Proof. vm_compute. reflexivity. Qed.

(** An id the store cannot cast is answered 500, an id it does not
    hold 404. *)
Example validateHandler_on_other_ids :
  validateHandler sampleRegExp sampleFindById (Some sampleExtracted) (Some "f1"%string) =
  ValidateJson500 "Failed to validate data" /\
  validateHandler sampleRegExp sampleFindById (Some sampleExtracted)
    (Some "000000000000000000000000"%string) =
  ValidateJson404 "Form format not found".
Proof. split; vm_compute; reflexivity. Qed.

Lemma validateHandler_validity_witness :
  (forall f, In f ["name"%string] ->
             In (f +:+ " is required")
                ["name is required"; "nhsNumber format is invalid"]%string) /\
  length ["name"%string] <=
  length ["name is required"; "nhsNumber format is invalid"]%string.
Proof.
  exact (proj2 (validateHandler_validity sampleRegExp sampleFindById sampleExtracted
                  sampleFormatId sampleFormat _ eq_refl validateHandler_on_sample)).
Defined.

(** ** Form templates *)

Lemma append_assoc (a b c : string) : (a +:+ b) +:+ c = a +:+ (b +:+ c).
Proof.
  induction a as [|x a IH]; [reflexivity|].
  change (String x ((a +:+ b) +:+ c) = String x (a +:+ (b +:+ c))). now rewrite IH.
Qed.

Lemma append_nil_r (a : string) : a +:+ "" = a.
Proof.
  induction a as [|x a IH]; [reflexivity|].
  change (String x (a +:+ "") = String x a). now rewrite IH.
Qed.

Lemma list_ascii_of_string_app (a b : string) :
  list_ascii_of_string (a +:+ b) = list_ascii_of_string a ++ list_ascii_of_string b.
Proof.
  induction a as [|x a IH]; [reflexivity|].
  change (x :: list_ascii_of_string (a +:+ b) =
          x :: (list_ascii_of_string a ++ list_ascii_of_string b)).
  now rewrite IH.
Qed.

Lemma infixb_unfold p s :
  infixb p s = prefixb p s || match s with [] => false | _ :: s' => infixb p s' end.
Proof. destruct s; reflexivity. Qed.

Lemma prefixb_app p b : prefixb p (p ++ b) = true.
Proof.
  induction p as [|c p IH]; cbn; [reflexivity|]. now rewrite Ascii.eqb_refl, IH.
Qed.

Lemma prefixb_left p : forall s b, prefixb p s = true -> prefixb p (s ++ b) = true.
Proof.
  induction p as [|c p IH]; intros [|x s] b; cbn; try easy.
  intros [H1 H2]%andb_true_iff. now rewrite H1, IH.
Qed.

Lemma infixb_here p b : infixb p (p ++ b) = true.
Proof. rewrite infixb_unfold, prefixb_app. reflexivity. Qed.

Lemma infixb_skip p a : forall s, infixb p s = true -> infixb p (a ++ s) = true.
Proof.
  induction a as [|c a IH]; intros s H; [exact H|].
  cbn [app]. rewrite infixb_unfold, (IH s H). apply orb_true_r.
Qed.

Lemma infixb_left p : forall s b, infixb p s = true -> infixb p (s ++ b) = true.
Proof.
  induction s as [|x s IH]; intros b.
  - rewrite infixb_unfold, orb_false_r. intros H. destruct p; [|discriminate].
    cbn [app]. rewrite infixb_unfold. reflexivity.
  - rewrite infixb_unfold. intros [H|H]%orb_true_iff; cbn [app]; rewrite infixb_unfold.
    + change (x :: s ++ b) with ((x :: s) ++ b). now rewrite (prefixb_left _ _ b H).
    + rewrite (IH b H). apply orb_true_r.
Qed.

Lemma includes_here sub rest : includes (sub +:+ rest) sub = true.
Proof. unfold includes. rewrite list_ascii_of_string_app. apply infixb_here. Qed.

Lemma includes_skip a rest sub :
  includes rest sub = true -> includes (a +:+ rest) sub = true.
Proof. unfold includes. rewrite list_ascii_of_string_app. apply infixb_skip. Qed.

Lemma includes_left s b sub : includes s sub = true -> includes (s +:+ b) sub = true.
Proof. unfold includes. rewrite list_ascii_of_string_app. apply infixb_left. Qed.

Lemma includes_refl s : includes s s = true.
Proof. rewrite <- (append_nil_r s) at 1. apply includes_here. Qed.

Lemma includes_join sep part parts sub :
  In part parts -> includes part sub = true -> includes (join sep parts) sub = true.
Proof.
  intros Hin Hsub. induction parts as [|x parts IH]; [destruct Hin|].
  destruct parts as [|y parts].
  - destruct Hin as [->|[]]. exact Hsub.
  - change (join sep (x :: y :: parts)) with (x +:+ sep +:+ join sep (y :: parts)).
    destruct Hin as [->|Hin].
    + now apply includes_left.
    + do 2 apply includes_skip. now apply IH.
Qed.

Lemma includes_here4 a b c d rest :
  includes (a +:+ b +:+ c +:+ d +:+ rest) (a +:+ b +:+ c +:+ d) = true.
Proof.
  replace (a +:+ b +:+ c +:+ d +:+ rest) with ((a +:+ b +:+ c +:+ d) +:+ rest)
    by now rewrite !append_assoc.
  apply includes_here.
Qed.

Lemma renderField_dataAttribute field :
  includes (renderField field) (f_dataAttribute field) = true.
Proof.
  unfold renderField. cbv zeta.
  repeat first [ apply includes_here | apply includes_skip ].
Qed.

Lemma generateHTMLTemplate_country country formName fields :
  includes (generateHTMLTemplate country formName fields)
    ("data-form-country=" +:+ dq +:+ country +:+ dq) = true.
Proof.
  unfold generateHTMLTemplate. cbv zeta. apply includes_skip.
  match goal with
  | |- includes (_ +:+ ?r) ?sub = true =>
      change (includes ("<div " +:+ ("data-form-country=" +:+ r)) sub = true)
  end.
  apply includes_skip, includes_here4.
Qed.

Lemma generateHTMLTemplate_submit country formName fields :
  includes (generateHTMLTemplate country formName fields)
    ("data-submit-button=" +:+ dq +:+ "true" +:+ dq) = true.
Proof.
  unfold generateHTMLTemplate. cbv zeta.
  do 20 apply includes_skip.
  repeat match goal with
  | |- includes (?a +:+ ?r) ?sub = true =>
      lazymatch a with
      | " data-submit-button="%string =>
          change (includes (" " +:+ ("data-submit-button=" +:+ r)) sub = true);
          apply includes_skip, includes_here4
      | _ => apply includes_skip
      end
  end.
Qed.

Lemma generateHTMLTemplate_field country formName fields field :
  In field fields ->
  includes (generateHTMLTemplate country formName fields) (f_dataAttribute field) = true.
Proof.
  intros Hin. unfold generateHTMLTemplate. cbv zeta.
  do 20 apply includes_skip. apply includes_left.
  apply (includes_join nl (renderField field)).
  - now apply in_map.
  - apply renderField_dataAttribute.
Qed.

(** X24.  Every generated template contains the country attribute of
    the country it was generated for, the submit button attribute, and
    the data attribute of every field it was generated from. *)
Theorem generateHTMLTemplate_contents (country formName : string)
    (fields : list TemplateField) :
  let template := generateHTMLTemplate country formName fields in
  includes template ("data-form-country=" +:+ dq +:+ country +:+ dq) = true /\
  includes template ("data-submit-button=" +:+ dq +:+ "true" +:+ dq) = true /\
  forall field, In field fields -> includes template (f_dataAttribute field) = true.
Proof.
  cbv zeta. split; [|split].
  - apply generateHTMLTemplate_country.
  - apply generateHTMLTemplate_submit.
  - intros field. apply generateHTMLTemplate_field.
Qed.

Lemma generateHTMLTemplate_contents_witness :
  includes (generateHTMLTemplate "UK" "Registration" (t_fields templateUK))
    "data-nhs-number" = true.
Proof.
  apply (proj2 (proj2 (generateHTMLTemplate_contents "UK" "Registration"
                         (t_fields templateUK)))
           (mkField "nhsNumber" "NHS Number" "text" true
              (Some "1234567890"%string) (Some "^[0-9]{10}$"%string) "data-nhs-number")).
  cbn. tauto.
Defined.

Lemma generateHTMLTemplate_truthy country formName fields :
  truthy_str (Some (generateHTMLTemplate country formName fields)) = true.
Proof. reflexivity. Qed.

Lemma forallb_filter_missing {A B} (p q : A -> bool) (f : A -> B) (l : list A) :
  forallb p (List.filter q l) = true <->
  map f (List.filter (fun x => q x && negb (p x)) l) = [].
Proof.
  induction l as [|x l IH]; [easy|].
  cbn [List.filter]. destruct (q x) eqn:Hq; cbn [andb]; [|exact IH].
  cbn [forallb]. destruct (p x) eqn:Hp; cbn [negb andb map]; [exact IH|].
  split; discriminate.
Qed.

Lemma generateHandler_200 country formName customFields d :
  generateHandler country formName customFields = GenerateJson200 d ->
  exists c n t,
    country = Some c /\ formName = Some n /\ truthy_str (Some c) = true /\
    lookupTemplate c = OwnTemplate t /\
    d = mkGenerateData
          (generateHTMLTemplate c n (t_fields t ++ default [] customFields))
          (map toFieldMapping (t_fields t ++ default [] customFields))
          c n (t_fields t ++ default [] customFields).
Proof.
  unfold generateHandler.
  destruct country as [c|], formName as [n|]; try discriminate.
  destruct (truthy_str (Some c)) eqn:Hc; [|discriminate].
  destruct (truthy_str (Some n)); [|discriminate]. cbn [andb].
  destruct (lookupTemplate c) as [t| |] eqn:Ht; try discriminate.
  intros [= <-]. exists c, n, t. now destruct customFields.
Qed.

(** X25.  Round trip between the two template routes: whatever
    [POST /generate] answers with status 200, for any form name and any
    custom fields, [POST /validate] of the template router accepts for
    the same country, with all three checks passed, no required field
    missing and no suggestion. *)
Theorem generated_template_validates (country formName : option string)
    (customFields : option (list TemplateField)) (d : GenerateData) :
  generateHandler country formName customFields = GenerateJson200 d ->
  validateTemplateHandler (Some (formTemplate d)) (Some (g_country d)) =
    TemplateJson200
      (mkTemplateValidation true (mkValidationResults true true true []) []).
Proof.
  intros (c & n & t & -> & -> & Hc & Ht & ->)%generateHandler_200.
  cbn [formTemplate g_country]. unfold validateTemplateHandler.
  rewrite generateHTMLTemplate_truthy, Hc. cbn [andb]. rewrite Ht. cbv zeta.
  set (fields := t_fields t ++ default [] customFields).
  assert (Hall : forall f, In f (t_fields t) ->
            includes (generateHTMLTemplate c n fields) (f_dataAttribute f) = true).
  { intros f Hf. apply generateHTMLTemplate_field. apply in_or_app. now left. }
  assert (Hreq : forallb (fun field => includes (generateHTMLTemplate c n fields)
                                         (f_dataAttribute field))
                   (List.filter f_required (t_fields t)) = true).
  { apply forallb_forall. intros f [Hf _]%filter_In. now apply Hall. }
  rewrite generateHTMLTemplate_country, generateHTMLTemplate_submit, Hreq.
  apply (forallb_filter_missing _ _ f_name) in Hreq. rewrite Hreq. reflexivity.
Qed.

Lemma generated_template_validates_witness :
  exists d,
    generateHandler (Some "Japan"%string) (Some "Registration"%string) None =
      GenerateJson200 d /\
    validateTemplateHandler (Some (formTemplate d)) (Some (g_country d)) =
      TemplateJson200
        (mkTemplateValidation true (mkValidationResults true true true []) []).
Proof.
  eexists. split; [reflexivity|].
  apply (generated_template_validates (Some "Japan"%string)
           (Some "Registration"%string) None).
  reflexivity.
Defined.

(** X26.  The report of the template router's [POST /validate].  The
    template is valid exactly when all three checks pass, and exactly
    when there is no suggestion; the required-fields check passes
    exactly when the list of missing required fields is empty; an
    invalid template gets between one and three suggestions, one per
    failed check; and every missing field is named after a field of
    the country's template. *)
Theorem validateTemplateHandler_report (formTemplate country : option string)
    (d : TemplateValidation) :
  validateTemplateHandler formTemplate country = TemplateJson200 d ->
  let r := validationResults d in
  (tv_isValid d = true <->
   hasCountryAttribute r = true /\ hasRequiredFields r = true /\
   hasSubmitButton r = true) /\
  (hasRequiredFields r = true <-> missingRequiredFields r = []) /\
  (tv_isValid d = true <-> tv_suggestions d = []) /\
  (tv_isValid d = false ->
   tv_suggestions d = failedChecks r /\ 1 <= length (tv_suggestions d) <= 3) /\
  exists c t, country = Some c /\ lookupTemplate c = OwnTemplate t /\
              incl (missingRequiredFields r) (map f_name (t_fields t)).
Proof.
  unfold validateTemplateHandler.
  destruct formTemplate as [ft|], country as [c|]; try discriminate.
  destruct (truthy_str (Some ft) && truthy_str (Some c)); [|discriminate].
  destruct (lookupTemplate c) as [t| |] eqn:Ht; try discriminate.
  cbv zeta. intros [= <-]. cbn [validationResults tv_isValid tv_suggestions
    hasCountryAttribute hasRequiredFields hasSubmitButton missingRequiredFields].
  set (a := includes ft _). set (b := forallb _ _). set (s := includes ft _).
  assert (Hb : b = true <->
               map f_name
                 (List.filter
                    (fun f => f_required f && negb (includes ft (f_dataAttribute f)))
                    (t_fields t)) = []).
  { apply forallb_filter_missing. }
  split; [|split; [exact Hb|split; [|split]]].
  - rewrite !andb_true_iff. tauto.
  - unfold failedChecks. cbn. destruct a, b, s; cbn; intuition congruence.
  - unfold failedChecks. cbn. destruct a, b, s; cbn; try discriminate;
      intros _; (split; [reflexivity|lia]).
  - exists c, t. split; [reflexivity|]. split; [exact Ht|].
    intros x (f & <- & [Hf _]%filter_In)%in_map_iff. apply in_map. exact Hf.
Qed.

Lemma validateTemplateHandler_report_witness :
  exists d,
    validateTemplateHandler (Some "<form></form>"%string) (Some "US"%string) =
      TemplateJson200 d /\
    tv_isValid d = false /\ length (tv_suggestions d) = 3 /\
    missingRequiredFields (validationResults d) =
      ["name"; "age"; "mrn"; "healthInsurancePolicyNumber";
       "primaryInsuranceProvider"]%string.
Proof.
  eexists. split; [reflexivity|].
  pose proof (validateTemplateHandler_report (Some "<form></form>"%string)
                (Some "US"%string) _ eq_refl) as H.
  cbv zeta in H. destruct H as (_ & _ & _ & H & _).
  split; [reflexivity|]. split; [|reflexivity].
  destruct (H eq_refl) as [-> _]. reflexivity.
Defined.

Lemma lookupTemplate_cases c :
  match lookupTemplate c with
  | OwnTemplate t => In c templateCountries /\ t_country t = c
  | InheritedProperty => ~ In c templateCountries /\ In c objectPrototypeKeys
  | NoProperty => ~ In c templateCountries /\ ~ In c objectPrototypeKeys
  end.
Proof.
  unfold lookupTemplate, templateCountries.
  destruct (String.eqb_spec c "UK") as [->|H1]; [cbn; tauto|].
  destruct (String.eqb_spec c "US") as [->|H2]; [cbn; tauto|].
  destruct (String.eqb_spec c "India") as [->|H3]; [cbn; tauto|].
  destruct (String.eqb_spec c "Japan") as [->|H4]; [cbn; tauto|].
  assert (Hno : ~ In c ["UK"; "US"; "India"; "Japan"]%string).
  { cbn. intros [E|[E|[E|[E|[]]]]]; congruence. }
  destruct (existsb (String.eqb c) objectPrototypeKeys) eqn:He.
  - split; [exact Hno|]. apply existsb_exists in He as (k & Hk & E).
    apply String.eqb_eq in E. now subst.
  - split; [exact Hno|]. intros Hin.
    assert (existsb (String.eqb c) objectPrototypeKeys = true) as E.
    { apply existsb_exists. exists c. split; [exact Hin|apply String.eqb_refl]. }
    congruence.
Qed.

(** X27.  The answers of [POST /generate].  It answers 400 exactly
    when the country or the form name is missing or empty; otherwise
    404 exactly when the country is neither one of the four template
    countries nor a property every object inherits, and 500 exactly
    when the country names such an inherited property (the lookup is
    truthy but has no fields to spread).  Otherwise it answers 200 for
    one of the four countries:
    the fields are the country's template fields followed by the custom
    fields, there is one mapping per field, in order, and each
    mapping's selector is its data attribute in square brackets. *)
Theorem generateHandler_responses (country formName : option string)
    (customFields : option (list TemplateField)) :
  match generateHandler country formName customFields with
  | GenerateJson400 _ => truthy_str country = false \/ truthy_str formName = false
  | GenerateJson404 _ =>
      truthy_str country = true /\ truthy_str formName = true /\
      exists c, country = Some c /\ ~ In c templateCountries /\
                ~ In c objectPrototypeKeys
  | GenerateJson500 _ =>
      truthy_str country = true /\ truthy_str formName = true /\
      exists c, country = Some c /\ ~ In c templateCountries /\
                In c objectPrototypeKeys
  | GenerateJson200 d =>
      truthy_str formName = true /\
      In (g_country d) templateCountries /\ country = Some (g_country d) /\
      formName = Some (g_formName d) /\
      (exists t, lookupTemplate (g_country d) = OwnTemplate t /\
                 t_country t = g_country d /\
                 g_fields d = t_fields t ++ default [] customFields) /\
      formTemplate d = generateHTMLTemplate (g_country d) (g_formName d) (g_fields d) /\
      map fieldName (g_fieldMappings d) = map f_name (g_fields d) /\
      Forall2 (fun m f => googleFormSelector m = "[" +:+ f_dataAttribute f +:+ "]" /\
                          dataAttribute m = Some (f_dataAttribute f) /\
                          isRequired m = f_required f)
        (g_fieldMappings d) (g_fields d)
  end.
Proof.
  unfold generateHandler.
  destruct country as [c|]; [|now left].
  destruct formName as [n|]; [|now right].
  destruct (truthy_str (Some c)) eqn:Hc; [|now left].
  destruct (truthy_str (Some n)) eqn:Hn; [|now right]. cbn [andb].
  pose proof (lookupTemplate_cases c) as Hl.
  destruct (lookupTemplate c) as [t| |] eqn:Ht.
  - cbv zeta. cbn [g_country g_formName g_fields g_fieldMappings formTemplate].
    destruct Hl as [Hin Htc]. rewrite Ht.
    split; [reflexivity|]. split; [exact Hin|]. do 2 (split; [reflexivity|]).
    split; [|split; [reflexivity|split]].
    + exists t. split; [reflexivity|]. split; [exact Htc|]. now destruct customFields.
    + rewrite map_map. reflexivity.
    + induction (t_fields t ++ _) as [|f l IH]; constructor; [easy|exact IH].
  - do 2 (split; [reflexivity|]). exists c. tauto.
  - do 2 (split; [reflexivity|]). exists c. tauto.
Qed.

(** X28.  The two template routes agree on which countries exist: for a
    non-empty country, form name and template, [POST /generate] answers
    404 exactly when the template router's [POST /validate] does, and
    500 exactly when it does. *)
Theorem template_routes_agree (country formName formTemplate : string)
    (customFields : option (list TemplateField)) :
  truthy_str (Some country) = true ->
  truthy_str (Some formName) = true ->
  truthy_str (Some formTemplate) = true ->
  match generateHandler (Some country) (Some formName) customFields,
        validateTemplateHandler (Some formTemplate) (Some country) with
  | GenerateJson200 _, TemplateJson200 _
  | GenerateJson404 _, TemplateJson404 _
  | GenerateJson500 _, TemplateJson500 _ => True
  | _, _ => False
  end.
Proof.
  intros Hc Hn Hf. unfold generateHandler, validateTemplateHandler.
  rewrite Hc, Hn, Hf. cbn [andb]. now destruct (lookupTemplate country).
Qed.

Lemma template_routes_agree_witness :
  match generateHandler (Some "toString"%string) (Some "Registration"%string) None,
        validateTemplateHandler (Some "<form></form>"%string) (Some "toString"%string) with
  | GenerateJson200 _, TemplateJson200 _
  | GenerateJson404 _, TemplateJson404 _
  | GenerateJson500 _, TemplateJson500 _ => True
  | _, _ => False
  end.
Proof.
  apply (template_routes_agree "toString" "Registration" "<form></form>" None);
    reflexivity.
Defined.

(** ** The template table and the validator *)

(** X29.  The template table and the validator agree on what is
    required: a record that has a name, an age and a value for every
    required field of its country's template gets no "is required"
    message from [validateCountrySpecificFields]; the only messages it
    can get report an NHS number or SSN of the wrong format. *)
Theorem template_required_fields_validate (c : Country) (t : CountryTemplate)
    (data : PartialPatient) (cd : CountryData) :
  lookupTemplate (countryLiteral c) = OwnTemplate t ->
  p_country data = Some c ->
  p_countryData data = Some cd ->
  truthy_str (p_name data) = true ->
  truthy_num (p_age data) = true ->
  (forall f, In f (t_fields t) -> f_required f = true ->
             f_name f <> "name"%string -> f_name f <> "age"%string ->
             truthy_str (getField cd (f_name f)) = true) ->
  forall e, In e (validateCountrySpecificFields data []) -> In e formatErrors.
Proof.
  intros Ht Hc Hcd Hname Hage Hreq e.
  unfold validateCountrySpecificFields. rewrite Hc, Hcd, Hname, Hage. cbn [negb pushIf].
  destruct c; cbn in Ht; injection Ht as <-;
    match type of Hreq with
    | forall f, In f (t_fields ?t) -> _ =>
        pose proof (Hreq (nth 2 (t_fields t) (mkField EmptyString EmptyString EmptyString false None None EmptyString))) as H
    end;
    cbn in H; (lapply H; [clear H; intros H|tauto]);
    specialize (H eq_refl); (lapply H; [clear H; intros H|discriminate]);
    (lapply H; [clear H; intros H|discriminate]).
  - destruct (nhsNumber cd) as [v|]; [|discriminate]. rewrite H.
    destruct (test_nhsNumber v); cbn; [tauto|]. intros [<-|[]]. cbn. tauto.
  - rewrite H. cbn [negb pushIf].
    destruct (ssn cd) as [v|]; [|intros []].
    destruct (truthy_str (Some v) && negb (test_ssn v)); cbn; [|tauto].
    intros [<-|[]]. cbn. tauto.
  - rewrite H. cbn. intros [].
  - rewrite H. cbn. intros [].
Qed.

Lemma template_required_fields_validate_witness :
  validateCountrySpecificFields annShortNhs [] = ["NHS Number must be 10 digits"%string] /\
  In "NHS Number must be 10 digits"%string formatErrors.
Proof.
  split; [reflexivity|].
  apply (template_required_fields_validate UK templateUK annShortNhs
           (mkCountryData (Some "12345"%string) (Some "1 High Street"%string)
              (Some "Dr. Smith"%string) None None None None None None None None None
              None None) eq_refl eq_refl eq_refl eq_refl eq_refl).
  - intros f Hin Hr Hn Ha. cbn in Hin.
    repeat (destruct Hin as [<-|Hin];
            [first [reflexivity | discriminate Hr | now elim Hn | now elim Ha]|]).
    destruct Hin.
  - left. reflexivity.
Defined.
